(** * Redmine-desktop: the application updater (main process)

    A shallow embedding of the updater module of the Electron main process
    ([downloadFile], [getAutoCheckSettings], [startAutoCheck],
    [silentCheckForUpdates], [fetchLatestReleaseFromGitHub],
    [isNewerVersion], the IPC handlers and [sendToRenderer]) and the
    properties its design document states about it; then the channels of
    the preload script, the module as a whole (IPC calls, timers, the
    updater's events and the window, one step after another) and further
    properties the code has.

    Conventions of the embedding:
    - a JavaScript string is a [string] whose characters are read as code
      units (version strings and header values are ASCII in practice);
    - a JavaScript number is a [jsnum]: NaN, an infinity, or a finite value
      kept as an exact rational; values read from text are rounded to the
      nearest binary64 value as the language prescribes;
    - module-level [let] variables become fields of one state record, and
      calls into Electron, Node or electron-updater become entries of an
      effect log; what those collaborators answer is an input. *)

From Stdlib Require Import ZArith QArith Lia List String Ascii Bool.
From stdpp Require Import base strings gmap list pretty.
Import ListNotations.

Set Warnings "-register-all".

Local Open Scope string_scope.
Local Open Scope Z_scope.

(** ** JavaScript numbers and the text-to-number conversions *)

Module JS.

Inductive jsnum : Type :=
| NaN
| Infinity (negative : bool)
| Fin (q : Q).

Definition zero : jsnum := Fin (0 # 1).

(** ToBoolean on a number: [0], [-0] and [NaN] are falsy. *)
Definition truthy_num (x : jsnum) : bool :=
  match x with
  | NaN => false
  | Infinity _ => true
  | Fin q => negb (Qeq_bool q (0 # 1))
  end.

(** [a < b] on numbers; any comparison with [NaN] is false. *)
Definition num_lt (a b : jsnum) : bool :=
  match a, b with
  | NaN, _ | _, NaN => false
  | Infinity true, Infinity true => false
  | Infinity true, _ => true
  | _, Infinity true => false
  | Infinity false, _ => false
  | Fin _, Infinity false => true
  | Fin x, Fin y => match Qcompare x y with Lt => true | _ => false end
  end.

Definition num_gt (a b : jsnum) : bool := num_lt b a.

(** [a <= b] and [a >= b]; false when either side is [NaN]. *)
Definition num_le (a b : jsnum) : bool :=
  match a, b with
  | NaN, _ | _, NaN => false
  | _, _ => negb (num_lt b a)
  end.

Definition num_ge (a b : jsnum) : bool := num_le b a.

(** Round a positive rational [p/q] to the nearest binary64 value, ties to
    even: 53 significant bits, exponents from -1022 (below which the grid
    of subnormals is kept) to 1023 (above which the result is infinite). *)
Definition pow2_le (e : Z) (p q : Z) : bool :=
  if 0 <=? e then q * 2 ^ e <=? p else q <=? p * 2 ^ (- e).

Definition round_pos (p q : positive) : jsnum :=
  let e0 := Z.log2 (Zpos p) - Z.log2 (Zpos q) in
  let e := if pow2_le e0 (Zpos p) (Zpos q) then e0 else e0 - 1 in
  let E := Z.max e (-1022) in
  let u := E - 52 in
  let num := if 0 <=? u then Zpos p else Zpos p * 2 ^ (- u) in
  let den := if 0 <=? u then Zpos q * 2 ^ u else Zpos q in
  let m := num / den in
  let r := num mod den in
  let m' := if 2 * r <? den then m
            else if den <? 2 * r then m + 1
            else if Z.even m then m else m + 1 in
  if (1023 <? E) || ((E =? 1023) && (m' =? 2 ^ 53)) then Infinity false
  else if 0 <=? u then Fin (inject_Z (m' * 2 ^ u))
  else Fin (Qred (m' # Z.to_pos (2 ^ (- u)))).

Definition neg (x : jsnum) : jsnum :=
  match x with
  | NaN => NaN
  | Infinity s => Infinity (negb s)
  | Fin q => Fin (Qopp q)
  end.

(** The number value of the mathematical value [n / d] ([d] positive). *)
Definition round_double (n : Z) (d : positive) : jsnum :=
  match n with
  | Z0 => zero
  | Zpos p => round_pos p d
  | Zneg p => neg (round_pos p d)
  end.

(** The number nearest to an integer (the integer itself below 2^53). *)
Definition of_Z (z : Z) : jsnum := round_double z 1.

(** The number that is exactly the integer [z]. *)
Definition integer (z : Z) : jsnum := Fin (inject_Z z).

(** *** Characters *)

Definition code (c : ascii) : Z := Z.of_nat (nat_of_ascii c).

(** White space and line terminators among the first 256 code units. *)
Definition is_white_space (c : ascii) : bool :=
  let n := code c in
  ((9 <=? n) && (n <=? 13)) || (n =? 32) || (n =? 160).

(** The value of a digit in the given radix (letters in either case). *)
Definition digit_value (radix : Z) (c : ascii) : option Z :=
  let n := code c in
  let v := if (48 <=? n) && (n <=? 57) then n - 48
           else if (97 <=? n) && (n <=? 122) then n - 87
           else if (65 <=? n) && (n <=? 90) then n - 55
           else radix in
  if v <? radix then Some v else None.

(** *** Strings *)

Fixpoint trim_start (s : string) : string :=
  match s with
  | String c rest => if is_white_space c then trim_start rest else s
  | EmptyString => EmptyString
  end.

Fixpoint trim_end (s : string) : string :=
  match s with
  | EmptyString => EmptyString
  | String c rest =>
      match trim_end rest with
      | EmptyString => if is_white_space c then EmptyString else String c EmptyString
      | rest' => String c rest'
      end
  end.

Definition trim (s : string) : string := trim_end (trim_start s).

(** [s.split(sep)] for a one-character separator: never an empty array. *)
Fixpoint split (sep : ascii) (s : string) : list string :=
  match s with
  | EmptyString => [EmptyString]
  | String c rest =>
      if Ascii.eqb c sep then EmptyString :: split sep rest
      else match split sep rest with
           | seg :: segs => String c seg :: segs
           | [] => [String c EmptyString]
           end
  end.

(** The longest prefix of digits of [s] in [radix], read most significant
    digit first: the accumulated value, how many digits were read and the
    rest of the string. *)
Fixpoint read_digits (radix : Z) (s : string) (acc : Z) (count : Z) : Z * Z * string :=
  match s with
  | String c rest =>
      match digit_value radix c with
      | Some d => read_digits radix rest (acc * radix + d) (count + 1)
      | None => (acc, count, s)
      end
  | EmptyString => (acc, count, s)
  end.

(** A string made of digits only (at least one): its value. *)
Definition all_digits (radix : Z) (s : string) : option Z :=
  match read_digits radix s 0 0 with
  | (v, n, EmptyString) => if 0 <? n then Some v else None
  | _ => None
  end.

Definition read_sign (s : string) : bool * string :=
  match s with
  | String "-" rest => (true, rest)
  | String "+" rest => (false, rest)
  | _ => (false, s)
  end.

(** An exponent part [e±ddd] closing a decimal literal; [Some 0] when the
    literal has none, [None] when what follows is not an exponent part. *)
Definition read_exponent (s : string) : option Z :=
  match s with
  | EmptyString => Some 0
  | String c rest =>
      if Ascii.eqb c "e" || Ascii.eqb c "E" then
        let '(negative, ds) := read_sign rest in
        match all_digits 10 ds with
        | Some v => Some (if negative then - v else v)
        | None => None
        end
      else None
  end.

(** An unsigned decimal literal [ddd], [ddd.ddd], [ddd.] or [.ddd] with an
    optional exponent part: the mantissa and the power of ten. *)
Definition read_unsigned_decimal (s : string) : option (Z * Z) :=
  let '(int_v, int_n, after_int) := read_digits 10 s 0 0 in
  let '(m, frac_n, after_frac) :=
    match after_int with
    | String "." rest => read_digits 10 rest int_v 0
    | _ => (int_v, 0, after_int)
    end in
  if (int_n + frac_n =? 0) then None
  else match read_exponent after_frac with
       | Some ex => Some (m, ex - frac_n)
       | None => None
       end.

Definition decimal_value (negative : bool) (m ex : Z) : jsnum :=
  let m := if negative then - m else m in
  if 0 <=? ex then round_double (m * 10 ^ ex) 1
  else round_double m (Z.to_pos (10 ^ (- ex))).

(** [0x], [0o] and [0b] literals (either case of the letter, no sign). *)
Definition read_non_decimal (s : string) : option Z :=
  match s with
  | String "0" (String c rest) =>
      if Ascii.eqb c "x" || Ascii.eqb c "X" then all_digits 16 rest
      else if Ascii.eqb c "o" || Ascii.eqb c "O" then all_digits 8 rest
      else if Ascii.eqb c "b" || Ascii.eqb c "B" then all_digits 2 rest
      else None
  | _ => None
  end.

(** [Number(s)] on a string: white space is trimmed, the empty string is
    [0], a numeric literal has its value, anything else is [NaN]. *)
Definition Number (s : string) : jsnum :=
  let t := trim s in
  match t with
  | EmptyString => zero
  | _ =>
      match read_non_decimal t with
      | Some v => round_double v 1
      | None =>
          let '(negative, body) := read_sign t in
          if String.eqb body "Infinity" then Infinity negative
          else match read_unsigned_decimal body with
               | Some (m, ex) => decimal_value negative m ex
               | None => NaN
               end
      end
  end.

(** [parseInt(s, 10)]: leading white space and a sign are skipped, the
    longest prefix of decimal digits is read and what follows is ignored;
    [NaN] when there is no digit. *)
Definition parseInt10 (s : string) : jsnum :=
  let '(negative, body) := read_sign (trim_start s) in
  let '(v, n, _) := read_digits 10 body 0 0 in
  if n =? 0 then NaN
  else round_double (if negative then - v else v) 1.


(** *** Arithmetic

    Products and quotients are the exact results rounded to binary64. The
    sign of a zero is not kept: the module never divides by a zero it has
    not tested for. *)

Definition of_Q (q : Q) : jsnum := round_double (Qnum q) (Qden q).

Definition is_negative (q : Q) : bool := Qnum q <? 0.
Definition is_zero (q : Q) : bool := Qnum q =? 0.

Definition num_mul (a b : jsnum) : jsnum :=
  match a, b with
  | NaN, _ | _, NaN => NaN
  | Infinity s, Infinity t => Infinity (xorb s t)
  | Infinity s, Fin y | Fin y, Infinity s =>
      if is_zero y then NaN else Infinity (xorb s (is_negative y))
  | Fin x, Fin y => of_Q (Qmult x y)
  end.

Definition num_div (a b : jsnum) : jsnum :=
  match a, b with
  | NaN, _ | _, NaN => NaN
  | Infinity _, Infinity _ => NaN
  | Infinity s, Fin y => Infinity (xorb s (is_negative y))
  | Fin _, Infinity _ => zero
  | Fin x, Fin y =>
      if is_zero y then (if is_zero x then NaN else Infinity (is_negative x))
      else of_Q (Qdiv x y)
  end.

(** *** Values *)

Inductive jsval : Type :=
| VUndefined
| VNull
| VBool (b : bool)
| VNum (n : jsnum)
| VStr (s : string)
| VArr (items : list jsval)
| VObj (fields : list (string * jsval)).

(** ToBoolean. *)
Definition truthy (v : jsval) : bool :=
  match v with
  | VUndefined | VNull => false
  | VBool b => b
  | VNum n => truthy_num n
  | VStr s => negb (String.eqb s "")
  | VArr _ | VObj _ => true
  end.

(** [a || b] *)
Definition or_else (a b : jsval) : jsval := if truthy a then a else b.

(** ToNumber. An array converts through its text: the empty array is
    [0], a one-element array is what its element's text converts to, any
    longer one has a comma in its text and is [NaN]. *)
Fixpoint to_number (v : jsval) : jsnum :=
  match v with
  | VUndefined => NaN
  | VNull => zero
  | VBool b => if b then of_Z 1 else zero
  | VNum n => n
  | VStr s => Number s
  | VArr [] => zero
  | VArr [x] =>
      match x with
      | VUndefined | VNull => zero
      | VBool _ | VObj _ => NaN
      | VNum n => n
      | VStr s => Number s
      | VArr _ => to_number x
      end
  | VArr _ => NaN
  | VObj _ => NaN
  end.

(** [o.name] on a property bag: [undefined] when the name is absent. *)
Fixpoint field (name : string) (fields : list (string * jsval)) : jsval :=
  match fields with
  | [] => VUndefined
  | (k, v) :: rest => if String.eqb k name then v else field name rest
  end.

(** What a call into a collaborator gives back: a value, or a thrown
    error ([await] on a rejected promise throws it). *)
Inductive Outcome (A : Type) : Type :=
| Returns (a : A)
| Throws (message : string).
Arguments Returns {A} a.
Arguments Throws {A} message.

(** The state of a promise: [resolve] and [reject] act on a pending
    promise only. *)
Inductive Promise (A : Type) : Type :=
| Pending
| Resolved (a : A)
| Rejected (message : string).
Arguments Pending {A}.
Arguments Resolved {A} a.
Arguments Rejected {A} message.

Definition settle {A : Type} (p : Promise A) (result : Promise A) : Promise A :=
  match p with
  | Pending => result
  | _ => p
  end.

End JS.

(** ** The version comparator *)

Module Version.
Import JS.

(** [parts[i] || 0]: a missing element, [NaN] and [0] all become [0]. *)
Definition or_zero (x : option jsnum) : jsnum :=
  match x with
  | Some v => if truthy_num v then v else zero
  | None => zero
  end.

(** The [for] loop of [isNewerVersion], at index [i] with [steps]
    iterations left before [i] reaches the longer length. *)
Fixpoint isNewerVersion_loop (latestParts currentParts : list jsnum)
    (i : nat) (steps : nat) : bool :=
  match steps with
  | O => false
  | S steps' =>
      let l := or_zero (latestParts !! i) in
      let c := or_zero (currentParts !! i) in
      if num_gt l c then true
      else if num_lt l c then false
      else isNewerVersion_loop latestParts currentParts (S i) steps'
  end.

Definition isNewerVersion (latest current : string) : bool :=
  let latestParts := map Number (split "." latest) in
  let currentParts := map Number (split "." current) in
  isNewerVersion_loop latestParts currentParts 0
    (Nat.max (length latestParts) (length currentParts)).

End Version.


(** ** The downloader

    [downloadFile(url, destPath, onProgress)] as a reactive system: the
    promise executor opens the write stream and issues the first request;
    afterwards the function only runs inside the listeners it registered,
    one event at a time. *)

Module Download.
Import JS.

Record Progress : Type := {
  percent : jsnum;
  bytesPerSecond : jsnum;
  transferred : Z;
  total : jsnum;
}.

(** What Node delivers to the request, the response and the write stream.
    [Response] is the callback of [https.get]; [Finished] is the end of the
    response body, which the pipe turns into the write stream's 'finish'. *)
Inductive Event : Type :=
| Response (statusCode : Z) (location : option string) (contentLength : option string)
| Data (chunk : list Byte.byte) (now : Z)
| Finished
| FileError (message : string)
| RequestError (message : string)
| ResponseError (message : string).

(** [downloadedBytes] is kept as an integer: byte counts stay far below
    2^53, the range in which adding numbers is exact. *)
Record State : Type := {
  destPath : string;
  fileOpen : bool;
  onDisk : option (list Byte.byte);
  fileListeners : bool;
  responseListeners : bool;
  downloadedBytes : Z;
  totalBytes : jsnum;
  startTime : Z;
  requested : list string;
  reported : list Progress;
  promise : Promise unit;
  logged : list string;
  thrown : list string;        (* exceptions no handler caught *)
}.

(** [file.close(); fs.unlink(destPath, () => { }); reject(err)] *)
Definition fail (message : string) (st : State) : State :=
  {| destPath := destPath st;
     fileOpen := false;
     onDisk := None;
     fileListeners := fileListeners st;
     responseListeners := responseListeners st;
     downloadedBytes := downloadedBytes st;
     totalBytes := totalBytes st;
     startTime := startTime st;
     requested := requested st;
     reported := reported st;
     promise := settle (promise st) (Rejected message);
     logged := logged st;
     thrown := thrown st |}.

(** A 200 response: the length is read, the 'data' listener and the pipe
    are attached to the response, 'finish' and 'error' to the file. *)
Definition accept (contentLength : option string) (st : State) : State :=
  let header := match contentLength with
                | Some h => if String.eqb h "" then "0" else h
                | None => "0"
                end in
  {| destPath := destPath st;
     fileOpen := fileOpen st;
     onDisk := onDisk st;
     fileListeners := true;
     responseListeners := true;
     downloadedBytes := downloadedBytes st;
     totalBytes := parseInt10 header;
     startTime := startTime st;
     requested := requested st;
     reported := reported st;
     promise := promise st;
     logged := logged st;
     thrown := thrown st |}.

(** The 'data' listener, then the pipe writing the chunk to the file. *)
Definition receive (chunk : list Byte.byte) (now : Z) (st : State) : State :=
  let downloaded := downloadedBytes st + Z.of_nat (length chunk) in
  let elapsed := num_div (of_Z (now - startTime st)) (of_Z 1000) in
  let bytesPerSecond :=
    if num_gt elapsed zero then num_div (of_Z downloaded) elapsed else zero in
  let percent :=
    if num_gt (totalBytes st) zero
    then num_mul (num_div (of_Z downloaded) (totalBytes st)) (of_Z 100)
    else zero in
  {| destPath := destPath st;
     fileOpen := fileOpen st;
     onDisk := if fileOpen st
               then match onDisk st with
                    | Some written => Some (written ++ chunk)%list
                    | None => None
                    end
               else onDisk st;
     fileListeners := fileListeners st;
     responseListeners := responseListeners st;
     downloadedBytes := downloaded;
     totalBytes := totalBytes st;
     startTime := startTime st;
     requested := requested st;
     reported := (reported st ++ [ {| percent := percent;
                                      bytesPerSecond := bytesPerSecond;
                                      transferred := downloaded;
                                      total := totalBytes st |} ])%list;
     promise := promise st;
     logged := logged st;
     thrown := thrown st |}.

(** The 'finish' listener: [file.close(); resolve()]. *)
Definition finish (st : State) : State :=
  {| destPath := destPath st;
     fileOpen := false;
     onDisk := onDisk st;
     fileListeners := fileListeners st;
     responseListeners := responseListeners st;
     downloadedBytes := downloadedBytes st;
     totalBytes := totalBytes st;
     startTime := startTime st;
     requested := requested st;
     reported := reported st;
     promise := settle (promise st) (Resolved tt);
     logged := logged st;
     thrown := thrown st |}.

Section Requests.

(** What [https.get] does with the address it is given: it sends the
    request, or it throws (an address that is no absolute URL, a protocol
    other than https). *)
Variable https_get : string -> Outcome unit.

(** [log.info(...); makeRequest(redirectUrl)] from inside the response
    callback. An exception thrown there is caught by no one: no request
    goes out and the promise is left as it is. *)
Definition makeRequest (requestUrl : string) (st : State) : State :=
  match https_get requestUrl with
  | Returns _ =>
      {| destPath := destPath st;
         fileOpen := fileOpen st;
         onDisk := onDisk st;
         fileListeners := fileListeners st;
         responseListeners := responseListeners st;
         downloadedBytes := downloadedBytes st;
         totalBytes := totalBytes st;
         startTime := startTime st;
         requested := (requested st ++ [requestUrl])%list;
         reported := reported st;
         promise := promise st;
         logged := (logged st ++ ["Redirecting to: " +:+ requestUrl])%list;
         thrown := thrown st |}
  | Throws message =>
      {| destPath := destPath st;
         fileOpen := fileOpen st;
         onDisk := onDisk st;
         fileListeners := fileListeners st;
         responseListeners := responseListeners st;
         downloadedBytes := downloadedBytes st;
         totalBytes := totalBytes st;
         startTime := startTime st;
         requested := requested st;
         reported := reported st;
         promise := promise st;
         logged := (logged st ++ ["Redirecting to: " +:+ requestUrl])%list;
         thrown := (thrown st ++ [message])%list |}
  end.

Definition step (st : State) (ev : Event) : State :=
  match ev with
  | Response statusCode location contentLength =>
      let redirectUrl :=
        if (statusCode =? 301) || (statusCode =? 302) then
          match location with
          | Some l => if String.eqb l "" then None else Some l
          | None => None
          end
        else None in
      match redirectUrl with
      | Some l => makeRequest l st
      | None =>
          if negb (statusCode =? 200)
          then fail ("Download failed: HTTP " +:+ pretty statusCode) st
          else accept contentLength st
      end
  | Data chunk now =>
      if responseListeners st then receive chunk now st else st
  | Finished =>
      if responseListeners st && fileListeners st && fileOpen st
      then finish st else st
  | FileError message =>
      (* the listener exists only once a 200 response has been accepted *)
      if fileListeners st then fail message st else st
  | RequestError message => fail message st
  | ResponseError _ =>
      (* no 'error' listener is registered on the response, and the pipe
         does not pass the error on to the file *)
      st
  end.

(** The promise executor: [fs.createWriteStream(destPath)] creates the
    (empty) file, the counters start at zero, the first request goes out
    ([url] is an address [https.get] takes: the caller builds it from the
    https address of the project's releases). *)
Definition start (url destPath : string) (now : Z) : State :=
  {| destPath := destPath;
     fileOpen := true;
     onDisk := Some [];
     fileListeners := false;
     responseListeners := false;
     downloadedBytes := 0;
     totalBytes := zero;
     startTime := now;
     requested := [url];
     reported := [];
     promise := Pending;
     logged := [];
     thrown := [] |}.

Definition run (st : State) (events : list Event) : State :=
  fold_left step events st.

Definition downloadFile (url destPath : string) (now : Z) (events : list Event) : State :=
  run (start url destPath now) events.

End Requests.

End Download.

(** ** The fallback release source

    [fetchLatestReleaseFromGitHub()]: a request through Electron's [net]
    module whose listeners settle the returned promise, and a 15 s timer
    set by the promise executor. [JSON.parse] is the language's own and is
    taken as given. *)

Module GitHub.
Import JS.

Inductive Event : Type :=
| Response (statusCode : Z)
| Data (chunk : string)
| Ended
| ResponseError (message : string)
| RequestError (message : string)
| TimerFired.

Record State : Type := {
  data : string;
  statusCode : Z;
  responded : bool;            (* the response listeners are registered *)
  timer : option Z;            (* the pending [setTimeout], its delay in ms *)
  aborted : bool;              (* [request.abort()] was called *)
  promise : Promise jsval;
  logged : list (list jsval);
}.

(** [s.replace(/^v/, '')] *)
Definition strip_v (s : string) : string :=
  match s with
  | String "v" rest => rest
  | _ => s
  end.

(** [release.name] for whatever [JSON.parse] returned: reading a property
    of [null] throws, of any other non-object gives [undefined]. *)
Definition property (name : string) (release : jsval) : Outcome jsval :=
  match release with
  | VNull | VUndefined =>
      Throws ("Cannot read properties of null (reading '" +:+ name +:+ "')")
  | VObj fields => Returns (field name fields)
  | _ => Returns VUndefined
  end.

(** [tag?.replace(/^v/, '')] *)
Definition replace_v (tag : jsval) : Outcome jsval :=
  match tag with
  | VUndefined | VNull => Returns VUndefined
  | VStr s => Returns (VStr (strip_v s))
  | _ => Throws "release.tag_name?.replace is not a function"
  end.

(** The object passed to [resolve], its fields evaluated in order. *)
Definition release_info (release : jsval) : Outcome jsval :=
  match property "tag_name" release with
  | Throws e => Throws e
  | Returns tag =>
      match replace_v tag with
      | Throws e => Throws e
      | Returns stripped =>
          match property "name" release, property "published_at" release,
                property "body" release with
          | Returns name, Returns published_at, Returns body =>
              Returns (VObj [ ("version", or_else stripped name);
                              ("releaseDate", published_at);
                              ("releaseNotes", or_else body (VStr ""));
                              ("releaseName", name) ])
          | Throws e, _, _ | _, Throws e, _ | _, _, Throws e => Throws e
          end
      end
  end.

Section Fetch.

Variable JSON_parse : string -> Outcome jsval.

(** The 'end' listener of the response. *)
Definition on_end (st : State) : State :=
  if statusCode st =? 200 then
    let result :=
      match JSON_parse (data st) with
      | Throws e => Rejected e
      | Returns release =>
          match release_info release with
          | Returns info => Resolved info
          | Throws e => Rejected e
          end
      end in
    {| data := data st; statusCode := statusCode st; responded := responded st;
       timer := timer st; aborted := aborted st;
       promise := settle (promise st) result;
       logged := logged st |}
  else if statusCode st =? 404 then
    {| data := data st; statusCode := statusCode st; responded := responded st;
       timer := timer st; aborted := aborted st;
       promise := settle (promise st) (Rejected "No releases found");
       logged := logged st |}
  else
    {| data := data st; statusCode := statusCode st; responded := responded st;
       timer := timer st; aborted := aborted st;
       promise := settle (promise st)
                    (Rejected ("GitHub API error: " +:+ pretty (statusCode st)));
       logged := (logged st ++
                  [[VStr "GitHub API response:"; VNum (of_Z (statusCode st));
                    VStr (substring 0 200 (data st))]])%list |}.

Definition step (st : State) (ev : Event) : State :=
  match ev with
  | Response code =>
      {| data := data st; statusCode := code; responded := true;
         timer := timer st; aborted := aborted st; promise := promise st;
         logged := logged st |}
  | Data chunk =>
      if responded st then
        {| data := data st +:+ chunk; statusCode := statusCode st;
           responded := responded st; timer := timer st; aborted := aborted st;
           promise := promise st; logged := logged st |}
      else st
  | Ended => if responded st then on_end st else st
  | ResponseError message =>
      if responded st then
        {| data := data st; statusCode := statusCode st; responded := responded st;
           timer := timer st; aborted := aborted st;
           promise := settle (promise st) (Rejected message);
           logged := logged st |}
      else st
  | RequestError message =>
      {| data := data st; statusCode := statusCode st; responded := responded st;
         timer := timer st; aborted := aborted st;
         promise := settle (promise st) (Rejected message);
         logged := (logged st ++ [[VStr "Request error:"; VStr message]])%list |}
  | TimerFired =>
      match timer st with
      | Some _ =>
          {| data := data st; statusCode := statusCode st; responded := responded st;
             timer := None; aborted := true;
             promise := settle (promise st) (Rejected "Request timeout");
             logged := logged st |}
      | None => st
      end
  end.

(** The promise executor: the request is built and sent, the timer set. *)
Definition start : State :=
  {| data := ""; statusCode := 0; responded := false;
     timer := Some 15000; aborted := false; promise := Pending; logged := [] |}.

Definition run (st : State) (events : list Event) : State :=
  fold_left step events st.

Definition fetchLatestReleaseFromGitHub (events : list Event) : State :=
  run start events.

End Fetch.

End GitHub.

(** ** The updater: state, scheduler, silent check and IPC handlers *)

Module Updater.
Import JS.

(** [UpdateInfo] as the renderer's declarations have it. *)
Record UpdateInfo : Type := {
  version : string;
  releaseDate : jsval;
  releaseNotes : jsval;
  releaseName : jsval;
}.

(** What [autoUpdater.checkForUpdates()] resolves with ([null] is [None]). *)
Record UpdateCheckResult : Type := {
  updateInfo : option UpdateInfo;
}.

Record Settings : Type := {
  enabled : jsval;
  interval : jsval;
}.

Inductive Level : Type := Info | Error.

(** The function passed to [setTimeout] or [setInterval]. *)
Inductive Callback : Type :=
| BackgroundCheck
| InitialCheck
| DevModeNotice (currentVersion : string)
| QuitForManualUpdate
| CallQuitAndInstall.

Record Timer : Type := {
  timerId : nat;
  repeats : bool;
  delay : jsnum;
  callback : Callback;
}.

(** Calls that leave the module, in the order they are made. A log entry
    keeps the arguments of the call, a template literal being given by its
    pieces (how a number is printed is not modelled). *)
Inductive Effect : Type :=
| Log (level : Level) (args : list jsval)
| Send (channel : string) (payload : jsval)
| CheckForUpdates
| DownloadUpdate
| QuitAndInstall (isSilent isForceRunAfter : bool)
| OpenExternal (url : string)
| OpenPath (path : string)
| DownloadFile (url destPath : string)
| ShowMessageBox (message : string)
| Quit.

Record Window : Type := { isDestroyed : bool }.

(** The application the module runs in. *)
Record App : Type := {
  isPackaged : bool;
  getVersion : string;
  platform : string;
  downloads : string;
  path_join : string -> string -> string;
}.

Definition isDev (app : App) : bool := negb (isPackaged app).

(** The module's variables, the key-value store, the timers pending in
    the event loop and the calls made so far. *)
Record State : Type := {
  store : gmap string jsval;
  latestUpdateInfo : option UpdateInfo;
  downloadedDmgPath : option string;
  autoCheckTimer : option nat;
  mainWindow : option Window;
  initialCheckTimeout : option nat;
  isFirstStart : bool;
  timers : list Timer;
  nextTimer : nat;
  effects : list Effect;
}.

Definition with_store (f : gmap string jsval -> gmap string jsval) (st : State) : State :=
  {| store := f (store st); latestUpdateInfo := latestUpdateInfo st;
     downloadedDmgPath := downloadedDmgPath st; autoCheckTimer := autoCheckTimer st;
     mainWindow := mainWindow st; initialCheckTimeout := initialCheckTimeout st;
     isFirstStart := isFirstStart st; timers := timers st;
     nextTimer := nextTimer st; effects := effects st |}.

Definition set_latestUpdateInfo (v : option UpdateInfo) (st : State) : State :=
  {| store := store st; latestUpdateInfo := v;
     downloadedDmgPath := downloadedDmgPath st; autoCheckTimer := autoCheckTimer st;
     mainWindow := mainWindow st; initialCheckTimeout := initialCheckTimeout st;
     isFirstStart := isFirstStart st; timers := timers st;
     nextTimer := nextTimer st; effects := effects st |}.

Definition set_downloadedDmgPath (v : option string) (st : State) : State :=
  {| store := store st; latestUpdateInfo := latestUpdateInfo st;
     downloadedDmgPath := v; autoCheckTimer := autoCheckTimer st;
     mainWindow := mainWindow st; initialCheckTimeout := initialCheckTimeout st;
     isFirstStart := isFirstStart st; timers := timers st;
     nextTimer := nextTimer st; effects := effects st |}.

Definition set_autoCheckTimer (v : option nat) (st : State) : State :=
  {| store := store st; latestUpdateInfo := latestUpdateInfo st;
     downloadedDmgPath := downloadedDmgPath st; autoCheckTimer := v;
     mainWindow := mainWindow st; initialCheckTimeout := initialCheckTimeout st;
     isFirstStart := isFirstStart st; timers := timers st;
     nextTimer := nextTimer st; effects := effects st |}.

Definition set_initialCheckTimeout (v : option nat) (st : State) : State :=
  {| store := store st; latestUpdateInfo := latestUpdateInfo st;
     downloadedDmgPath := downloadedDmgPath st; autoCheckTimer := autoCheckTimer st;
     mainWindow := mainWindow st; initialCheckTimeout := v;
     isFirstStart := isFirstStart st; timers := timers st;
     nextTimer := nextTimer st; effects := effects st |}.

Definition set_isFirstStart (v : bool) (st : State) : State :=
  {| store := store st; latestUpdateInfo := latestUpdateInfo st;
     downloadedDmgPath := downloadedDmgPath st; autoCheckTimer := autoCheckTimer st;
     mainWindow := mainWindow st; initialCheckTimeout := initialCheckTimeout st;
     isFirstStart := v; timers := timers st;
     nextTimer := nextTimer st; effects := effects st |}.

Definition with_timers (f : list Timer -> list Timer) (st : State) : State :=
  {| store := store st; latestUpdateInfo := latestUpdateInfo st;
     downloadedDmgPath := downloadedDmgPath st; autoCheckTimer := autoCheckTimer st;
     mainWindow := mainWindow st; initialCheckTimeout := initialCheckTimeout st;
     isFirstStart := isFirstStart st; timers := f (timers st);
     nextTimer := nextTimer st; effects := effects st |}.

Definition emit (e : Effect) (st : State) : State :=
  {| store := store st; latestUpdateInfo := latestUpdateInfo st;
     downloadedDmgPath := downloadedDmgPath st; autoCheckTimer := autoCheckTimer st;
     mainWindow := mainWindow st; initialCheckTimeout := initialCheckTimeout st;
     isFirstStart := isFirstStart st; timers := timers st;
     nextTimer := nextTimer st; effects := (effects st ++ [e])%list |}.

(** The longest delay a Node timer takes, in milliseconds: 2^31 - 1. *)
Definition TIMEOUT_MAX : Z := 2147483647.

(** The delay a Node timer runs with, given the delay it was asked for:
    [if (!(after >= 1 && after <= TIMEOUT_MAX)) after = 1]. *)
Definition timer_delay (after : jsnum) : jsnum :=
  if num_ge after (integer 1) && num_le after (integer TIMEOUT_MAX)
  then after else integer 1.

(** [setTimeout(callback, delay)] and [setInterval(callback, delay)]: the
    timer joins the event loop under a fresh handle, which is returned. *)
Definition setTimer (repeats : bool) (callback : Callback) (delay : jsnum)
    (st : State) : nat * State :=
  let id := nextTimer st in
  (id,
   {| store := store st; latestUpdateInfo := latestUpdateInfo st;
      downloadedDmgPath := downloadedDmgPath st; autoCheckTimer := autoCheckTimer st;
      mainWindow := mainWindow st; initialCheckTimeout := initialCheckTimeout st;
      isFirstStart := isFirstStart st;
      timers := (timers st ++ [ {| timerId := id; repeats := repeats;
                                   delay := timer_delay delay;
                                   callback := callback |} ])%list;
      nextTimer := S id; effects := effects st |}).

Definition setTimeout := setTimer false.
Definition setInterval := setTimer true.

(** [clearTimeout(handle)] and [clearInterval(handle)] *)
Definition clearTimer (id : nat) (st : State) : State :=
  with_timers (List.filter (fun t => negb (Nat.eqb (timerId t) id))) st.

(** The state [initUpdater] starts from: the module's initial values, the
    window it is given and the store as it was persisted. *)
Definition initial (persisted : gmap string jsval) (win : Window) : State :=
  {| store := persisted; latestUpdateInfo := None; downloadedDmgPath := None;
     autoCheckTimer := None; mainWindow := Some win; initialCheckTimeout := None;
     isFirstStart := true; timers := []; nextTimer := 0; effects := [] |}.

(** *** [sendToRenderer] *)

Definition sendToRenderer (channel : string) (payload : jsval) (st : State) : State :=
  match mainWindow st with
  | Some win => if negb (isDestroyed win) then emit (Send channel payload) st else st
  | None => st
  end.

(** *** Settings *)

(** [store.get(key, defaultValue)] *)
Definition store_get (key : string) (defaultValue : jsval) (st : State) : jsval :=
  match store st !! key with
  | Some v => v
  | None => defaultValue
  end.

(** [store.set(key, value)] *)
Definition store_set (key : string) (value : jsval) (st : State) : State :=
  with_store (insert key value) st.

Definition getAutoCheckSettings (st : State) : Settings :=
  {| enabled := store_get "autoCheckUpdate" (VBool true) st;
     interval := store_get "autoCheckInterval" (VNum (of_Z 24)) st |}.

(** *** The silent check

    [check] is what [autoUpdater.checkForUpdates()] answers. *)
Definition silentCheckForUpdates (app : App)
    (check : Outcome (option UpdateCheckResult)) (st : State) : State :=
  if isDev app then st
  else
    let st := emit CheckForUpdates st in
    match check with
    | Throws error =>
        emit (Log Error [VStr "Silent update check error:"; VStr error]) st
    | Returns None => st
    | Returns (Some result) =>
        match updateInfo result with
        | None => st
        | Some info =>
            let currentVersion := getVersion app in
            if negb (String.eqb (version info) currentVersion) then
              let st := emit (Log Info [VStr ("Silent check found update: "
                                              +:+ version info)]) st in
              sendToRenderer "update-available-silent"
                (VObj [ ("version", VStr (version info));
                        ("releaseDate", releaseDate info) ]) st
            else st
        end
    end.

(** *** The scheduler *)

Definition startAutoCheck (app : App) (st : State) : State :=
  let st := match autoCheckTimer st with
            | Some handle => set_autoCheckTimer None (clearTimer handle st)
            | None => st
            end in
  let st := match initialCheckTimeout st with
            | Some handle => set_initialCheckTimeout None (clearTimer handle st)
            | None => st
            end in
  let settings := getAutoCheckSettings st in
  if negb (truthy (enabled settings)) || isDev app then
    emit (Log Info [VStr "Auto update check disabled or in dev mode"]) st
  else
    let intervalMs :=
      num_mul (num_mul (num_mul (to_number (interval settings)) (of_Z 60))
                       (of_Z 60)) (of_Z 1000) in
    let st := emit (Log Info [VStr "Auto update check enabled, interval: ";
                              interval settings; VStr " hours (";
                              VNum intervalMs; VStr "ms)"]) st in
    let '(handle, st) := setInterval BackgroundCheck intervalMs st in
    let st := set_autoCheckTimer (Some handle) st in
    if isFirstStart st then
      let st := set_isFirstStart false st in
      let '(handle, st) := setTimeout InitialCheck (of_Z 10000) st in
      set_initialCheckTimeout (Some handle) st
    else st.

(** A pending timer fires: a one-shot timer leaves the event loop, then
    the callback runs. [check] and [quitAndInstall] are the answers of
    the collaborators the callback calls. *)
Definition run_callback (app : App) (cb : Callback)
    (check : Outcome (option UpdateCheckResult)) (quitAndInstall : Outcome unit)
    (st : State) : State :=
  match cb with
  | BackgroundCheck =>
      let st := emit (Log Info [VStr "Background auto check for updates..."]) st in
      silentCheckForUpdates app check st
  | InitialCheck =>
      let st := emit (Log Info [VStr "Initial auto check for updates..."]) st in
      let st := silentCheckForUpdates app check st in
      set_initialCheckTimeout None st
  | DevModeNotice currentVersion =>
      sendToRenderer "update-not-available"
        (VObj [ ("version", VStr currentVersion); ("devMode", VBool true) ]) st
  | QuitForManualUpdate =>
      let st := emit (Log Info [VStr "Quitting app for manual update..."]) st in
      emit Quit st
  | CallQuitAndInstall =>
      let st := emit (Log Info [VStr "Calling quitAndInstall..."]) st in
      let st := emit (QuitAndInstall false true) st in
      match quitAndInstall with
      | Returns _ => st
      | Throws e =>
          let st := emit (Log Error [VStr "quitAndInstall error:"; VStr e]) st in
          emit Quit st
      end
  end.

Definition fire (app : App) (t : Timer)
    (check : Outcome (option UpdateCheckResult)) (quitAndInstall : Outcome unit)
    (st : State) : State :=
  let st := if repeats t then st else clearTimer (timerId t) st in
  run_callback app (callback t) check quitAndInstall st.


(** *** Listeners on the [autoUpdater] (setupAutoUpdaterEvents)

    [response] is the button the user picks in the restart dialog. *)
Inductive UpdaterEvent : Type :=
| UpdaterError (message : string) (stack : jsval)
| CheckingForUpdate
| UpdateAvailable (info : UpdateInfo)
| UpdateNotAvailable (info : UpdateInfo)
| DownloadProgress (progress : Download.Progress)
| UpdateDownloaded (info : UpdateInfo) (response : Z).

Definition progress_payload (p : Download.Progress) : jsval :=
  VObj [ ("percent", VNum (Download.percent p));
         ("bytesPerSecond", VNum (Download.bytesPerSecond p));
         ("transferred", VNum (of_Z (Download.transferred p)));
         ("total", VNum (Download.total p)) ].

Definition on_updater_event (ev : UpdaterEvent) (st : State) : State :=
  match ev with
  | UpdaterError message stack =>
      let st := emit (Log Error [VStr "Update error:"; VStr message]) st in
      sendToRenderer "update-error"
        (VObj [ ("message", VStr message); ("stack", stack) ]) st
  | CheckingForUpdate =>
      let st := emit (Log Info [VStr "Checking for updates..."]) st in
      sendToRenderer "checking-for-update" VNull st
  | UpdateAvailable info =>
      let st := emit (Log Info [VStr "Update available:"; VStr (version info)]) st in
      let st := set_latestUpdateInfo (Some info) st in
      sendToRenderer "update-available"
        (VObj [ ("version", VStr (version info));
                ("releaseDate", releaseDate info);
                ("releaseNotes", releaseNotes info);
                ("releaseName", releaseName info) ]) st
  | UpdateNotAvailable info =>
      let st := emit (Log Info [VStr "No update available, current version is latest:";
                                VStr (version info)]) st in
      sendToRenderer "update-not-available"
        (VObj [ ("version", VStr (version info)) ]) st
  | DownloadProgress progress =>
      let st := emit (Log Info [VStr "Download progress: ";
                                VNum (Download.percent progress); VStr "%"]) st in
      sendToRenderer "download-progress" (progress_payload progress) st
  | UpdateDownloaded info response =>
      let st := emit (Log Info [VStr "Update downloaded:"; VStr (version info)]) st in
      let st := sendToRenderer "update-downloaded"
                  (VObj [ ("version", VStr (version info));
                          ("releaseNotes", releaseNotes info);
                          ("releaseName", releaseName info) ]) st in
      match mainWindow st with
      | Some _ =>
          let st := emit (ShowMessageBox ("新版本 " +:+ version info +:+ " 已下载完成")) st in
          if response =? 0 then emit (QuitAndInstall false true) st else st
      | None => st
      end
  end.

(** *** IPC handlers (setupIpcHandlers)

    What the collaborators answer during one invocation. *)
Record World : Type := {
  check_answer : Outcome (option UpdateCheckResult); (* autoUpdater.checkForUpdates() *)
  download_answer : Outcome unit;                    (* autoUpdater.downloadUpdate() *)
  open_answer : Outcome unit;                        (* shell.openExternal(url) *)
  openPath_answer : string;                          (* shell.openPath(path): the error text *)
  now : Z;                                           (* Date.now() when a download starts *)
  get_answer : string -> Outcome unit;               (* https.get(url) during that download *)
  network : list Download.Event;                     (* what that download receives *)
}.

Definition failure (message : string) : jsval :=
  VObj [ ("success", VBool false); ("error", VStr message) ].

Definition releases_url : string :=
  "https://github.com/jheroy/Redmine-desktop/releases".

Definition updateInfo_value (info : UpdateInfo) : jsval :=
  VObj [ ("version", VStr (version info));
         ("releaseDate", releaseDate info);
         ("releaseNotes", releaseNotes info);
         ("releaseName", releaseName info) ].

(** ['check-for-updates'] *)
Definition handle_check_for_updates (app : App) (w : World) (st : State)
    : jsval * State :=
  let st := emit (Log Info [VStr "Manual update check triggered, isDev:";
                            VBool (isDev app)]) st in
  let st := sendToRenderer "checking-for-update" VNull st in
  if isDev app then
    let st := emit (Log Info [VStr "Dev mode: skipping API call, showing dev mode notice"]) st in
    let currentVersion := getVersion app in
    let '(_, st) := setTimeout (DevModeNotice currentVersion) (of_Z 500) st in
    (VObj [ ("success", VBool true);
            ("updateInfo", VObj [ ("version", VStr currentVersion) ]);
            ("devMode", VBool true) ], st)
  else
    let st := emit CheckForUpdates st in
    match check_answer w with
    | Returns result =>
        (VObj [ ("success", VBool true);
                ("updateInfo",
                 match result with
                 | Some r => match updateInfo r with
                             | Some info => updateInfo_value info
                             | None => VUndefined
                             end
                 | None => VUndefined
                 end) ], st)
    | Throws message =>
        let st := emit (Log Error [VStr "Failed to check for updates:"; VStr message]) st in
        let st := sendToRenderer "update-error" (VObj [ ("message", VStr message) ]) st in
        (failure message, st)
    end.

(** The outer [catch] of ['download-update']. *)
Definition download_failed (message : string) (st : State) : jsval * State :=
  let st := emit (Log Error [VStr "Failed to download update:"; VStr message]) st in
  let st := sendToRenderer "update-error" (VObj [ ("message", VStr message) ]) st in
  (failure message, st).

(** ['download-update']; [None] while the handler is still awaiting a
    download that has not settled. *)
Definition handle_download_update (app : App) (w : World) (st : State)
    : option (jsval * State) :=
  if isDev app then
    let st := emit (Log Info [VStr "Dev mode: opening releases page instead of downloading"]) st in
    let st := emit (OpenExternal releases_url) st in
    match open_answer w with
    | Throws message => Some (download_failed message st)
    | Returns _ =>
        let st := sendToRenderer "update-error"
                    (VObj [ ("message",
                             VStr "开发模式下无法自动下载，已打开 GitHub Releases 页面") ]) st in
        Some (failure "Dev mode - opened releases page", st)
    end
  else
    match (if String.eqb (platform app) "darwin" then latestUpdateInfo st else None) with
    | Some info =>
        let version := version info in
        let dmgFileName := "Redmine-" +:+ version +:+ "-arm64.dmg" in
        let downloadUrl :=
          "https://github.com/jheroy/Redmine-desktop/releases/download/v"
          +:+ version +:+ "/" +:+ dmgFileName in
        let downloadPath := path_join app (downloads app) dmgFileName in
        let st := emit (Log Info [VStr ("macOS: Downloading DMG from " +:+ downloadUrl)]) st in
        let st := sendToRenderer "download-progress"
                    (VObj [ ("percent", VNum zero); ("bytesPerSecond", VNum zero);
                            ("transferred", VNum zero); ("total", VNum zero) ]) st in
        let st := emit (DownloadFile downloadUrl downloadPath) st in
        let download :=
          Download.downloadFile (get_answer w) downloadUrl downloadPath (now w) (network w) in
        let st := fold_left
                    (fun st progress =>
                       sendToRenderer "download-progress" (progress_payload progress) st)
                    (Download.reported download) st in
        match Download.promise download with
        | Pending => None
        | Resolved _ =>
            let st := emit (Log Info [VStr ("DMG downloaded to " +:+ downloadPath)]) st in
            let st := set_downloadedDmgPath (Some downloadPath) st in
            let st := sendToRenderer "update-downloaded"
                        (VObj [ ("version", VStr version);
                                ("dmgPath", VStr downloadPath) ]) st in
            Some (VObj [ ("success", VBool true); ("dmgPath", VStr downloadPath) ], st)
        | Rejected message =>
            let st := emit (Log Error [VStr "Failed to download DMG:"; VStr message]) st in
            let st := emit (OpenExternal (releases_url +:+ "/latest")) st in
            match open_answer w with
            | Throws e => Some (download_failed e st)
            | Returns _ =>
                let st := sendToRenderer "update-error"
                            (VObj [ ("message",
                                     VStr ("下载失败，已打开下载页面: " +:+ message)) ]) st in
                Some (failure message, st)
            end
        end
    | None =>
        let st := emit (Log Info [VStr "Starting update download..."]) st in
        let st := emit DownloadUpdate st in
        match download_answer w with
        | Returns _ => Some (VObj [ ("success", VBool true) ], st)
        | Throws message => Some (download_failed message st)
        end
    end.

(** ['install-update']; the path of the disk image counts when it is set
    and not empty. *)
Definition handle_install_update (app : App) (w : World) (st : State)
    : jsval * State :=
  if isDev app then
    let st := sendToRenderer "update-error"
                (VObj [ ("message", VStr "开发模式下无法安装更新") ]) st in
    (failure "Cannot install in dev mode", st)
  else
    let dmgPath :=
      if String.eqb (platform app) "darwin" then
        match downloadedDmgPath st with
        | Some path => if String.eqb path "" then None else Some path
        | None => None
        end
      else None in
    match dmgPath with
    | Some dmg =>
        let st := emit (Log Info [VStr ("Opening DMG: " +:+ dmg)]) st in
        let st := emit (OpenPath dmg) st in
        let st := if String.eqb (openPath_answer w) "" then st
                  else emit (Log Error [VStr "Failed to open DMG:";
                                        VStr (openPath_answer w)]) st in
        let '(_, st) := setTimeout QuitForManualUpdate (of_Z 1500) st in
        (VObj [ ("success", VBool true) ], st)
    | None =>
        let st := emit (Log Info [VStr "Installing update and restarting..."]) st in
        let '(_, st) := setTimeout CallQuitAndInstall (of_Z 500) st in
        (VObj [ ("success", VBool true) ], st)
    end.

(** ['get-app-version'] *)
Definition handle_get_app_version (app : App) : string := getVersion app.

(** ['open-release-page'] *)
Definition handle_open_release_page (w : World) (st : State) : jsval * State :=
  let st := emit (OpenExternal releases_url) st in
  match open_answer w with
  | Returns _ => (VObj [ ("success", VBool true) ], st)
  | Throws message => (failure message, st)
  end.

(** ['get-auto-update-settings'] *)
Definition handle_get_auto_update_settings (st : State) : Settings :=
  getAutoCheckSettings st.

(** ['set-auto-update-settings']: a field the caller left out reads as
    [undefined]. *)
Definition handle_set_auto_update_settings (app : App) (settings : Settings)
    (st : State) : Settings * State :=
  let st := match enabled settings with
            | VUndefined => st
            | value => store_set "autoCheckUpdate" value st
            end in
  let st := match interval settings with
            | VUndefined => st
            | value => store_set "autoCheckInterval" value st
            end in
  let st := startAutoCheck app st in
  (getAutoCheckSettings st, st).

(** [initUpdater(win)]: the listeners and handlers are installed and the
    scheduler is started for the first time. *)
Definition initUpdater (app : App) (persisted : gmap string jsval) (win : Window) : State :=
  startAutoCheck app (initial persisted win).

(** The exported [checkForUpdates()]; a failed check is logged. *)
Definition checkForUpdates (app : App) (w : World) (st : State) : State :=
  if isDev app then
    emit (Log Info [VStr "Skipping auto update check in dev mode"]) st
  else
    let st := emit CheckForUpdates st in
    match check_answer w with
    | Returns _ => st
    | Throws message =>
        emit (Log Error [VStr "Background update check failed:"; VStr message]) st
    end.

End Updater.

(** ** The comparison as the design document words it

    Both strings are split on the dot, each segment is read as a
    non-negative integer, a missing segment counts as 0, and the first
    difference from the left decides. *)

Module VersionSpec.
Import JS.

Definition decimal_digit (c : ascii) : option Z :=
  let n := Z.of_nat (nat_of_ascii c) in
  if (48 <=? n) && (n <=? 57) then Some (n - 48) else None.

Fixpoint number_of_digits (s : string) (acc : Z) : option Z :=
  match s with
  | EmptyString => Some acc
  | String c rest =>
      match decimal_digit c with
      | Some d => number_of_digits rest (10 * acc + d)
      | None => None
      end
  end.

(** A segment is a non-empty run of decimal digits. *)
Definition segment_number (segment : string) : option Z :=
  match segment with
  | EmptyString => None
  | _ => number_of_digits segment 0
  end.

Fixpoint all_segments (segments : list string) : option (list Z) :=
  match segments with
  | [] => Some []
  | s :: rest =>
      match segment_number s, all_segments rest with
      | Some n, Some ns => Some (n :: ns)
      | _, _ => None
      end
  end.

(** The numbers of a dotted version string; [None] for any other string. *)
Definition version_numbers (v : string) : option (list Z) :=
  all_segments (split "." v).

Fixpoint isNewer (candidate current : list Z) {struct candidate} : bool :=
  match candidate with
  | [] =>
      (fix against_missing (current : list Z) : bool :=
         match current with
         | [] => false
         | c :: current' =>
             if c <? 0 then true
             else if 0 <? c then false
             else against_missing current'
         end) current
  | a :: candidate' =>
      match current with
      | [] =>
          if 0 <? a then true
          else if a <? 0 then false
          else isNewer candidate' []
      | c :: current' =>
          if c <? a then true
          else if a <? c then false
          else isNewer candidate' current'
      end
  end.

(** A segment that reads as zero: a non-empty run of the digit 0. *)
Definition zero_segment (segment : string) : Prop :=
  segment_number segment = Some 0.

(** [v] followed by further segments, each after a dot. *)
Fixpoint with_segments (v : string) (segments : list string) : string :=
  match segments with
  | [] => v
  | s :: rest => with_segments (v +:+ String "." s) rest
  end.

End VersionSpec.

(** ** The comparison as an order on sequences of numbers *)

Module VersionOrder.
Import JS Version.

(** The number compared at index [i]. *)
Definition key (parts : list jsnum) (i : nat) : jsnum := or_zero (parts !! i).

(** The loop over two sequences of keys. *)
Fixpoint lex (f g : nat -> jsnum) (i steps : nat) : bool :=
  match steps with
  | O => false
  | S steps' =>
      if num_gt (f i) (g i) then true
      else if num_lt (f i) (g i) then false
      else lex f g (S i) steps'
  end.

Definition tie (a b : jsnum) : Prop := num_lt a b = false /\ num_lt b a = false.

(** [f] is ahead of [g] at the first index where they differ. *)
Definition ahead (f g : nat -> jsnum) : Prop :=
  exists k : nat, (forall j : nat, (j < k)%nat -> tie (f j) (g j)) /\ num_lt (g k) (f k) = true.

Definition keys (v : string) : nat -> jsnum := key (map Number (split "." v)).

End VersionOrder.

(** ** Notions used to state the scheduler's and the handlers' properties *)

Module Scheduler.
Import JS Updater.

Definition has_handle (handle : option nat) (t : Timer) : bool :=
  match handle with
  | Some id => Nat.eqb (timerId t) id
  | None => false
  end.

(** The timers left in the event loop once the recurring timer and the
    one-shot timer the module holds handles of are cancelled. *)
Definition after_cancel (st : State) : list Timer :=
  List.filter (fun t => negb (has_handle (initialCheckTimeout st) t))
    (List.filter (fun t => negb (has_handle (autoCheckTimer st) t)) (timers st)).

(** Auto-check is enabled in the store and the application is packaged. *)
Definition will_arm (app : App) (st : State) : bool :=
  truthy (enabled (getAutoCheckSettings st)) && isPackaged app.

(** The stored interval in milliseconds, as [startAutoCheck] computes it. *)
Definition interval_ms (st : State) : jsnum :=
  num_mul (num_mul (num_mul (to_number (interval (getAutoCheckSettings st)))
                            (of_Z 60)) (of_Z 60)) (of_Z 1000).

Definition recurring (id : nat) (st : State) : Timer :=
  {| timerId := id; repeats := true; delay := timer_delay (interval_ms st);
     callback := BackgroundCheck |}.

Definition one_shot (id : nat) : Timer :=
  {| timerId := id; repeats := false; delay := integer 10000;
     callback := InitialCheck |}.

(** The states a process goes through as the renderer changes the
    settings, one ['set-auto-update-settings'] call after another. *)
Fixpoint lifetime (app : App) (changes : list Settings) (st : State) : list State :=
  match changes with
  | [] => []
  | settings :: rest =>
      let st' := snd (handle_set_auto_update_settings app settings st) in
      st' :: lifetime app rest st'
  end.



(** Calls that reach a network collaborator. *)
Definition contacts_network (e : Effect) : bool :=
  match e with
  | CheckForUpdates | DownloadUpdate | DownloadFile _ _ => true
  | _ => false
  end.


(** The two conditional writes at the head of ['set-auto-update-settings']. *)
Definition write_settings (settings : Settings) (st : State) : State :=
  let st := match enabled settings with
            | VUndefined => st
            | value => store_set "autoCheckUpdate" value st
            end in
  match interval settings with
  | VUndefined => st
  | value => store_set "autoCheckInterval" value st
  end.

(** There is a window and it has not been destroyed. *)
Definition window_open (st : State) : bool :=
  match mainWindow st with
  | Some win => negb (isDestroyed win)
  | None => false
  end.

End Scheduler.


(** ** Notions used to state the downloader's and the fetch's properties *)

Module Transfer.
Import JS.

(** A redirect on the way: its status, where it points and its
    content-length header. *)
Definition Hop : Type := Z * string * option string.

Definition hop_status (h : Hop) : Z := fst (fst h).
Definition hop_location (h : Hop) : string := snd (fst h).

Definition hop_response (h : Hop) : Download.Event :=
  Download.Response (hop_status h) (Some (hop_location h)) (snd h).

(** Status 301 or 302 with a location to go to. *)
Definition redirects (h : Hop) : Prop :=
  (hop_status h = 301 \/ hop_status h = 302) /\ hop_location h <> "".

(** A chunk of the body and the time it arrives at. *)
Definition Chunk : Type := list Byte.byte * Z.

Definition chunk_data (c : Chunk) : Download.Event := Download.Data (fst c) (snd c).




Definition body (chunks : list Chunk) : list Byte.byte := concat (map fst chunks).


(** The chunks of a response text put together. *)
Definition joined (chunks : list string) : string :=
  fold_left (fun text chunk => text +:+ chunk) chunks "".

End Transfer.

(** ** Sample applications, releases and transfers *)

Module Sample.
Import JS Updater Transfer.

(** A packaged and an unpackaged build of version 1.2.0 on macOS, and a
    window that is open. *)
Definition packaged : App :=
  {| isPackaged := true; getVersion := "1.2.0"; platform := "darwin";
     downloads := "/Users/me/Downloads";
     path_join := fun dir name => dir +:+ "/" +:+ name |}.

Definition unpackaged : App :=
  {| isPackaged := false; getVersion := "1.2.0"; platform := "darwin";
     downloads := "/Users/me/Downloads";
     path_join := fun dir name => dir +:+ "/" +:+ name |}.

Definition open_window : Window := {| isDestroyed := false |}.

(** [https.get] on the addresses of the samples: it takes the ones that
    start with https:// and finds the others invalid. *)
Definition https_only (url : string) : Outcome unit :=
  if String.prefix "https://" url then Returns tt else Throws "Invalid URL".

(** No answer is needed from a collaborator that is not called. *)
Definition quiet : World :=
  {| check_answer := Returns None; download_answer := Returns tt;
     open_answer := Returns tt; openPath_answer := ""; now := 0;
     get_answer := https_only; network := [] |}.


(** A release older than the version of [packaged], as the update feed
    reports it. *)
Definition older_release : UpdateInfo :=
  {| version := "1.0.0"; releaseDate := VStr "2024-01-15T10:00:00.000Z";
     releaseNotes := VNull; releaseName := VNull |}.

(** Two chunks, of 3 and of 2 bytes, arriving after 1 s and after 2 s. *)
Definition two_chunks : list Chunk :=
  [ ([Byte.x52; Byte.x65; Byte.x64], 1000); ([Byte.x6d; Byte.x69], 2000) ].

(** A release newer than the version of [packaged]. *)
Definition newer_release : UpdateInfo :=
  {| version := "1.3.0"; releaseDate := VStr "2024-03-01T09:00:00.000Z";
     releaseNotes := VNull; releaseName := VNull |}.

(** The disk image arrives in the two chunks. *)
Definition good_network : World :=
  {| check_answer := Returns None; download_answer := Returns tt;
     open_answer := Returns tt; openPath_answer := ""; now := 0;
     get_answer := https_only;
     network := (Download.Response 200 None (Some "5") :: map chunk_data two_chunks ++
                 [Download.Finished])%list |}.

(** The host cannot be resolved, and no browser can be opened either. *)
Definition no_network : World :=
  {| check_answer := Throws "net::ERR_INTERNET_DISCONNECTED";
     download_answer := Throws "net::ERR_INTERNET_DISCONNECTED";
     open_answer := Throws "No application to open the URL"; openPath_answer := "";
     now := 0; get_answer := https_only;
     network := [Download.RequestError "getaddrinfo ENOTFOUND github.com"] |}.

(** A release whose tag is the single letter v. *)
Definition release_tagged_v : jsval :=
  VObj [ ("tag_name", VStr "v"); ("name", VStr "First release");
         ("published_at", VStr "2024-01-15T10:00:00Z"); ("body", VStr "") ].

End Sample.

(** ** The renderer's side of the bridge

    The [updater] object the preload script exposes: each method invokes
    one channel, each subscription listens on one. *)

Module Preload.

Inductive Method : Type :=
| checkForUpdates
| downloadUpdate
| installUpdate
| getAppVersion
| openReleasePage
| getAutoUpdateSettings
| setAutoUpdateSettings.

(** The channel given to [ipcRenderer.invoke]. *)
Definition channel (m : Method) : string :=
  match m with
  | checkForUpdates => "check-for-updates"
  | downloadUpdate => "download-update"
  | installUpdate => "install-update"
  | getAppVersion => "get-app-version"
  | openReleasePage => "open-release-page"
  | getAutoUpdateSettings => "get-auto-update-settings"
  | setAutoUpdateSettings => "set-auto-update-settings"
  end.

Inductive Subscription : Type :=
| onCheckingForUpdate
| onUpdateAvailable
| onUpdateNotAvailable
| onDownloadProgress
| onUpdateDownloaded
| onUpdateError
| onUpdateAvailableSilent.

(** The channel given to [ipcRenderer.on]. *)
Definition listens_on (s : Subscription) : string :=
  match s with
  | onCheckingForUpdate => "checking-for-update"
  | onUpdateAvailable => "update-available"
  | onUpdateNotAvailable => "update-not-available"
  | onDownloadProgress => "download-progress"
  | onUpdateDownloaded => "update-downloaded"
  | onUpdateError => "update-error"
  | onUpdateAvailableSilent => "update-available-silent"
  end.

End Preload.

(** ** The main process as a whole

    [ipcMain.handle] registers one handler per channel; an invocation is
    dispatched on the channel's name. Together with the timers, the
    updater's events and the window this gives the steps the module's
    state goes through. *)

Module Ipc.
Import JS Updater Scheduler.

(** What [ipcRenderer.invoke] settles with. *)
Inductive Reply : Type :=
| Answer (value : jsval)
| Rejection (message : string).

Definition settings_value (settings : Settings) : jsval :=
  VObj [ ("enabled", enabled settings); ("interval", interval settings) ].

(** The parameter [settings] of 'set-auto-update-settings' as the handler
    reads it: its two properties, which cannot be read of [undefined] or
    [null] and are [undefined] on any value that is not an object. *)
Definition settings_of (arg : jsval) : Outcome Settings :=
  match arg with
  | VUndefined =>
      Throws "TypeError: Cannot read properties of undefined (reading 'enabled')"
  | VNull => Throws "TypeError: Cannot read properties of null (reading 'enabled')"
  | VObj fields =>
      Returns {| enabled := field "enabled" fields; interval := field "interval" fields |}
  | _ => Returns {| enabled := VUndefined; interval := VUndefined |}
  end.

(** What the renderer is told when the handler threw, and when there is
    no handler. *)
Definition remote_error (channel message : string) : Reply :=
  Rejection ("Error invoking remote method '" +:+ channel +:+ "': " +:+ message).

Definition no_handler (channel : string) : Reply :=
  remote_error channel ("Error: No handler registered for '" +:+ channel +:+ "'").

(** [ipcRenderer.invoke(channel, arg)]; [None] while the handler has not
    returned (a download that never settles). *)
Definition invoke (app : App) (w : World) (channel : string) (arg : jsval)
    (st : State) : option (Reply * State) :=
  if String.eqb channel "check-for-updates" then
    Some (Answer (fst (handle_check_for_updates app w st)),
          snd (handle_check_for_updates app w st))
  else if String.eqb channel "download-update" then
    match handle_download_update app w st with
    | Some (answer, st') => Some (Answer answer, st')
    | None => None
    end
  else if String.eqb channel "install-update" then
    Some (Answer (fst (handle_install_update app w st)),
          snd (handle_install_update app w st))
  else if String.eqb channel "get-app-version" then
    Some (Answer (VStr (handle_get_app_version app)), st)
  else if String.eqb channel "open-release-page" then
    Some (Answer (fst (handle_open_release_page w st)),
          snd (handle_open_release_page w st))
  else if String.eqb channel "get-auto-update-settings" then
    Some (Answer (settings_value (handle_get_auto_update_settings st)), st)
  else if String.eqb channel "set-auto-update-settings" then
    match settings_of arg with
    | Throws message => Some (remote_error channel message, st)
    | Returns settings =>
        Some (Answer (settings_value
                        (fst (handle_set_auto_update_settings app settings st))),
              snd (handle_set_auto_update_settings app settings st))
    end
  else Some (no_handler channel, st).

(** An answer as the renderer's declarations have it: an object whose
    [success] is a boolean, with a text [error] exactly when it is false. *)
Definition declared_answer (v : jsval) : Prop :=
  match v with
  | VObj fields =>
      (field "success" fields = VBool true /\ field "error" fields = VUndefined) \/
      (field "success" fields = VBool false /\
       exists message : string, field "error" fields = VStr message)
  | _ => False
  end.

(** The timer pending under a handle. *)
Definition pending (id : nat) (st : State) : option Timer :=
  List.find (fun t => Nat.eqb (timerId t) id) (timers st).

(** The window is closed: [isDestroyed()] answers true from now on. *)
Definition destroy_window (st : State) : State :=
  {| store := store st; latestUpdateInfo := latestUpdateInfo st;
     downloadedDmgPath := downloadedDmgPath st; autoCheckTimer := autoCheckTimer st;
     mainWindow := match mainWindow st with
                   | Some _ => Some {| isDestroyed := true |}
                   | None => None
                   end;
     initialCheckTimeout := initialCheckTimeout st;
     isFirstStart := isFirstStart st; timers := timers st;
     nextTimer := nextTimer st; effects := effects st |}.

(** What can happen to the module once [initUpdater] has run. *)
Inductive Action : Type :=
| Invoke (channel : string) (arg : jsval) (w : World)
| TimerFires (id : nat) (check : Outcome (option UpdateCheckResult))
    (quitAndInstall : Outcome unit)
| UpdaterEmits (ev : UpdaterEvent)
| CheckForUpdatesCalled (w : World)
| WindowDestroyed.

(** One step; [None] when it cannot happen or has not finished (no timer
    under the handle, a handler still waiting). *)
Definition perform (app : App) (a : Action) (st : State) : option State :=
  match a with
  | Invoke channel arg w =>
      match invoke app w channel arg st with
      | Some (_, st') => Some st'
      | None => None
      end
  | TimerFires id check quitAndInstall =>
      match pending id st with
      | Some t => Some (fire app t check quitAndInstall st)
      | None => None
      end
  | UpdaterEmits ev => Some (on_updater_event ev st)
  | CheckForUpdatesCalled w => Some (checkForUpdates app w st)
  | WindowDestroyed => Some (destroy_window st)
  end.

Fixpoint perform_all (app : App) (actions : list Action) (st : State) : option State :=
  match actions with
  | [] => Some st
  | a :: rest =>
      match perform app a st with
      | Some st' => perform_all app rest st'
      | None => None
      end
  end.

(** The states a process can be in between two steps. *)
Definition reachable (app : App) (st : State) : Prop :=
  exists (persisted : gmap string jsval) (win : Window) (actions : list Action),
    perform_all app actions (initUpdater app persisted win) = Some st.

(** The handles the scheduler keeps and the timers in the event loop tell
    the same story: handles are distinct and were all given out already,
    the recurring check is the timer under [autoCheckTimer], the initial
    check is the timer under [initialCheckTimeout], only the recurring
    check repeats, and a handle that is kept is the handle of a pending
    timer. *)
Definition consistent (st : State) : Prop :=
  NoDup (map timerId (timers st)) /\
  (forall t : Timer, In t (timers st) -> (timerId t < nextTimer st)%nat) /\
  (forall t : Timer, In t (timers st) ->
     (callback t = BackgroundCheck <-> autoCheckTimer st = Some (timerId t))) /\
  (forall t : Timer, In t (timers st) ->
     (callback t = InitialCheck <-> initialCheckTimeout st = Some (timerId t))) /\
  (forall t : Timer, In t (timers st) ->
     (repeats t = true <-> callback t = BackgroundCheck)) /\
  (forall id : nat, autoCheckTimer st = Some id ->
     exists t : Timer, In t (timers st) /\ timerId t = id) /\
  (forall id : nat, initialCheckTimeout st = Some id ->
     exists t : Timer, In t (timers st) /\ timerId t = id).

(** A callback other than the scheduler's two. *)
Definition plain (cb : Callback) : Prop := cb <> BackgroundCheck /\ cb <> InitialCheck.

(** [st'] is [st] with further calls made, each of them satisfying [P]; a
    window that was closed is still closed. *)
Definition grows (P : Effect -> Prop) (st st' : State) : Prop :=
  (window_open st' = true -> window_open st = true) /\
  exists new : list Effect, effects st' = (effects st ++ new)%list /\ Forall P new.

(** ... and with the store, the timers and the scheduler's variables as
    they were. *)
Definition evolves (P : Effect -> Prop) (st st' : State) : Prop :=
  store st' = store st /\ timers st' = timers st /\ nextTimer st' = nextTimer st /\
  autoCheckTimer st' = autoCheckTimer st /\
  initialCheckTimeout st' = initialCheckTimeout st /\
  isFirstStart st' = isFirstStart st /\ grows P st st'.

(** The release and the disk image the module remembers are the same in
    both states. *)
Definition keeps (st st' : State) : Prop :=
  latestUpdateInfo st' = latestUpdateInfo st /\
  downloadedDmgPath st' = downloadedDmgPath st.

(** The release the updater announced last in a run of steps, [known]
    when it announced none. *)
Fixpoint announced (actions : list Action) (known : option UpdateInfo)
    : option UpdateInfo :=
  match actions with
  | [] => known
  | UpdaterEmits (UpdateAvailable info) :: rest => announced rest (Some info)
  | _ :: rest => announced rest known
  end.

(** Where 'download-update' puts the disk image of a release. *)
Definition image_path (app : App) (info : UpdateInfo) : string :=
  path_join app (downloads app) ("Redmine-" +:+ version info +:+ "-arm64.dmg").

Definition is_background (t : Timer) : bool :=
  match callback t with BackgroundCheck => true | _ => false end.

Definition is_initial (t : Timer) : bool :=
  match callback t with InitialCheck => true | _ => false end.

(** The messages among the calls made. *)
Fixpoint sends (es : list Effect) : list (string * jsval) :=
  match es with
  | [] => []
  | Send channel payload :: rest => (channel, payload) :: sends rest
  | _ :: rest => sends rest
  end.

End Ipc.

(** ** Version strings built from their segments *)

Module VersionText.
Import JS.

(** The segments with a dot between each two. *)
Fixpoint dotted (segments : list string) : string :=
  match segments with
  | [] => ""
  | [s] => s
  | s :: rest => s +:+ String "." (dotted rest)
  end.

(** No dot inside. *)
Definition dot_free (segment : string) : Prop := split "." segment = [segment].

(** The number a segment counts as in the comparison. *)
Definition counts_as (segment : string) : jsnum := Version.or_zero (Some (Number segment)).

(** What the segment at index [i] counts as, zero where there is none. *)
Definition count_at (segments : list string) (i : nat) : jsnum :=
  match segments !! i with
  | Some segment => counts_as segment
  | None => zero
  end.

End VersionText.

(** ** What the downloader keeps true of its counters *)

Module Counters.
Import JS Download.

(** While the file is open it holds as many bytes as were counted, and
    the last report, when there is one, says that count. *)
Definition counted (st : State) : Prop :=
  (fileOpen st = true ->
   exists written : list Byte.byte,
     onDisk st = Some written /\ Z.of_nat (length written) = downloadedBytes st) /\
  match last (reported st) with
  | Some p => transferred p = downloadedBytes st
  | None => downloadedBytes st = 0
  end.

End Counters.

(** * Properties *)

(** ** Numbers *)

Section NumberFacts.
Import JS.

Lemma Qred_inject_Z (z : Z) : Qred (inject_Z z) = inject_Z z.
Proof.
  unfold Qred, inject_Z.
  generalize (Z.ggcd_correct_divisors z 1) (Z.ggcd_gcd z 1).
  destruct (Z.ggcd z 1) as [g [n d]]; simpl.
  intros [Hn Hd] Hg. rewrite Z.gcd_1_r in Hg. subst g.
  rewrite Z.mul_1_l in Hn, Hd. subst n d. reflexivity.
Qed.

Lemma Qred_scaled (z k : Z) :
  0 < k -> Qred (z * k # Z.to_pos k) = inject_Z z.
Proof.
  intros Hk. rewrite <- Qred_inject_Z. apply Qred_complete.
  unfold Qeq, inject_Z; simpl. rewrite Z2Pos.id by lia. lia.
Qed.

Lemma round_pos_exact (p : positive) :
  Zpos p < 2 ^ 53 -> round_pos p 1 = Fin (inject_Z (Zpos p)).
Proof.
  intros Hlt. unfold round_pos.
  assert (HL0 : 0 <= Z.log2 (Zpos p)) by apply Z.log2_nonneg.
  assert (HL1 : Z.log2 (Zpos p) < 53) by (apply Z.log2_lt_pow2; lia).
  assert (Hspec := Z.log2_spec (Zpos p) ltac:(lia)).
  change (Z.log2 1) with 0. rewrite Z.sub_0_r.
  set (L := Z.log2 (Zpos p)) in *.
  assert (Hle : pow2_le L (Zpos p) 1 = true).
  { unfold pow2_le. destruct (Z.leb_spec 0 L); [|lia]. apply Z.leb_le. lia. }
  rewrite Hle. rewrite Z.max_l by lia.
  destruct (Z.leb_spec 0 (L - 52)) as [Hu|Hu].
  - assert (HL : L = 52) by lia. rewrite HL.
    change (52 - 52) with 0. change (2 ^ 0) with 1.
    rewrite !Z.mul_1_r. rewrite Z.div_1_r, Z.mod_1_r. simpl (2 * 0 <? 1).
    cbv iota.
    destruct ((1023 <? 52) || ((52 =? 1023) && (Zpos p =? 2 ^ 53))) eqn:E.
    + vm_compute in E. discriminate.
    + reflexivity.
  - set (k := 2 ^ (- (L - 52))).
    assert (Hk : 0 < k) by (apply Z.pow_pos_nonneg; lia).
    rewrite Z.div_1_r, Z.mod_1_r. simpl (2 * 0 <? 1). cbv iota.
    destruct (Z.ltb_spec 1023 L); [lia|].
    destruct (Z.eqb_spec L 1023); [lia|]. simpl.
    f_equal. apply Qred_scaled. exact Hk.
Qed.

Lemma of_Z_exact (z : Z) :
  0 <= z < 2 ^ 53 -> of_Z z = Fin (inject_Z z).
Proof.
  intros [H0 H1]. unfold of_Z, round_double.
  destruct z as [|p|p]; [reflexivity| |lia].
  apply round_pos_exact. exact H1.
Qed.

End NumberFacts.

(** ** The order behind [isNewerVersion] *)

Section OrderFacts.
Import JS Version VersionOrder.

Lemma num_lt_Fin (x y : Q) : num_lt (Fin x) (Fin y) = true <-> (x < y)%Q.
Proof.
  simpl. rewrite Qlt_alt. destruct (x ?= y)%Q; split; congruence.
Qed.

Lemma num_lt_irrefl (a : jsnum) : num_lt a a = false.
Proof.
  destruct a as [|[]|x]; try reflexivity.
  destruct (num_lt (Fin x) (Fin x)) eqn:E; [|reflexivity].
  apply num_lt_Fin in E. exfalso. exact (Qlt_irrefl x E).
Qed.

Lemma num_lt_asym (a b : jsnum) : num_lt a b = true -> num_lt b a = false.
Proof.
  destruct a as [|[]|x], b as [|[]|y]; try (simpl; congruence).
  intros H. apply num_lt_Fin in H.
  destruct (num_lt (Fin y) (Fin x)) eqn:E; [|reflexivity].
  apply num_lt_Fin in E. exfalso. exact (Qlt_irrefl x (Qlt_trans _ _ _ H E)).
Qed.

Lemma num_lt_trans (a b c : jsnum) :
  num_lt a b = true -> num_lt b c = true -> num_lt a c = true.
Proof.
  destruct a as [|[]|x], b as [|[]|y], c as [|[]|z]; try (simpl; congruence).
  rewrite !num_lt_Fin. apply Qlt_trans.
Qed.

(** Between two numbers in order, any third number that is not [NaN] is
    above the lower or below the upper. *)
Lemma num_lt_split (a b c : jsnum) :
  b <> NaN -> num_lt a c = true -> num_lt a b = true \/ num_lt b c = true.
Proof.
  intros Hb.
  destruct a as [|[]|x], b as [|[]|y], c as [|[]|z];
    try congruence; try (simpl; intros; (discriminate || (left; reflexivity) || (right; reflexivity))).
  rewrite !num_lt_Fin. intros H.
  destruct (Qlt_le_dec x y) as [Hxy|Hyx]; [left; exact Hxy|right].
  exact (Qle_lt_trans _ _ _ Hyx H).
Qed.

Lemma tie_refl (a : jsnum) : tie a a.
Proof. split; apply num_lt_irrefl. Qed.

Lemma tie_sym (a b : jsnum) : tie a b -> tie b a.
Proof. intros [H1 H2]. split; assumption. Qed.

Lemma tie_trans (a b c : jsnum) : b <> NaN -> tie a b -> tie b c -> tie a c.
Proof.
  intros Hb [Hab Hba] [Hbc Hcb]. split.
  - destruct (num_lt a c) eqn:E; [|reflexivity].
    destruct (num_lt_split a b c Hb E); congruence.
  - destruct (num_lt c a) eqn:E; [|reflexivity].
    destruct (num_lt_split c b a Hb E); congruence.
Qed.

Lemma tie_lt (a b c : jsnum) :
  a <> NaN -> tie a b -> num_lt b c = true -> num_lt a c = true.
Proof.
  intros Ha [Hab Hba] H. destruct (num_lt_split b a c Ha H); congruence.
Qed.

Lemma lt_tie (a b c : jsnum) :
  c <> NaN -> num_lt a b = true -> tie b c -> num_lt a c = true.
Proof.
  intros Hc H [Hbc Hcb]. destruct (num_lt_split a c b Hc H); congruence.
Qed.

Lemma or_zero_not_NaN (x : option jsnum) : or_zero x <> NaN.
Proof.
  destruct x as [[|s|q]|]; simpl; try discriminate.
  destruct (negb (Qeq_bool q (0 # 1))); discriminate.
Qed.

Lemma key_not_NaN (parts : list jsnum) (i : nat) : key parts i <> NaN.
Proof. apply or_zero_not_NaN. Qed.

Lemma key_beyond (parts : list jsnum) (i : nat) :
  (length parts <= i)%nat -> key parts i = zero.
Proof.
  intros H. unfold key. rewrite (lookup_ge_None_2 parts i H). reflexivity.
Qed.

Lemma loop_lex (lp cp : list jsnum) (n i : nat) :
  isNewerVersion_loop lp cp i n = lex (key lp) (key cp) i n.
Proof.
  revert i. induction n as [|n IH]; intros i; simpl; [reflexivity|].
  rewrite IH. reflexivity.
Qed.

Lemma lex_true_iff (f g : nat -> jsnum) (n i : nat) :
  lex f g i n = true <->
  exists k : nat, (k < n)%nat /\
    (forall j : nat, (j < k)%nat -> tie (f (i + j)%nat) (g (i + j)%nat)) /\
    num_lt (g (i + k)%nat) (f (i + k)%nat) = true.
Proof.
  revert i. induction n as [|n IH]; intros i; simpl.
  - split; [discriminate|]. intros [k [Hk _]]. lia.
  - unfold num_gt. destruct (num_lt (g i) (f i)) eqn:Egt.
    + split; [intros _|reflexivity].
      exists 0%nat. rewrite Nat.add_0_r. split; [lia|split; [|exact Egt]].
      intros j Hj. lia.
    + destruct (num_lt (f i) (g i)) eqn:Elt.
      * split; [discriminate|]. intros [k [Hk [Hties Hlt]]].
        destruct k as [|k].
        -- rewrite Nat.add_0_r in Hlt. congruence.
        -- destruct (Hties 0%nat ltac:(lia)) as [H1 _].
           rewrite Nat.add_0_r in H1. congruence.
      * rewrite IH. split.
        -- intros [k [Hk [Hties Hlt]]]. exists (S k). split; [lia|split].
           ++ intros j Hj. destruct j as [|j].
              ** rewrite Nat.add_0_r. split; assumption.
              ** replace (i + S j)%nat with (S i + j)%nat by lia.
                 apply Hties. lia.
           ++ replace (i + S k)%nat with (S i + k)%nat by lia. exact Hlt.
        -- intros [k [Hk [Hties Hlt]]]. destruct k as [|k].
           ++ rewrite Nat.add_0_r in Hlt. congruence.
           ++ exists k. split; [lia|split].
              ** intros j Hj. replace (S i + j)%nat with (i + S j)%nat by lia.
                 apply Hties. lia.
              ** replace (S i + k)%nat with (i + S k)%nat by lia. exact Hlt.
Qed.

(** [isNewerVersion] is the order [ahead] on the keys of the two strings. *)
Lemma isNewerVersion_ahead (a b : string) :
  isNewerVersion a b = true <-> ahead (keys a) (keys b).
Proof.
  unfold isNewerVersion. rewrite loop_lex, lex_true_iff. unfold ahead, keys.
  set (A := map Number (split "." a)). set (B := map Number (split "." b)).
  split.
  - intros [k [_ [Hties Hlt]]]. exists k. split; [exact Hties|exact Hlt].
  - intros [k [Hties Hlt]]. exists k. split; [|split; [exact Hties|exact Hlt]].
    destruct (Nat.lt_ge_cases k (Nat.max (length A) (length B))) as [H|H]; [exact H|].
    simpl in Hlt. rewrite (key_beyond A k), (key_beyond B k) in Hlt by lia.
    discriminate.
Qed.

Lemma keys_not_NaN (v : string) (i : nat) : keys v i <> NaN.
Proof. apply key_not_NaN. Qed.

Lemma ahead_irrefl (f : nat -> jsnum) : ~ ahead f f.
Proof.
  intros [k [_ H]]. rewrite num_lt_irrefl in H. discriminate.
Qed.

Lemma ahead_asym (f g : nat -> jsnum) : ahead f g -> ~ ahead g f.
Proof.
  intros [k [Hk Hlt]] [m [Hm Hlt']].
  destruct (Nat.lt_trichotomy k m) as [H|[H|H]].
  - destruct (Hm k H) as [H1 _]. congruence.
  - subst m. apply num_lt_asym in Hlt. congruence.
  - destruct (Hk m H) as [H1 _]. congruence.
Qed.

Lemma ahead_trans (f g h : nat -> jsnum) :
  (forall i, f i <> NaN) -> (forall i, g i <> NaN) -> (forall i, h i <> NaN) ->
  ahead f g -> ahead g h -> ahead f h.
Proof.
  intros Hf Hg Hh [k [Hk Hlt]] [m [Hm Hlt']].
  destruct (Nat.lt_trichotomy k m) as [H|[H|H]].
  - exists k. split.
    + intros j Hj. apply (tie_trans _ (g j)); [apply Hg|apply Hk; exact Hj|apply Hm; lia].
    + apply (tie_lt _ (g k)); [apply Hh|apply tie_sym, Hm; exact H|exact Hlt].
  - subst m. exists k. split.
    + intros j Hj. apply (tie_trans _ (g j)); [apply Hg|apply Hk; exact Hj|apply Hm; exact Hj].
    + exact (num_lt_trans _ _ _ Hlt' Hlt).
  - exists m. split.
    + intros j Hj. apply (tie_trans _ (g j)); [apply Hg|apply Hk; lia|apply Hm; exact Hj].
    + apply (lt_tie _ (g m)); [apply Hf|exact Hlt'|apply tie_sym, Hk; exact H].
Qed.

(** Two sequences neither of which is ahead of the other tie everywhere. *)
Lemma not_ahead_tie (f g : nat -> jsnum) :
  ~ ahead f g -> ~ ahead g f -> forall k : nat, tie (f k) (g k).
Proof.
  intros Hfg Hgf k. induction k as [k IH] using lt_wf_ind.
  split.
  - destruct (num_lt (f k) (g k)) eqn:E; [|reflexivity].
    exfalso. apply Hgf. exists k. split; [|exact E].
    intros j Hj. apply tie_sym, IH, Hj.
  - destruct (num_lt (g k) (f k)) eqn:E; [|reflexivity].
    exfalso. apply Hfg. exists k. split; [|exact E].
    intros j Hj. apply IH, Hj.
Qed.

Lemma tie_not_ahead (f g : nat -> jsnum) :
  (forall k : nat, tie (f k) (g k)) -> ~ ahead f g.
Proof.
  intros H [k [_ Hlt]]. destruct (H k) as [_ H2]. congruence.
Qed.

End OrderFacts.



(** ** [Number] on a run of decimal digits *)

Section DigitStrings.
Import JS Version VersionSpec.

(** What the conversions see of a character that is a decimal digit. *)
Lemma digit_char (c : ascii) (d : Z) :
  decimal_digit c = Some d ->
  digit_value 10 c = Some d /\ 0 <= d <= 9 /\
  is_white_space c = false /\
  (forall r, read_sign (String c r) = (false, String c r)) /\
  (forall r, String.eqb (String c r) "Infinity" = false) /\
  Ascii.eqb c "x" || Ascii.eqb c "X" = false /\
  Ascii.eqb c "o" || Ascii.eqb c "O" = false /\
  Ascii.eqb c "b" || Ascii.eqb c "B" = false /\
  Ascii.eqb c "e" || Ascii.eqb c "E" = false /\
  Ascii.eqb c "." = false.
Proof.
  intros H. destruct c as [b0 b1 b2 b3 b4 b5 b6 b7].
  destruct b0, b1, b2, b3, b4, b5, b6, b7; vm_compute in H; try discriminate H;
    injection H as <-; repeat split; try reflexivity; try (vm_compute; congruence).
Qed.

Lemma number_of_digits_nonneg (s : string) (acc v : Z) :
  0 <= acc -> number_of_digits s acc = Some v -> 0 <= v.
Proof.
  revert acc. induction s as [|c s IH]; simpl; intros acc Hacc H.
  - congruence.
  - destruct (decimal_digit c) as [d|] eqn:Hd; [|discriminate].
    destruct (digit_char c d Hd) as [_ [Hr _]].
    apply (IH (10 * acc + d)); [lia|exact H].
Qed.

Lemma read_digits_all (s : string) (acc n v : Z) :
  number_of_digits s acc = Some v ->
  read_digits 10 s acc n = (v, n + Z.of_nat (String.length s), EmptyString).
Proof.
  revert acc n. induction s as [|c s IH]; simpl; intros acc n H.
  - injection H as ->. rewrite Z.add_0_r. reflexivity.
  - destruct (decimal_digit c) as [d|] eqn:Hd; [|discriminate].
    destruct (digit_char c d Hd) as [-> _].
    rewrite (Z.mul_comm acc 10), (IH _ _ H). f_equal. f_equal. lia.
Qed.

Lemma trim_end_digits (s : string) (acc v : Z) :
  number_of_digits s acc = Some v -> trim_end s = s.
Proof.
  revert acc. induction s as [|c s IH]; simpl; intros acc H; [reflexivity|].
  destruct (decimal_digit c) as [d|] eqn:Hd; [|discriminate].
  destruct (digit_char c d Hd) as [_ [_ [Hws _]]].
  rewrite (IH _ H), Hws. destruct s; reflexivity.
Qed.

Lemma read_non_decimal_digits (s : string) (v : Z) :
  number_of_digits s 0 = Some v -> read_non_decimal s = None.
Proof.
  destruct s as [|c [|c2 s]]; try reflexivity.
  - intros _. simpl. destruct c as [[] [] [] [] [] [] [] []]; reflexivity.
  - simpl. destruct (decimal_digit c) as [d|]; [|discriminate].
    destruct (decimal_digit c2) as [d2|] eqn:Hd2; [|discriminate].
    destruct (digit_char c2 d2 Hd2) as [_ [_ [_ [_ [_ [Hx [Ho [Hb _]]]]]]]].
    intros _. rewrite Hx, Ho, Hb.
    destruct c as [[] [] [] [] [] [] [] []]; reflexivity.
Qed.

(** A non-empty run of decimal digits converts to the number nearest to
    the integer it denotes. *)
Lemma Number_digits (s : string) (v : Z) :
  segment_number s = Some v -> Number s = of_Z v.
Proof.
  destruct s as [|c s]; [discriminate|]. unfold segment_number. intros H.
  assert (Hnd := read_non_decimal_digits _ _ H).
  assert (Hte := trim_end_digits _ _ _ H).
  assert (Hrd := read_digits_all _ 0 0 _ H).
  simpl in H. destruct (decimal_digit c) as [d|] eqn:Hd; [|discriminate].
  destruct (digit_char c d Hd) as [_ [_ [Hws [Hsign [Hinf _]]]]].
  unfold Number, trim.
  assert (Hts : trim_start (String c s) = String c s) by (simpl; rewrite Hws; reflexivity).
  rewrite Hts, Hte, Hnd, Hsign, Hinf.
  unfold read_unsigned_decimal. rewrite Hrd.
  assert (Hn : (0 + Z.of_nat (String.length (String c s)) + 0 =? 0) = false).
  { apply Z.eqb_neq. simpl String.length. lia. }
  rewrite Hn. simpl read_exponent. cbv iota beta.
  unfold decimal_value. simpl (0 <=? 0 - 0). cbv iota.
  change (10 ^ (0 - 0)) with 1. rewrite Z.mul_1_r. reflexivity.
Qed.

Lemma Number_segment (s : string) (v : Z) :
  segment_number s = Some v -> v < 2 ^ 53 -> Number s = integer v.
Proof.
  intros H Hlt. rewrite (Number_digits _ _ H). apply of_Z_exact.
  split; [|exact Hlt]. destruct s; [discriminate|].
  apply (number_of_digits_nonneg _ 0 _ (Z.le_refl 0) H).
Qed.

Lemma Number_segments (segments : list string) (ns : list Z) :
  all_segments segments = Some ns -> Forall (fun n => n < 2 ^ 53) ns ->
  map Number segments = map integer ns.
Proof.
  revert ns. induction segments as [|s segments IH]; simpl; intros ns H Hb.
  - injection H as <-. reflexivity.
  - destruct (segment_number s) as [n|] eqn:Hs; [|discriminate].
    destruct (all_segments segments) as [ns'|]; [|discriminate].
    injection H as <-. inversion Hb; subst. simpl.
    rewrite (Number_segment _ _ Hs) by assumption.
    rewrite (IH ns') by (reflexivity || assumption). reflexivity.
Qed.

End DigitStrings.

(** ** Trailing zero segments *)

Section TrailingZeros.
Import JS Version VersionSpec VersionOrder.

Lemma split_nonempty (sep : ascii) (s : string) :
  exists seg segs, split sep s = seg :: segs.
Proof.
  induction s as [|c s IH]; simpl; [eauto|].
  destruct (Ascii.eqb c sep); [eauto|].
  destruct IH as [seg [segs ->]]. eauto.
Qed.

Lemma split_app (sep : ascii) (s t : string) :
  split sep (s +:+ String sep t) = (split sep s ++ split sep t)%list.
Proof.
  induction s as [|c s IH]; simpl.
  - rewrite Ascii.eqb_refl. reflexivity.
  - destruct (Ascii.eqb c sep); rewrite IH; [reflexivity|].
    destruct (split_nonempty sep s) as [seg [segs ->]]. reflexivity.
Qed.

Lemma key_snoc_zero (parts : list jsnum) (i : nat) :
  key (parts ++ [zero]) i = key parts i.
Proof.
  unfold key. destruct (Nat.lt_ge_cases i (length parts)) as [H|H].
  - rewrite lookup_app_l by exact H. reflexivity.
  - rewrite (lookup_ge_None_2 parts i H).
    destruct (Nat.eq_dec i (length parts)) as [->|Hne].
    + rewrite list_lookup_middle by reflexivity. reflexivity.
    + rewrite lookup_ge_None_2; [reflexivity|].
      rewrite length_app. simpl. lia.
Qed.

Lemma split_digits (s : string) (acc n : Z) :
  number_of_digits s acc = Some n -> split "." s = [s].
Proof.
  revert acc. induction s as [|c s IH]; intros acc H; [reflexivity|].
  cbn in H. destruct (decimal_digit c) as [d|] eqn:Hd; [|discriminate].
  destruct (digit_char c d Hd) as (_ & _ & _ & _ & _ & _ & _ & _ & _ & Hdot).
  cbn. rewrite Hdot, (IH _ H). reflexivity.
Qed.

Lemma keys_with_segments (zeros : list string) (v : string) (i : nat) :
  Forall zero_segment zeros -> keys (with_segments v zeros) i = keys v i.
Proof.
  revert v. induction zeros as [|z zeros IH]; intros v Hz; [reflexivity|].
  inversion Hz as [|? ? Hzero Hz']; subst. cbn [with_segments].
  rewrite (IH _ Hz'). unfold keys.
  rewrite split_app, map_app.
  assert (Hs : split "." z = [z]).
  { destruct z; [discriminate|]. exact (split_digits _ _ _ Hzero). }
  rewrite Hs. cbn [map]. rewrite (Number_digits _ _ Hzero).
  apply key_snoc_zero.
Qed.

Lemma ahead_ext (f f' g g' : nat -> jsnum) :
  (forall i, f i = f' i) -> (forall i, g i = g' i) -> ahead f g -> ahead f' g'.
Proof.
  intros Hf Hg [k [Hk Hlt]]. exists k. split.
  - intros j Hj. rewrite <- Hf, <- Hg. apply Hk, Hj.
  - rewrite <- Hf, <- Hg. exact Hlt.
Qed.

Lemma isNewerVersion_ext (a a' b b' : string) :
  (forall i, keys a i = keys a' i) -> (forall i, keys b i = keys b' i) ->
  isNewerVersion a b = isNewerVersion a' b'.
Proof.
  intros Ha Hb.
  destruct (isNewerVersion a b) eqn:E1, (isNewerVersion a' b') eqn:E2; try reflexivity.
  - apply isNewerVersion_ahead in E1.
    apply (ahead_ext _ _ _ _ Ha Hb), isNewerVersion_ahead in E1. congruence.
  - apply isNewerVersion_ahead in E2.
    apply (ahead_ext _ (keys a) _ (keys b)), isNewerVersion_ahead in E2;
      [congruence| |]; intros i; symmetry; [apply Ha|apply Hb].
Qed.

End TrailingZeros.

(** ** The strict weak order *)

Section VersionTheorems.
Import JS Version VersionSpec VersionOrder.

Lemma isNewerVersion_false_iff (a b : string) :
  isNewerVersion a b = false <-> ~ ahead (keys a) (keys b).
Proof.
  rewrite <- isNewerVersion_ahead. destruct (isNewerVersion a b); split; congruence.
Qed.

(** C8. [isNewerVersion] is a strict weak ordering on strings that ignores
    trailing zero segments: no string is newer than itself; two strings
    are never newer than each other; newer-than is transitive, and so is
    being mutually not newer; a string with trailing zero segments
    appended is mutually not newer with the string itself and compares
    with every other string exactly as the string itself does. *)
Theorem isNewerVersion_strict_weak_order :
  (forall v : string, isNewerVersion v v = false) /\
  (forall a b : string, isNewerVersion a b = true -> isNewerVersion b a = false) /\
  (forall a b c : string,
      isNewerVersion a b = true -> isNewerVersion b c = true ->
      isNewerVersion a c = true) /\
  (forall a b c : string,
      isNewerVersion a b = false -> isNewerVersion b a = false ->
      isNewerVersion b c = false -> isNewerVersion c b = false ->
      isNewerVersion a c = false /\ isNewerVersion c a = false) /\
  (forall (v : string) (zeros : list string),
      Forall zero_segment zeros ->
      isNewerVersion (with_segments v zeros) v = false /\
      isNewerVersion v (with_segments v zeros) = false) /\
  (forall (v w : string) (zeros : list string),
      Forall zero_segment zeros ->
      isNewerVersion (with_segments v zeros) w = isNewerVersion v w /\
      isNewerVersion w (with_segments v zeros) = isNewerVersion w v).
Proof.
  assert (Hirr : forall v : string, isNewerVersion v v = false).
  { intros v. apply isNewerVersion_false_iff, ahead_irrefl. }
  assert (Hzeros : forall (v w : string) (zeros : list string),
             Forall zero_segment zeros ->
             isNewerVersion (with_segments v zeros) w = isNewerVersion v w /\
             isNewerVersion w (with_segments v zeros) = isNewerVersion w v).
  { intros v w zeros Hz. split; apply isNewerVersion_ext;
      intros i; (reflexivity || (apply keys_with_segments; exact Hz)). }
  split; [exact Hirr|]. split; [|split; [|split; [|split; [|exact Hzeros]]]].
  - intros a b H. apply isNewerVersion_false_iff, ahead_asym.
    apply isNewerVersion_ahead. exact H.
  - intros a b c Hab Hbc. apply isNewerVersion_ahead.
    apply (ahead_trans _ (keys b)); try apply keys_not_NaN;
      apply isNewerVersion_ahead; assumption.
  - intros a b c Hab Hba Hbc Hcb.
    rewrite isNewerVersion_false_iff in Hab, Hba, Hbc, Hcb.
    assert (T1 := not_ahead_tie _ _ Hab Hba).
    assert (T2 := not_ahead_tie _ _ Hbc Hcb).
    split; apply isNewerVersion_false_iff, tie_not_ahead; intros k.
    + apply (tie_trans _ (keys b k)); [apply keys_not_NaN|apply T1|apply T2].
    + apply tie_sym, (tie_trans _ (keys b k)); [apply keys_not_NaN|apply T1|apply T2].
  - intros v zeros Hz. destruct (Hzeros v v zeros Hz) as [H1 H2].
    rewrite H1, H2, Hirr. split; reflexivity.
Qed.

(** Transitivity on three versions, and 1.2.0.00 against 1.2. *)
Lemma isNewerVersion_strict_weak_order_witness :
  isNewerVersion "1.3" "1.2.9" = true /\
  isNewerVersion "1.2.9" "1.2" = true /\
  isNewerVersion "1.3" "1.2" = true /\
  isNewerVersion "1.2.0.00" "1.2" = false /\
  isNewerVersion "1.2" "1.2.0.00" = false.
Proof.
  destruct isNewerVersion_strict_weak_order as (_ & _ & Htrans & _ & Hzeros & _).
  assert (H1 : isNewerVersion "1.3" "1.2.9" = true) by (vm_compute; reflexivity).
  assert (H2 : isNewerVersion "1.2.9" "1.2" = true) by (vm_compute; reflexivity).
  split; [exact H1|]. split; [exact H2|].
  split; [exact (Htrans "1.3" "1.2.9" "1.2" H1 H2)|].
  apply (Hzeros "1.2" ["0"; "00"]).
  constructor; [reflexivity|]. constructor; [reflexivity|]. constructor.
Defined.

End VersionTheorems.

(** ** [isNewerVersion] against the worded comparison *)

Section Refinement.
Import JS Version VersionSpec.

Lemma or_zero_integer (n : Z) : or_zero (Some (integer n)) = integer n.
Proof.
  unfold integer. simpl. destruct (Qeq_bool (inject_Z n) (0 # 1)) eqn:E; [|reflexivity].
  apply Qeq_bool_eq in E. unfold Qeq, inject_Z in E. simpl in E.
  assert (n = 0) by lia. subst n. reflexivity.
Qed.

Lemma num_lt_integer (a b : Z) :
  num_lt (integer a) (integer b) = (a <? b).
Proof.
  unfold integer.
  destruct (Z.ltb_spec a b) as [H|H].
  - apply num_lt_Fin. rewrite <- Zlt_Qlt. exact H.
  - destruct (num_lt (Fin (inject_Z a)) (Fin (inject_Z b))) eqn:E; [|reflexivity].
    apply num_lt_Fin in E. rewrite <- Zlt_Qlt in E. lia.
Qed.

Lemma loop_tail (x y : jsnum) (lp cp : list jsnum) (n i : nat) :
  isNewerVersion_loop (x :: lp) (y :: cp) (S i) n = isNewerVersion_loop lp cp i n.
Proof.
  revert i. induction n as [|n IH]; intros i; simpl; [reflexivity|].
  rewrite IH. reflexivity.
Qed.

Lemma loop_tail_left (x : jsnum) (lp : list jsnum) (n i : nat) :
  isNewerVersion_loop (x :: lp) [] (S i) n = isNewerVersion_loop lp [] i n.
Proof.
  revert i. induction n as [|n IH]; intros i; simpl; [reflexivity|].
  rewrite IH. reflexivity.
Qed.

Lemma loop_tail_right (y : jsnum) (cp : list jsnum) (n i : nat) :
  isNewerVersion_loop [] (y :: cp) (S i) n = isNewerVersion_loop [] cp i n.
Proof.
  revert i. induction n as [|n IH]; intros i; simpl; [reflexivity|].
  rewrite IH. reflexivity.
Qed.

Lemma loop_current_only (current : list Z) :
  isNewerVersion_loop [] (map integer current) 0 (length current) = isNewer [] current.
Proof.
  induction current as [|c current IH]; [reflexivity|].
  cbn [map length isNewerVersion_loop]. unfold num_gt.
  change ([] !! 0%nat) with (@None jsnum).
  change ((integer c :: map integer current) !! 0%nat) with (Some (integer c)).
  rewrite or_zero_integer. change (or_zero None) with (integer 0).
  rewrite !num_lt_integer, loop_tail_right, IH. reflexivity.
Qed.

Lemma loop_candidate_only (candidate : list Z) :
  isNewerVersion_loop (map integer candidate) [] 0 (length candidate) = isNewer candidate [].
Proof.
  induction candidate as [|a candidate IH]; [reflexivity|].
  cbn [map length isNewerVersion_loop]. unfold num_gt.
  change ([] !! 0%nat) with (@None jsnum).
  change ((integer a :: map integer candidate) !! 0%nat) with (Some (integer a)).
  rewrite or_zero_integer. change (or_zero None) with (integer 0).
  rewrite !num_lt_integer, loop_tail_left, IH. reflexivity.
Qed.

Lemma loop_isNewer (candidate current : list Z) :
  isNewerVersion_loop (map integer candidate) (map integer current) 0
    (Nat.max (length candidate) (length current))
  = isNewer candidate current.
Proof.
  revert current. induction candidate as [|a candidate IH]; intros current.
  - apply loop_current_only.
  - destruct current as [|c current].
    + rewrite Nat.max_0_r. apply loop_candidate_only.
    + cbn [map length]. rewrite <- Nat.succ_max_distr.
      cbn [isNewerVersion_loop]. unfold num_gt.
      change ((integer a :: map integer candidate) !! 0%nat) with (Some (integer a)).
      change ((integer c :: map integer current) !! 0%nat) with (Some (integer c)).
      rewrite !or_zero_integer, !num_lt_integer, loop_tail, IH. reflexivity.
Qed.

(** C3, as amended. For dotted version strings whose segments are runs
    of decimal digits denoting integers below 2^53, [isNewerVersion]
    splits both on the dot, takes a missing segment as 0 and answers with
    the first difference from the left: true where the candidate is
    greater, false where it is smaller, false when there is none; so
    1.2.0 is not newer than 1.2, 1.3 is newer than 1.2.9 and 2.0 is not
    newer than 2.0. *)
Theorem isNewerVersion_compares_segments :
  (forall (candidate current : string) (cs ns : list Z),
      version_numbers candidate = Some cs ->
      version_numbers current = Some ns ->
      Forall (fun n => n < 2 ^ 53) cs ->
      Forall (fun n => n < 2 ^ 53) ns ->
      isNewerVersion candidate current = isNewer cs ns) /\
  isNewerVersion "1.2.0" "1.2" = false /\
  isNewerVersion "1.3" "1.2.9" = true /\
  isNewerVersion "2.0" "2.0" = false.
Proof.
  split; [|repeat split; vm_compute; reflexivity].
  intros candidate current cs ns Hc Hn Bc Bn. unfold isNewerVersion.
  rewrite (Number_segments _ _ Hc Bc), (Number_segments _ _ Hn Bn).
  rewrite !length_map. apply loop_isNewer.
Qed.

Lemma isNewerVersion_compares_segments_witness :
  isNewerVersion "1.10.0" "1.9" = isNewer [1; 10; 0] [1; 9].
Proof.
  apply (proj1 isNewerVersion_compares_segments "1.10.0" "1.9" [1; 10; 0] [1; 9]).
  - vm_compute; reflexivity.
  - vm_compute; reflexivity.
  - repeat constructor.
  - repeat constructor.
Defined.

(** C3 as stated fails where a segment is too large for a number to hold
    exactly: 9007199254740993 = 2^53 + 1 reads as 2^53, so the candidate's
    only segment is greater than the current one and yet the answer is
    false. *)
Lemma isNewerVersion_large_segment :
  version_numbers "9007199254740993" = Some [9007199254740993] /\
  version_numbers "9007199254740992" = Some [9007199254740992] /\
  isNewer [9007199254740993] [9007199254740992] = true /\
  isNewerVersion "9007199254740993" "9007199254740992" = false.
Proof. repeat split; vm_compute; reflexivity. Qed.

End Refinement.

(** ** The scheduler *)

Section SchedulerFacts.
Import JS Updater Scheduler.

Lemma filter_has_handle_None (l : list Timer) :
  List.filter (fun t => negb (has_handle None t)) l = l.
Proof. induction l as [|t l IH]; simpl in *; [reflexivity|]. rewrite IH. reflexivity. Qed.

(** [startAutoCheck] begins with two cancellations; the state they leave
    differs from the one before in its timers and handles only. *)
Lemma cancelled_state (st : State) :
  let st0 :=
    let st1 := match autoCheckTimer st with
               | Some handle => set_autoCheckTimer None (clearTimer handle st)
               | None => st
               end in
    match initialCheckTimeout st1 with
    | Some handle => set_initialCheckTimeout None (clearTimer handle st1)
    | None => st1
    end in
  store st0 = store st /\ timers st0 = after_cancel st /\
  nextTimer st0 = nextTimer st /\ isFirstStart st0 = isFirstStart st /\
  autoCheckTimer st0 = None /\ initialCheckTimeout st0 = None /\
  effects st0 = effects st /\ mainWindow st0 = mainWindow st /\
  getAutoCheckSettings st0 = getAutoCheckSettings st.
Proof.
  unfold after_cancel.
  destruct (autoCheckTimer st) as [h1|] eqn:E1; cbn;
    destruct (initialCheckTimeout st) as [h2|] eqn:E2; cbn;
    rewrite ?E1, ?E2, ?filter_has_handle_None; repeat split; reflexivity.
Qed.

(** Name the state after the cancellations and keep only what
    [cancelled_state] says of it. *)
Ltac after_cancellations a st st0 :=
  unfold startAutoCheck; cbv zeta;
  let H := fresh "H" in
  pose proof (cancelled_state st) as H; cbv zeta in H;
  match goal with
  | |- context [getAutoCheckSettings ?s] => set (st0 := s) in *
  end;
  destruct H
    as (Hstore & Htimers & Hnext & Hfirst & Hauto & Hinit & Heff & Hwin & Hsettings);
  clearbody st0; unfold will_arm, isDev; rewrite <- ?Hsettings;
  destruct (truthy (enabled (getAutoCheckSettings st0))), (isPackaged a);
  cbn [negb orb andb].

Lemma startAutoCheck_store (app : App) (st : State) :
  store (startAutoCheck app st) = store st.
Proof.
  after_cancellations app st st0; try exact Hstore.
  cbn. destruct (isFirstStart st0); exact Hstore.
Qed.

Lemma startAutoCheck_timers (app : App) (st : State) :
  timers (startAutoCheck app st) =
  (after_cancel st ++
   (if will_arm app st
    then recurring (nextTimer st) st ::
         (if isFirstStart st then [one_shot (S (nextTimer st))] else [])
    else []))%list.
Proof.
  unfold recurring, interval_ms.
  after_cancellations app st st0; rewrite <- ?Htimers, ?app_nil_r; try reflexivity.
  cbn. rewrite <- Hfirst, <- Hnext.
  destruct (isFirstStart st0); cbn; rewrite <- ?app_assoc; reflexivity.
Qed.

Lemma startAutoCheck_isFirstStart (app : App) (st : State) :
  isFirstStart (startAutoCheck app st) = isFirstStart st && negb (will_arm app st).
Proof.
  after_cancellations app st st0; rewrite <- Hfirst, ?andb_true_r; try reflexivity.
  cbn. destruct (isFirstStart st0); reflexivity.
Qed.

Lemma startAutoCheck_handles (app : App) (st : State) :
  autoCheckTimer (startAutoCheck app st) =
    (if will_arm app st then Some (nextTimer st) else None) /\
  initialCheckTimeout (startAutoCheck app st) =
    (if will_arm app st && isFirstStart st then Some (S (nextTimer st)) else None).
Proof.
  after_cancellations app st st0; rewrite <- ?Hfirst, <- ?Hnext; try (split; assumption).
  cbn. destruct (isFirstStart st0); cbn; rewrite ?Hinit; split; reflexivity.
Qed.

End SchedulerFacts.

(** ** The settings handler *)

Section SettingsFacts.
Import JS Updater Scheduler Sample.

Lemma handle_set_unfold (app : App) (settings : Settings) (st : State) :
  handle_set_auto_update_settings app settings st =
  (getAutoCheckSettings (startAutoCheck app (write_settings settings st)),
   startAutoCheck app (write_settings settings st)).
Proof. reflexivity. Qed.

Lemma write_settings_frame (settings : Settings) (st : State) :
  timers (write_settings settings st) = timers st /\
  nextTimer (write_settings settings st) = nextTimer st /\
  isFirstStart (write_settings settings st) = isFirstStart st /\
  autoCheckTimer (write_settings settings st) = autoCheckTimer st /\
  initialCheckTimeout (write_settings settings st) = initialCheckTimeout st /\
  effects (write_settings settings st) = effects st.
Proof.
  unfold write_settings. destruct (enabled settings), (interval settings);
    repeat split; reflexivity.
Qed.

Lemma write_settings_enabled (settings : Settings) (st : State) :
  store (write_settings settings st) !! "autoCheckUpdate" =
  match enabled settings with
  | VUndefined => store st !! "autoCheckUpdate"
  | value => Some value
  end.
Proof.
  unfold write_settings, store_set.
  destruct (enabled settings), (interval settings); cbn;
    rewrite ?lookup_insert_eq, ?(lookup_insert_ne _ "autoCheckInterval" "autoCheckUpdate"),
      ?lookup_insert_eq by discriminate; reflexivity.
Qed.

Lemma write_settings_interval (settings : Settings) (st : State) :
  store (write_settings settings st) !! "autoCheckInterval" =
  match interval settings with
  | VUndefined => store st !! "autoCheckInterval"
  | value => Some value
  end.
Proof.
  unfold write_settings, store_set.
  destruct (enabled settings), (interval settings); cbn;
    rewrite ?lookup_insert_eq, ?(lookup_insert_ne _ "autoCheckUpdate" "autoCheckInterval")
      by discriminate; reflexivity.
Qed.

Lemma write_settings_other (settings : Settings) (st : State) (key : string) :
  key <> "autoCheckUpdate" -> key <> "autoCheckInterval" ->
  store (write_settings settings st) !! key = store st !! key.
Proof.
  intros H1 H2. unfold write_settings, store_set.
  destruct (enabled settings), (interval settings); cbn;
    rewrite ?lookup_insert_ne by congruence; reflexivity.
Qed.

(** C10. ['set-auto-update-settings'] writes the provided fields only: an
    omitted [enabled] leaves the key autoCheckUpdate as it was, an omitted
    [interval] leaves autoCheckInterval as it was, a provided field is
    stored under its key, no other key changes; and the value returned is
    the settings read back from the store after the update, with [true]
    and [24] standing in for keys never set. *)
Theorem set_auto_update_settings_frame (app : App) (settings : Settings) (st : State) :
  let result := fst (handle_set_auto_update_settings app settings st) in
  let st' := snd (handle_set_auto_update_settings app settings st) in
  (enabled settings = VUndefined ->
   store st' !! "autoCheckUpdate" = store st !! "autoCheckUpdate") /\
  (enabled settings <> VUndefined ->
   store st' !! "autoCheckUpdate" = Some (enabled settings)) /\
  (interval settings = VUndefined ->
   store st' !! "autoCheckInterval" = store st !! "autoCheckInterval") /\
  (interval settings <> VUndefined ->
   store st' !! "autoCheckInterval" = Some (interval settings)) /\
  (forall key : string, key <> "autoCheckUpdate" -> key <> "autoCheckInterval" ->
                        store st' !! key = store st !! key) /\
  result = getAutoCheckSettings st' /\
  enabled result = match store st' !! "autoCheckUpdate" with
                   | Some v => v
                   | None => VBool true
                   end /\
  interval result = match store st' !! "autoCheckInterval" with
                    | Some v => v
                    | None => VNum (integer 24)
                    end.
Proof.
  cbv zeta. rewrite handle_set_unfold. cbn [fst snd].
  rewrite !startAutoCheck_store.
  rewrite write_settings_enabled, write_settings_interval.
  repeat split.
  - intros ->. reflexivity.
  - intros H. destruct (enabled settings); congruence.
  - intros ->. reflexivity.
  - intros H. destruct (interval settings); congruence.
  - intros key H1 H2. apply write_settings_other; assumption.
  - unfold getAutoCheckSettings, store_get; cbn [enabled].
    rewrite startAutoCheck_store, write_settings_enabled. reflexivity.
  - unfold getAutoCheckSettings, store_get; cbn [interval].
    rewrite startAutoCheck_store, write_settings_interval.
    destruct (interval settings); try reflexivity;
      destruct (store st !! "autoCheckInterval"); reflexivity.
Qed.

(** Only [enabled] is provided: it is stored and the interval stays. *)
Lemma set_auto_update_settings_frame_witness :
  let st := initial {[ "autoCheckInterval" := VNum (integer 6) ]} open_window in
  let call := handle_set_auto_update_settings packaged
                {| enabled := VBool false; interval := VUndefined |} st in
  store (snd call) !! "autoCheckUpdate" = Some (VBool false) /\
  store (snd call) !! "autoCheckInterval" = Some (VNum (integer 6)).
Proof.
  cbv zeta.
  pose proof (set_auto_update_settings_frame packaged
                {| enabled := VBool false; interval := VUndefined |}
                (initial {[ "autoCheckInterval" := VNum (integer 6) ]} open_window)) as H.
  cbv zeta in H. destruct H as (_ & He & Hi & _).
  split.
  - apply He. discriminate.
  - rewrite Hi by reflexivity. apply lookup_singleton_eq.
Defined.

End SettingsFacts.

(** ** The interval *)

Section IntervalFacts.
Import JS Updater Scheduler Sample.

Lemma integer_of_Z (z : Z) : 0 <= z < 2 ^ 53 -> of_Z z = integer z.
Proof. apply of_Z_exact. Qed.

Lemma num_mul_integer (a b : Z) :
  0 <= a * b < 2 ^ 53 -> num_mul (integer a) (integer b) = integer (a * b).
Proof.
  intros H. unfold integer at 1 2. cbn [num_mul]. unfold of_Q, Qmult, inject_Z.
  cbn [Qnum Qden]. change (1 * 1)%positive with 1%positive.
  apply of_Z_exact. exact H.
Qed.








End IntervalFacts.

(** ** The one-shot initial check *)

Section OneShotFacts.
Import JS Updater Scheduler Sample.

Lemma after_cancel_incl (st : State) (t : Timer) :
  In t (after_cancel st) -> In t (timers st).
Proof.
  unfold after_cancel. intros H.
  apply filter_In in H as [H _]. apply filter_In in H as [H _]. exact H.
Qed.

Lemma after_cancel_write_settings (settings : Settings) (st : State) :
  after_cancel (write_settings settings st) = after_cancel st.
Proof.
  destruct (write_settings_frame settings st) as (Ht & _ & _ & Ha & Hi & _).
  unfold after_cancel. rewrite Ht, Ha, Hi. reflexivity.
Qed.

(** Once the flag is down, a settings change leaves it down and adds no
    one-shot timer. *)
Lemma settings_change_after_first (app : App) (settings : Settings) (st : State) :
  isFirstStart st = false ->
  let st' := snd (handle_set_auto_update_settings app settings st) in
  isFirstStart st' = false /\
  forall t : Timer, In t (timers st') -> callback t = InitialCheck -> In t (timers st).
Proof.
  intros Hflag. cbv zeta. rewrite handle_set_unfold; cbn [snd].
  destruct (write_settings_frame settings st) as (_ & _ & Hf & _).
  split.
  - rewrite startAutoCheck_isFirstStart, Hf, Hflag. reflexivity.
  - intros t Hin Hcb. rewrite startAutoCheck_timers, Hf, Hflag in Hin.
    apply in_app_or in Hin as [Hin|Hin].
    + rewrite after_cancel_write_settings in Hin. apply after_cancel_incl, Hin.
    + destruct (will_arm app (write_settings settings st)); [|contradiction].
      destruct Hin as [<-|[]]. discriminate Hcb.
Qed.

(** C6, as amended. The 10-second one-shot timer is armed at most once in
    a process lifetime: by the first run of [startAutoCheck] that finds
    auto-check enabled in a packaged application (the first start of the
    scheduler, or a later settings-driven run when the earlier ones found
    auto-check disabled). Every run first cancels the recurring timer and
    the pending one-shot timer it holds handles of; it then arms the
    recurring timer exactly when auto-check is enabled and the application
    is packaged, and the one-shot only if none was armed before; once the
    one-shot has been armed, no later settings change arms it again. *)
Theorem one_shot_armed_at_most_once :
  (forall (app : App) (st : State),
      timers (startAutoCheck app st) =
      (after_cancel st ++
       (if will_arm app st
        then recurring (nextTimer st) st ::
             (if isFirstStart st then [one_shot (S (nextTimer st))] else [])
        else []))%list) /\
  (forall (app : App) (st : State),
      isFirstStart (startAutoCheck app st) = isFirstStart st && negb (will_arm app st)) /\
  (forall (app : App) (changes : list Settings) (st : State),
      isFirstStart st = false ->
      Forall (fun st' : State =>
                isFirstStart st' = false /\
                forall t : Timer, In t (timers st') -> callback t = InitialCheck ->
                                  In t (timers st))
             (lifetime app changes st)).
Proof.
  split; [exact startAutoCheck_timers|]. split; [exact startAutoCheck_isFirstStart|].
  intros app changes. induction changes as [|settings changes IH]; intros st Hflag.
  - constructor.
  - cbn [lifetime].
    destruct (settings_change_after_first app settings st Hflag) as [Hf Ht].
    constructor; [split; assumption|].
    eapply List.Forall_impl; [|apply IH; exact Hf].
    cbv beta. intros st' [Hf' Ht']. split; [exact Hf'|].
    intros t Hin Hcb. apply Ht; [|exact Hcb]. apply Ht'; assumption.
Qed.

(** Auto-check is on at start-up, so the first start arms the one-shot;
    turning it off and on again does not bring the one-shot back. *)
Lemma one_shot_armed_at_most_once_witness :
  let st := initUpdater packaged ∅ open_window in
  let off := {| enabled := VBool false; interval := VUndefined |} in
  let on := {| enabled := VBool true; interval := VUndefined |} in
  In (one_shot 1) (timers st) /\
  Forall (fun st' : State =>
            isFirstStart st' = false /\
            forall t : Timer, In t (timers st') -> callback t = InitialCheck ->
                              In t (timers st))
         (lifetime packaged [off; on] st).
Proof.
  cbv zeta. split.
  - vm_compute. right. left. reflexivity.
  - apply (proj2 (proj2 one_shot_armed_at_most_once)). vm_compute. reflexivity.
Defined.

(** C6 as stated fails: with auto-check disabled in the persisted store
    the first start of the scheduler arms nothing, and the run triggered
    by the settings change that enables it arms the one-shot. *)
Lemma one_shot_armed_by_a_later_run :
  let st1 := initUpdater packaged {[ "autoCheckUpdate" := VBool false ]} open_window in
  let st2 := snd (handle_set_auto_update_settings packaged
                    {| enabled := VBool true; interval := VUndefined |} st1) in
  timers st1 = [] /\ isFirstStart st1 = true /\
  timers st2 = [ {| timerId := 0; repeats := true; delay := integer 86400000;
                    callback := BackgroundCheck |};
                 {| timerId := 1; repeats := false; delay := integer 10000;
                    callback := InitialCheck |} ].
Proof.
  cbv zeta. split; [|split]; vm_compute; reflexivity.
Qed.

End OneShotFacts.

(** ** The silent check *)

Section SilentCheckFacts.
Import JS Version Updater Scheduler Sample.

Lemma sendToRenderer_effects (channel : string) (payload : jsval) (st : State) :
  effects (sendToRenderer channel payload st) =
  (effects st ++ (if window_open st then [Send channel payload] else []))%list.
Proof.
  unfold sendToRenderer, window_open.
  destruct (mainWindow st) as [[[]]|]; cbn; rewrite ?app_nil_r; reflexivity.
Qed.

Lemma sendToRenderer_frame (channel : string) (payload : jsval) (st : State) :
  timers (sendToRenderer channel payload st) = timers st /\
  nextTimer (sendToRenderer channel payload st) = nextTimer st /\
  store (sendToRenderer channel payload st) = store st /\
  mainWindow (sendToRenderer channel payload st) = mainWindow st.
Proof.
  unfold sendToRenderer.
  destruct (mainWindow st) as [[[]]|] eqn:E; cbn; rewrite ?E; repeat split; reflexivity.
Qed.

(** What the silent check does by itself: nothing in an unpackaged
    application; otherwise it asks the updater, logs a failure, and sends
    the notification exactly when the release it is told of has a version
    string different from the current one. *)
Lemma silentCheckForUpdates_effects (app : App)
    (check : Outcome (option UpdateCheckResult)) (st : State) :
  effects (silentCheckForUpdates app check st) =
  (effects st ++
   (if isDev app then []
    else CheckForUpdates ::
         match check with
         | Throws error => [Log Error [VStr "Silent update check error:"; VStr error]]
         | Returns None => []
         | Returns (Some result) =>
             match updateInfo result with
             | None => []
             | Some info =>
                 if String.eqb (version info) (getVersion app) then []
                 else Log Info [VStr ("Silent check found update: " +:+ version info)] ::
                      (if window_open st
                       then [Send "update-available-silent"
                               (VObj [ ("version", VStr (version info));
                                       ("releaseDate", releaseDate info) ])]
                       else [])
             end
         end))%list.
Proof.
  unfold silentCheckForUpdates. destruct (isDev app); [rewrite app_nil_r; reflexivity|].
  destruct check as [[result|]|error];
    try (cbn; rewrite <- ?app_assoc; reflexivity).
  destruct (updateInfo result) as [info|]; [|reflexivity].
  destruct (String.eqb (version info) (getVersion app)); cbn [negb]; [reflexivity|].
  rewrite sendToRenderer_effects. cbn. rewrite <- !app_assoc. reflexivity.
Qed.

(** C1. The claim does not hold of the code: the silent check tests
    whether the version strings differ, not whether the release is newer.
    Told of release 1.0.0 while version 1.2.0 is running, for which
    [isNewerVersion] says no, it sends 'update-available-silent'. *)
Theorem silent_check_notifies_of_older_release :
  isNewerVersion (version older_release) (getVersion packaged) = false /\
  effects (silentCheckForUpdates packaged
             (Returns (Some {| updateInfo := Some older_release |}))
             (initial ∅ open_window)) =
  [ CheckForUpdates;
    Log Info [VStr "Silent check found update: 1.0.0"];
    Send "update-available-silent"
      (VObj [ ("version", VStr "1.0.0");
              ("releaseDate", VStr "2024-01-15T10:00:00.000Z") ]) ].
Proof.
  split; vm_compute; reflexivity.
Qed.

End SilentCheckFacts.

(** ** Development mode *)

Section DevModeFacts.
Import JS Updater Scheduler Sample.

(** C4. In an unpackaged application: 'check-for-updates' reaches no
    network collaborator, sets a 500 ms one-shot timer whose callback
    sends 'update-not-available' with the current version and
    [devMode: true], and answers with success, the current version and
    [devMode: true]; 'download-update' asks for the releases page,
    https://github.com/jheroy/Redmine-desktop/releases, to be opened and
    answers [{success: false, error}], the error being 'Dev mode - opened
    releases page', or the error of opening the page when that fails;
    'install-update' answers [{success: false, error: 'Cannot install in
    dev mode'}] and sets no timer. *)
Theorem dev_mode_short_circuits (app : App) (w : World) (st : State) :
  isDev app = true ->
  (let reply := fst (handle_check_for_updates app w st) in
   let st' := snd (handle_check_for_updates app w st) in
   reply = VObj [ ("success", VBool true);
                  ("updateInfo", VObj [ ("version", VStr (getVersion app)) ]);
                  ("devMode", VBool true) ] /\
   timers st' = (timers st ++
                 [ {| timerId := nextTimer st; repeats := false;
                      delay := integer 500;
                      callback := DevModeNotice (getVersion app) |} ])%list /\
   (exists new : list Effect,
       effects st' = (effects st ++ new)%list /\
       forallb (fun e => negb (contacts_network e)) new = true) /\
   (forall (check : Outcome (option UpdateCheckResult)) (quit : Outcome unit) (s : State),
       window_open s = true ->
       effects (run_callback app (DevModeNotice (getVersion app)) check quit s) =
       (effects s ++ [ Send "update-not-available"
                         (VObj [ ("version", VStr (getVersion app));
                                 ("devMode", VBool true) ]) ])%list)) /\
  (exists (st' : State) (after : list Effect),
      handle_download_update app w st =
      Some (VObj [ ("success", VBool false);
                   ("error", VStr match open_answer w with
                                  | Returns _ => "Dev mode - opened releases page"
                                  | Throws message => message
                                  end) ], st') /\
      timers st' = timers st /\
      effects st' =
      (effects st ++
       Log Info [VStr "Dev mode: opening releases page instead of downloading"] ::
       OpenExternal "https://github.com/jheroy/Redmine-desktop/releases" :: after)%list /\
      forallb (fun e => negb (contacts_network e)) after = true) /\
  (exists st' : State,
      handle_install_update app w st =
      (VObj [ ("success", VBool false); ("error", VStr "Cannot install in dev mode") ],
       st') /\
      timers st' = timers st /\
      effects st' =
      (effects st ++
       (if window_open st
        then [Send "update-error" (VObj [ ("message", VStr "开发模式下无法安装更新") ])]
        else []))%list).
Proof.
  intros Hdev. split; [|split].
  - unfold handle_check_for_updates. rewrite Hdev. cbn [fst snd setTimeout setTimer].
    split; [reflexivity|]. split.
    { rewrite (integer_of_Z 500) by (vm_compute; split; congruence).
      change (timer_delay (integer 500)) with (integer 500). cbn.
      destruct (sendToRenderer_frame "checking-for-update" VNull
                  (emit (Log Info [VStr "Manual update check triggered, isDev:";
                                   VBool true]) st)) as (-> & -> & _).
      reflexivity. }
    split.
    { cbn. rewrite sendToRenderer_effects. cbn. rewrite <- !app_assoc.
      eexists. split; [reflexivity|]. destruct (window_open _); reflexivity. }
    intros check quit s Hs. cbn [run_callback].
    rewrite sendToRenderer_effects, Hs. reflexivity.
  - unfold handle_download_update. rewrite Hdev.
    destruct (open_answer w) as [[]|message].
    + eexists _, _. split; [reflexivity|]. split.
      { match goal with
        | |- context [sendToRenderer ?c ?p ?s] =>
            destruct (sendToRenderer_frame c p s) as (-> & _)
        end. reflexivity. }
      rewrite sendToRenderer_effects. cbn. rewrite <- !app_assoc. cbn.
      split; [reflexivity|]. destruct (window_open _); reflexivity.
    + eexists _, _. split; [reflexivity|]. unfold download_failed. split.
      { cbn [snd].
        match goal with
        | |- context [sendToRenderer ?c ?p ?s] =>
            destruct (sendToRenderer_frame c p s) as (-> & _)
        end. reflexivity. }
      rewrite sendToRenderer_effects. cbn. rewrite <- !app_assoc. cbn.
      split; [reflexivity|]. destruct (window_open _); reflexivity.
  - unfold handle_install_update. rewrite Hdev. eexists. split; [reflexivity|].
    rewrite sendToRenderer_effects. split; [|reflexivity].
    unfold sendToRenderer. destruct (mainWindow st) as [[[]]|]; reflexivity.
Qed.

(** The unpackaged build of the samples, its window open: what each of
    the three handlers answers. *)
Lemma dev_mode_short_circuits_witness :
  fst (handle_check_for_updates unpackaged quiet (initial ∅ open_window)) =
  VObj [ ("success", VBool true);
         ("updateInfo", VObj [ ("version", VStr "1.2.0") ]);
         ("devMode", VBool true) ] /\
  (exists st' : State,
      handle_download_update unpackaged quiet (initial ∅ open_window) =
      Some (VObj [ ("success", VBool false);
                   ("error", VStr "Dev mode - opened releases page") ], st') /\
      In (OpenExternal "https://github.com/jheroy/Redmine-desktop/releases")
         (effects st')) /\
  (exists st' : State,
      handle_download_update unpackaged no_network (initial ∅ open_window) =
      Some (VObj [ ("success", VBool false);
                   ("error", VStr "No application to open the URL") ], st')) /\
  fst (handle_install_update unpackaged quiet (initial ∅ open_window)) =
  VObj [ ("success", VBool false); ("error", VStr "Cannot install in dev mode") ].
Proof.
  destruct (dev_mode_short_circuits unpackaged quiet (initial ∅ open_window) eq_refl)
    as (Hcheck & (st1 & after & Hdownload & _ & Heffects & _) & (st2 & Hinstall & _)).
  destruct (dev_mode_short_circuits unpackaged no_network (initial ∅ open_window) eq_refl)
    as (_ & (st3 & _ & Hfailed & _) & _).
  split; [apply Hcheck|]. split; [|split].
  - exists st1. split; [exact Hdownload|]. rewrite Heffects.
    apply in_or_app. right. right. left. reflexivity.
  - exists st3. exact Hfailed.
  - rewrite Hinstall. reflexivity.
Defined.

End DevModeFacts.

(** ** The downloader *)

Section DownloadFacts.
Import JS Download Transfer Sample.

(** What [https.get] does with an address: given, not modelled. *)
Variable https_get : string -> Outcome unit.

Local Abbreviation makeRequest := (Download.makeRequest https_get).
Local Abbreviation step := (Download.step https_get).
Local Abbreviation run := (Download.run https_get).
Local Abbreviation downloadFile := (Download.downloadFile https_get).

Lemma run_app (st : State) (es1 es2 : list Event) :
  run st (es1 ++ es2) = run (run st es1) es2.
Proof. apply fold_left_app. Qed.

(** A redirect leaves the file, the listeners, the counters and the
    promise alone, whether its location is followed or not. *)
Lemma makeRequest_frame (l : string) (st : State) :
  startTime (makeRequest l st) = startTime st /\
  fileOpen (makeRequest l st) = fileOpen st /\
  onDisk (makeRequest l st) = onDisk st /\
  fileListeners (makeRequest l st) = fileListeners st /\
  responseListeners (makeRequest l st) = responseListeners st /\
  downloadedBytes (makeRequest l st) = downloadedBytes st /\
  reported (makeRequest l st) = reported st /\
  promise (makeRequest l st) = promise st.
Proof. unfold Download.makeRequest. destruct (https_get l); repeat split; reflexivity. Qed.

Lemma run_hops (hops : list Hop) (st : State) :
  Forall redirects hops ->
  let st' := run st (map hop_response hops) in
  startTime st' = startTime st /\
  fileOpen st' = fileOpen st /\ onDisk st' = onDisk st /\
  fileListeners st' = fileListeners st /\
  responseListeners st' = responseListeners st /\
  downloadedBytes st' = downloadedBytes st /\
  reported st' = reported st /\ promise st' = promise st.
Proof.
  revert st. induction hops as [|h hops IH]; intros st Hr; cbv zeta.
  - cbn. repeat split; reflexivity.
  - inversion Hr as [|? ? [Hs Hl] Hr']; subst.
    cbn [map run fold_left]. fold (run (step st (hop_response h)) (map hop_response hops)).
    assert (Hstep : step st (hop_response h) = makeRequest (hop_location h) st).
    { unfold hop_response. cbn [step].
      assert (Hc : (hop_status h =? 301) || (hop_status h =? 302) = true).
      { destruct Hs as [->| ->]; reflexivity. }
      rewrite Hc. destruct (String.eqb_spec (hop_location h) ""); [contradiction|].
      reflexivity. }
    rewrite Hstep.
    destruct (IH (makeRequest (hop_location h) st) Hr')
      as (H1 & H2 & H3 & H4 & H5 & H6 & H7 & H8).
    destruct (makeRequest_frame (hop_location h) st)
      as (G1 & G2 & G3 & G4 & G5 & G6 & G7 & G8).
    rewrite H1, H2, H3, H4, H5, H6, H7, H8, G1, G2, G3, G4, G5, G6, G7, G8.
    repeat split; reflexivity.
Qed.





(** The failures the code listens for: a response that is neither a
    followed redirect nor a 200, an error of the request, and an error of
    the write stream once its listener is registered. Each closes the
    file, removes it and rejects the promise. *)
Lemma handled_failures_clean_up (st : State) :
  (forall message : string,
      let st' := step st (RequestError message) in
      fileOpen st' = false /\ onDisk st' = None /\
      promise st' = settle (promise st) (Rejected message)) /\
  (forall message : string,
      fileListeners st = true ->
      let st' := step st (FileError message) in
      fileOpen st' = false /\ onDisk st' = None /\
      promise st' = settle (promise st) (Rejected message)) /\
  (forall (code : Z) (contentLength : option string),
      code <> 200 ->
      let st' := step st (Response code None contentLength) in
      fileOpen st' = false /\ onDisk st' = None /\
      promise st' = settle (promise st)
                      (Rejected ("Download failed: HTTP " +:+ pretty code))).
Proof.
  split; [|split].
  - intros message. cbn. repeat split; reflexivity.
  - intros message Hl. cbn. rewrite Hl. cbn. repeat split; reflexivity.
  - intros code contentLength Hc. cbn.
    destruct ((code =? 301) || (code =? 302)); cbn;
      destruct (Z.eqb_spec code 200); try contradiction; cbn; repeat split; reflexivity.
Qed.

(** After a handled failure nothing that arrives brings the file back. *)
Lemma cleaned_up_stays (events : list Event) (st : State) :
  fileOpen st = false -> onDisk st = None ->
  fileOpen (run st events) = false /\ onDisk (run st events) = None.
Proof.
  revert st. induction events as [|ev events IH]; intros st Ho Hd; [split; assumption|].
  cbn [Download.run fold_left].
  assert (Hstep : fileOpen (step st ev) = false /\ onDisk (step st ev) = None).
  { destruct ev as [code location contentLength|chunk now| |message|message|message];
      cbn [Download.step].
    - destruct (if (code =? 301) || (code =? 302)
                then match location with
                     | Some l => if String.eqb l "" then None else Some l
                     | None => None
                     end
                else None) as [l|].
      + destruct (makeRequest_frame l st) as (_ & -> & -> & _). split; assumption.
      + destruct (negb (code =? 200)); cbn; split; assumption || reflexivity.
    - destruct (responseListeners st); cbn; rewrite ?Ho; split; assumption || reflexivity.
    - rewrite Ho, !andb_false_r. split; assumption.
    - destruct (fileListeners st); cbn; split; assumption || reflexivity.
    - split; reflexivity.
    - split; assumption. }
  apply IH; apply Hstep.
Qed.

End DownloadFacts.

Section DownloadExamples.
Import JS Download Transfer Sample.



(** C2. The claim does not hold of the code, which registers no listener
    for an error of the response stream: when the connection breaks
    after part of the body has arrived, the file handle stays open, the
    partial file stays at [destPath] and the promise is never settled. *)
Theorem response_error_leaves_partial_file :
  let final :=
    downloadFile https_only "https://github.com/a.dmg" "/tmp/a.dmg" 0
      [ Response 200 None (Some "5");
        Data [Byte.x52; Byte.x65; Byte.x64] 1000;
        ResponseError "aborted" ] in
  fileOpen final = true /\
  onDisk final = Some [Byte.x52; Byte.x65; Byte.x64] /\
  promise final = Pending.
Proof.
  cbv zeta. split; [|split]; vm_compute; reflexivity.
Qed.

End DownloadExamples.

(** ** The fallback release source *)

Section FetchFacts.
Import JS GitHub Transfer.

Variable JSON_parse : string -> Outcome jsval.

Lemma fetch_app (st : State) (es1 es2 : list Event) :
  run JSON_parse st (es1 ++ es2) = run JSON_parse (run JSON_parse st es1) es2.
Proof. apply fold_left_app. Qed.

(** The body arrives: the text grows, nothing else changes. *)
Lemma run_data (chunks : list string) (st : State) :
  responded st = true ->
  run JSON_parse st (map Data chunks) =
  {| data := fold_left (fun text chunk => text +:+ chunk) chunks (data st);
     statusCode := statusCode st; responded := true; timer := timer st;
     aborted := aborted st; promise := promise st; logged := logged st |}.
Proof.
  revert st. induction chunks as [|c chunks IH]; intros st Hr.
  - cbn. destruct st; cbn in *. subst. reflexivity.
  - cbn [map run fold_left]. fold (run JSON_parse (step JSON_parse st (Data c)) (map Data chunks)).
    cbn [step]. rewrite Hr. rewrite IH by reflexivity. reflexivity.
Qed.

(** A complete response: its status, its body in chunks, its end. *)
Lemma complete_response (code : Z) (chunks : list string) :
  fetchLatestReleaseFromGitHub JSON_parse (Response code :: map Data chunks ++ [Ended]) =
  on_end JSON_parse
    {| data := joined chunks; statusCode := code; responded := true;
       timer := Some 15000; aborted := false; promise := Pending; logged := [] |}.
Proof.
  unfold fetchLatestReleaseFromGitHub.
  change (Response code :: map Data chunks ++ [Ended])%list
    with ([Response code] ++ map Data chunks ++ [Ended])%list.
  rewrite !fetch_app. cbn [run fold_left step start].
  fold (run JSON_parse) .
  rewrite run_data by reflexivity. reflexivity.
Qed.

(** While the promise is pending the timer has not fired. *)
Lemma pending_timer (events : list Event) :
  promise (fetchLatestReleaseFromGitHub JSON_parse events) = Pending ->
  timer (fetchLatestReleaseFromGitHub JSON_parse events) = Some 15000.
Proof.
  unfold fetchLatestReleaseFromGitHub.
  assert (H : forall st,
             (timer st = Some 15000 \/ promise st <> Pending) ->
             timer (run JSON_parse st events) = Some 15000 \/
             promise (run JSON_parse st events) <> Pending).
  { induction events as [|ev events IH]; intros st Hst; [exact Hst|].
    cbn [run fold_left]. apply IH.
    destruct ev as [code|chunk| |message|message|]; cbn.
    - exact Hst.
    - destruct (responded st); exact Hst.
    - destruct (responded st); [|exact Hst]. unfold on_end.
      destruct (statusCode st =? 200); [|destruct (statusCode st =? 404)]; cbn;
        (destruct Hst as [Hst|Hst]; [left; exact Hst|right]);
        destruct (promise st); cbn; congruence.
    - destruct (responded st); [|exact Hst]. cbn.
      destruct Hst as [Hst|Hst]; [left; exact Hst|right].
      destruct (promise st); cbn; congruence.
    - destruct Hst as [Hst|Hst]; [left; exact Hst|right].
      destruct (promise st); cbn; congruence.
    - destruct (timer st); cbn.
      + right. destruct (promise st); cbn; congruence.
      + destruct Hst as [Hst|Hst]; [discriminate Hst|right; exact Hst]. }
  intros Hp. destruct (H start) as [Ht|Hn]; [left; reflexivity|exact Ht|contradiction].
Qed.

(** What [replace(/^v/, '')] does to each text. *)
Lemma strip_v_other (c : ascii) (rest : string) :
  c <> "v"%char -> strip_v (String c rest) = String c rest.
Proof.
  intros Hc. destruct c as [b0 b1 b2 b3 b4 b5 b6 b7].
  destruct b0, b1, b2, b3, b4, b5, b6, b7; try reflexivity.
  exfalso. apply Hc. reflexivity.
Qed.

Lemma resolved_200 (chunks : list string) (fields : list (string * jsval)) (tag : string) :
  JSON_parse (joined chunks) = Returns (VObj fields) ->
  field "tag_name" fields = VStr tag ->
  promise (fetchLatestReleaseFromGitHub JSON_parse
             (Response 200 :: map Data chunks ++ [Ended])) =
  Resolved (VObj [ ("version", if String.eqb (strip_v tag) ""
                               then field "name" fields
                               else VStr (strip_v tag));
                   ("releaseDate", field "published_at" fields);
                   ("releaseNotes", or_else (field "body" fields) (VStr ""));
                   ("releaseName", field "name" fields) ]).
Proof.
  intros Hparse Htag. rewrite complete_response.
  unfold on_end. cbn [statusCode data promise Z.eqb Pos.eqb settle].
  rewrite Hparse. unfold release_info. cbn [property]. rewrite Htag. cbn [replace_v].
  unfold or_else at 1. cbn [truthy]. destruct (String.eqb (strip_v tag) ""); reflexivity.
Qed.

(** C7, as amended. A 200 response whose body parses to an object with a
    tag name resolves with a version, the publish timestamp, the notes
    and the release name. The version is the tag without its leading v
    when the tag starts with v and is longer; it is the tag as it is when
    the tag starts with another character; and it is the release name
    when the tag is empty or the single letter v. A 404 response rejects
    with the no-releases error; any other status rejects with an error
    carrying the status code; and the 15 s timer, firing while the
    promise is pending, aborts the request and rejects with the timeout
    error. *)
Theorem fetch_outcomes :
  (forall (chunks : list string) (fields : list (string * jsval)) (tag : string),
      JSON_parse (joined chunks) = Returns (VObj fields) ->
      field "tag_name" fields = VStr tag ->
      exists version : jsval,
        promise (fetchLatestReleaseFromGitHub JSON_parse
                   (Response 200 :: map Data chunks ++ [Ended])) =
        Resolved (VObj [ ("version", version);
                         ("releaseDate", field "published_at" fields);
                         ("releaseNotes", or_else (field "body" fields) (VStr ""));
                         ("releaseName", field "name" fields) ]) /\
        (forall rest : string,
            tag = String "v" rest -> rest <> "" -> version = VStr rest) /\
        (forall (c : ascii) (rest : string),
            tag = String c rest -> c <> "v"%char -> version = VStr tag) /\
        (tag = "v" \/ tag = "" -> version = field "name" fields)) /\
  (forall chunks : list string,
      promise (fetchLatestReleaseFromGitHub JSON_parse
                 (Response 404 :: map Data chunks ++ [Ended])) =
      Rejected "No releases found") /\
  (forall (code : Z) (chunks : list string),
      code <> 200 -> code <> 404 ->
      promise (fetchLatestReleaseFromGitHub JSON_parse
                 (Response code :: map Data chunks ++ [Ended])) =
      Rejected ("GitHub API error: " +:+ pretty code)) /\
  timer (start) = Some 15000 /\
  (forall events : list Event,
      promise (fetchLatestReleaseFromGitHub JSON_parse events) = Pending ->
      let st := fetchLatestReleaseFromGitHub JSON_parse (events ++ [TimerFired]) in
      promise st = Rejected "Request timeout" /\ aborted st = true).
Proof.
  split; [|split; [|split; [|split]]].
  - intros chunks fields tag Hparse Htag.
    rewrite (resolved_200 chunks fields tag Hparse Htag).
    eexists. split; [|split; [|split]].
    + reflexivity.
    + intros rest -> Hrest. cbn [strip_v].
      destruct rest as [|c rest]; [contradiction|reflexivity].
    + intros c rest -> Hc. rewrite (strip_v_other c rest Hc). reflexivity.
    + intros [-> | ->]; reflexivity.
  - intros chunks. rewrite complete_response. reflexivity.
  - intros code chunks H200 H404. rewrite complete_response.
    unfold on_end. cbn [statusCode].
    destruct (Z.eqb_spec code 200); [contradiction|].
    destruct (Z.eqb_spec code 404); [contradiction|]. reflexivity.
  - reflexivity.
  - intros events Hp. cbv zeta. unfold fetchLatestReleaseFromGitHub in *.
    rewrite fetch_app. cbn [run fold_left step].
    pose proof (pending_timer events Hp) as Ht.
    unfold fetchLatestReleaseFromGitHub in Ht. rewrite Ht. cbn. rewrite Hp.
    split; reflexivity.
Qed.

End FetchFacts.

Section FetchExamples.
Import JS GitHub Transfer Sample.

(** The release v1.4.2, with a parser that knows this one body, and the
    release 2.0.0, tagged without the v. *)
Lemma fetch_outcomes_witness :
  promise (fetchLatestReleaseFromGitHub
             (fun _ : string =>
                Returns (VObj [ ("tag_name", VStr "v1.4.2"); ("name", VStr "Spring");
                                ("published_at", VStr "2024-03-01T08:00:00Z") ]))
             [Response 200; Data "{ ... }"; Ended]) =
  Resolved (VObj [ ("version", VStr "1.4.2");
                   ("releaseDate", VStr "2024-03-01T08:00:00Z");
                   ("releaseNotes", VStr "");
                   ("releaseName", VStr "Spring") ]) /\
  promise (fetchLatestReleaseFromGitHub
             (fun _ : string =>
                Returns (VObj [ ("tag_name", VStr "2.0.0"); ("name", VStr "Summer");
                                ("published_at", VStr "2024-06-01T08:00:00Z");
                                ("body", VStr "Notes") ]))
             [Response 200; Data "{ ... }"; Ended]) =
  Resolved (VObj [ ("version", VStr "2.0.0");
                   ("releaseDate", VStr "2024-06-01T08:00:00Z");
                   ("releaseNotes", VStr "Notes");
                   ("releaseName", VStr "Summer") ]).
Proof.
  split.
  - destruct (proj1 (fetch_outcomes
                       (fun _ : string =>
                          Returns (VObj [ ("tag_name", VStr "v1.4.2");
                                          ("name", VStr "Spring");
                                          ("published_at",
                                           VStr "2024-03-01T08:00:00Z") ])))
                [ "{ ... }" ]
                [ ("tag_name", VStr "v1.4.2"); ("name", VStr "Spring");
                  ("published_at", VStr "2024-03-01T08:00:00Z") ] "v1.4.2"
                eq_refl eq_refl) as (version & Hp & Hv & _).
    rewrite (Hv "1.4.2" eq_refl) in Hp by discriminate. exact Hp.
  - destruct (proj1 (fetch_outcomes
                       (fun _ : string =>
                          Returns (VObj [ ("tag_name", VStr "2.0.0");
                                          ("name", VStr "Summer");
                                          ("published_at",
                                           VStr "2024-06-01T08:00:00Z");
                                          ("body", VStr "Notes") ])))
                [ "{ ... }" ]
                [ ("tag_name", VStr "2.0.0"); ("name", VStr "Summer");
                  ("published_at", VStr "2024-06-01T08:00:00Z");
                  ("body", VStr "Notes") ] "2.0.0"
                eq_refl eq_refl) as (version & Hp & _ & Hv & _).
    rewrite (Hv "2"%char ".0.0" eq_refl) in Hp by discriminate. exact Hp.
Defined.

(** C7 as stated fails on two 200 responses: for a release tagged with
    the single letter v the version is not the stripped tag, which is
    empty, but the release name; and a body that does not parse rejects
    the promise with the parser's error. *)
Lemma fetch_200_outside_the_claim :
  strip_v "v" = "" /\
  promise (fetchLatestReleaseFromGitHub (fun _ => Returns release_tagged_v)
             [Response 200; Data "{ ... }"; Ended]) =
  Resolved (VObj [ ("version", VStr "First release");
                   ("releaseDate", VStr "2024-01-15T10:00:00Z");
                   ("releaseNotes", VStr "");
                   ("releaseName", VStr "First release") ]) /\
  promise (fetchLatestReleaseFromGitHub
             (fun _ => Throws "Unexpected token < in JSON at position 0")
             [Response 200; Data "<html>"; Ended]) =
  Rejected "Unexpected token < in JSON at position 0".
Proof. split; [|split]; vm_compute; reflexivity. Qed.

End FetchExamples.

(** * Further properties of the code *)

(** ** The downloader: failures and progress *)

Section DownloadMore.
Import JS Download Transfer Sample.

(** What [https.get] does with an address: given, not modelled. *)
Variable https_get : string -> Outcome unit.

Local Abbreviation makeRequest := (Download.makeRequest https_get).
Local Abbreviation step := (Download.step https_get).
Local Abbreviation run := (Download.run https_get).
Local Abbreviation downloadFile := (Download.downloadFile https_get).

Lemma settle_settled {A : Type} (p result : Promise A) :
  p <> Pending -> settle p result = p.
Proof. destruct p; [congruence| |]; reflexivity. Qed.

Lemma step_promise_settled (st : State) (ev : Event) :
  promise st <> Pending -> promise (step st ev) = promise st.
Proof.
  intros Hp.
  destruct ev as [code location contentLength|chunk t| |message|message|message]; cbn.
  - destruct ((code =? 301) || (code =? 302));
      [destruct location as [l|];
       [destruct (String.eqb l ""); [|unfold Download.makeRequest; destruct (https_get l)]|]|];
      cbn; destruct (negb (code =? 200)); cbn; rewrite ?settle_settled by exact Hp;
      reflexivity.
  - destruct (responseListeners st); reflexivity.
  - destruct (responseListeners st && fileListeners st && fileOpen st); cbn;
      rewrite ?settle_settled by exact Hp; reflexivity.
  - destruct (fileListeners st); cbn; rewrite ?settle_settled by exact Hp; reflexivity.
  - apply settle_settled, Hp.
  - reflexivity.
Qed.

(** A promise that has been settled is not changed by what arrives later. *)
Lemma run_promise_settled (events : list Event) (st : State) :
  promise st <> Pending -> promise (run st events) = promise st.
Proof.
  revert st. induction events as [|ev events IH]; intros st Hp; [reflexivity|].
  cbn [run fold_left]. fold (run (step st ev) events).
  rewrite IH; rewrite step_promise_settled by exact Hp; [reflexivity|exact Hp].
Qed.

(** After a failure the code handles, the outcome is final. *)
Lemma failed_for_good (message : string) (st : State) (rest : list Event) :
  promise st = Pending ->
  let final := run (fail message st) rest in
  promise final = Rejected message /\ fileOpen final = false /\ onDisk final = None.
Proof.
  intros Hp. cbv zeta.
  assert (Hf : promise (fail message st) = Rejected message) by (cbn; rewrite Hp; reflexivity).
  split.
  - rewrite run_promise_settled; [exact Hf|]. rewrite Hf. discriminate.
  - apply cleaned_up_stays; reflexivity.
Qed.

(** X1. A response that ends the chain of redirects with a status other
    than 200 - a 301 or 302 without a location included - fails the
    download: the promise is rejected with the status in its message, the
    file is closed and removed, and nothing that arrives afterwards
    changes any of this. *)
Theorem terminal_status_fails (url destPath : string) (now : Z) (hops : list Hop)
    (code : Z) (location contentLength : option string) (rest : list Event) :
  Forall redirects hops ->
  code <> 200 ->
  (code = 301 \/ code = 302 -> location = None \/ location = Some "") ->
  let final :=
    downloadFile url destPath now
      (map hop_response hops ++ Response code location contentLength :: rest) in
  promise final = Rejected ("Download failed: HTTP " +:+ pretty code) /\
  fileOpen final = false /\
  onDisk final = None.
Proof.
  intros Hr Hcode Hloc. cbv zeta. unfold downloadFile. rewrite run_app.
  destruct (run_hops https_get hops (start url destPath now) Hr)
    as (_ & _ & _ & _ & _ & _ & _ & Hp).
  cbv zeta in Hp. set (st1 := run (start url destPath now) (map hop_response hops)) in *.
  cbn [run fold_left]. fold (run (step st1 (Response code location contentLength)) rest).
  assert (Hstep : step st1 (Response code location contentLength) =
                  fail ("Download failed: HTTP " +:+ pretty code) st1).
  { cbn [step]. destruct (Z.eqb_spec code 200) as [|_]; [contradiction|].
    destruct ((code =? 301) || (code =? 302)) eqn:Hc; [|reflexivity].
    assert (H : code = 301 \/ code = 302).
    { apply orb_true_iff in Hc as [Hc|Hc]; apply Z.eqb_eq in Hc; auto. }
    destruct (Hloc H) as [-> | ->]; reflexivity. }
  rewrite Hstep. apply failed_for_good. exact Hp.
Qed.

Lemma step_fileListeners (st : State) (ev : Event) :
  fileListeners st = true -> fileListeners (step st ev) = true.
Proof.
  intros Hl.
  destruct ev as [code location contentLength|chunk t| |message|message|message]; cbn.
  - destruct ((code =? 301) || (code =? 302));
      [destruct location as [l|];
       [destruct (String.eqb l ""); [|unfold Download.makeRequest; destruct (https_get l)]|]|];
      cbn; destruct (negb (code =? 200)); cbn; assumption || reflexivity.
  - destruct (responseListeners st); cbn; assumption.
  - destruct (responseListeners st && fileListeners st && fileOpen st); cbn; assumption.
  - rewrite Hl. exact Hl.
  - assumption.
  - assumption.
Qed.

Lemma run_fileListeners (events : list Event) (st : State) :
  fileListeners st = true -> fileListeners (run st events) = true.
Proof.
  revert st. induction events as [|ev events IH]; intros st Hl; [exact Hl|].
  cbn [run fold_left]. apply IH, step_fileListeners, Hl.
Qed.

(** X2. While the download is pending, an error of the request fails it
    at any moment, and an error of the write stream fails it once a 200
    response has been accepted: the promise is rejected with the error's
    message, the file is closed and removed, and nothing that arrives
    afterwards changes any of this. *)
Theorem stream_errors_fail (url destPath : string) (now : Z) :
  (forall (events rest : list Event) (message : string),
      promise (downloadFile url destPath now events) = Pending ->
      let final := downloadFile url destPath now (events ++ RequestError message :: rest) in
      promise final = Rejected message /\ fileOpen final = false /\ onDisk final = None) /\
  (forall (before after rest : list Event) (location contentLength : option string)
          (message : string),
      promise (downloadFile url destPath now
                 (before ++ Response 200 location contentLength :: after)) = Pending ->
      let final :=
        downloadFile url destPath now
          ((before ++ Response 200 location contentLength :: after) ++
           FileError message :: rest) in
      promise final = Rejected message /\ fileOpen final = false /\ onDisk final = None).
Proof.
  split.
  - intros events rest message Hp. cbv zeta. unfold downloadFile in *.
    rewrite run_app. cbn [run fold_left].
    apply (failed_for_good message _ rest). exact Hp.
  - intros before after rest location contentLength message Hp. cbv zeta.
    unfold downloadFile in *. rewrite run_app.
    assert (Hl : fileListeners (run (start url destPath now)
                                  (before ++ Response 200 location contentLength :: after))
                 = true).
    { rewrite run_app. cbn [run fold_left].
      apply run_fileListeners. cbn.
      destruct location as [l|]; [destruct (String.eqb l "")|]; reflexivity. }
    set (st := run (start url destPath now)
                 (before ++ Response 200 location contentLength :: after)) in *.
    cbn [run fold_left].
    cbn [step]. rewrite Hl. apply (failed_for_good message st rest). exact Hp.
Qed.

End DownloadMore.

Section DownloadMoreExamples.
Import JS Download Transfer Sample.

Lemma terminal_status_fails_witness :
  let final :=
    downloadFile https_only "https://github.com/a.dmg" "/tmp/a.dmg" 0
      (map hop_response [ (302, "https://cdn.example/a.dmg", None) ] ++
       Response 404 None None :: [ Data [Byte.x52] 10; Finished ]) in
  promise final = Rejected "Download failed: HTTP 404" /\
  fileOpen final = false /\ onDisk final = None.
Proof.
  apply (terminal_status_fails https_only "https://github.com/a.dmg" "/tmp/a.dmg" 0
           [ (302, "https://cdn.example/a.dmg", None) ] 404 None None
           [ Data [Byte.x52] 10; Finished ]).
  - constructor; [|constructor]. split; [right; reflexivity|discriminate].
  - discriminate.
  - intros [H|H]; discriminate H.
Defined.

Lemma stream_errors_fail_witness :
  let final :=
    downloadFile https_only "https://github.com/a.dmg" "/tmp/a.dmg" 0
      ([ Response 200 None (Some "5"); Data [Byte.x52] 10 ] ++
       RequestError "socket hang up" :: [ Finished ]) in
  promise final = Rejected "socket hang up" /\ fileOpen final = false /\ onDisk final = None.
Proof.
  apply (proj1 (stream_errors_fail https_only "https://github.com/a.dmg" "/tmp/a.dmg" 0)
           [ Response 200 None (Some "5"); Data [Byte.x52] 10 ] [ Finished ]
           "socket hang up").
  reflexivity.
Defined.

End DownloadMoreExamples.

Section DownloadProgress.
Import JS Download Transfer Sample VersionSpec Counters.

(** What [https.get] does with an address: given, not modelled. *)
Variable https_get : string -> Outcome unit.

Local Abbreviation makeRequest := (Download.makeRequest https_get).
Local Abbreviation step := (Download.step https_get).
Local Abbreviation run := (Download.run https_get).
Local Abbreviation downloadFile := (Download.downloadFile https_get).

Lemma step_counted (st : State) (ev : Event) : counted st -> counted (step st ev).
Proof.
  intros [Hfile Hlast].
  destruct ev as [code location contentLength|chunk t| |message|message|message]; cbn.
  - destruct ((code =? 301) || (code =? 302));
      [destruct location as [l|];
       [destruct (String.eqb l ""); [|unfold Download.makeRequest; destruct (https_get l)]|]|];
      cbn; destruct (negb (code =? 200)); cbn; split; cbn; try assumption; discriminate.
  - destruct (responseListeners st); [|split; assumption].
    split; cbn.
    + intros Ho. rewrite Ho. destruct (Hfile Ho) as [written [-> Hlen]].
      eexists. split; [reflexivity|]. rewrite length_app. lia.
    + rewrite last_snoc. reflexivity.
  - destruct (responseListeners st && fileListeners st && fileOpen st);
      [|split; assumption]. split; cbn; [discriminate|assumption].
  - destruct (fileListeners st); [|split; assumption].
    split; cbn; [discriminate|assumption].
  - split; cbn; [discriminate|assumption].
  - split; assumption.
Qed.

Lemma run_counted (events : list Event) (st : State) :
  counted st -> counted (run st events).
Proof.
  revert st. induction events as [|ev events IH]; intros st H; [exact H|].
  cbn [run fold_left]. apply IH, step_counted, H.
Qed.

(** X3. Whatever has been received, when the end of the body resolves
    the promise the file is closed, it is still at [destPath], and it
    holds exactly as many bytes as the last progress report gave as
    transferred (none when there was no report). *)
Theorem resolved_with_all_bytes (url destPath : string) (now : Z) (events : list Event) :
  promise (downloadFile url destPath now events) = Pending ->
  let final := downloadFile url destPath now (events ++ [Finished]) in
  promise final = Resolved tt ->
  fileOpen final = false /\
  exists written : list Byte.byte,
    onDisk final = Some written /\
    Z.of_nat (length written) = downloadedBytes final /\
    match last (reported final) with
    | Some p => transferred p = Z.of_nat (length written)
    | None => written = []
    end.
Proof.
  intros Hp. cbv zeta. unfold downloadFile in *. rewrite run_app.
  assert (Hc : counted (run (start url destPath now) events)).
  { apply run_counted. split; cbn; [|reflexivity].
    intros _. exists []. split; reflexivity. }
  set (st := run (start url destPath now) events) in *.
  cbn [run fold_left step].
  destruct (responseListeners st && fileListeners st && fileOpen st) eqn:E.
  - intros _. apply andb_true_iff in E as [_ Ho].
    destruct Hc as [Hfile Hlast]. destruct (Hfile Ho) as [written [Hd Hlen]].
    split; [reflexivity|]. exists written. cbn. split; [exact Hd|]. split; [exact Hlen|].
    destruct (last (reported st)) as [p|]; [congruence|].
    destruct written; [reflexivity|]. cbn in Hlen. lia.
  - rewrite Hp. discriminate.
Qed.

(** The body of an accepted response, seen from its reports. *)
Lemma run_chunks_reports (chunks : list Chunk) (st : State) :
  responseListeners st = true ->
  let st' := run st (map chunk_data chunks) in
  totalBytes st' = totalBytes st /\
  downloadedBytes st' = downloadedBytes st + Z.of_nat (length (body chunks)) /\
  exists new : list Progress,
    reported st' = (reported st ++ new)%list /\
    length new = length chunks /\
    Forall (fun p =>
              total p = totalBytes st /\
              percent p =
              if num_gt (totalBytes st) zero
              then num_mul (num_div (of_Z (transferred p)) (totalBytes st)) (of_Z 100)
              else zero) new /\
    match last new with
    | Some p => transferred p = downloadedBytes st'
    | None => chunks = []
    end.
Proof.
  revert st. induction chunks as [|c chunks IH]; intros st Hl; cbv zeta.
  - cbn. rewrite Z.add_0_r. repeat split. exists []. rewrite app_nil_r.
    repeat split; constructor.
  - cbn [map run fold_left]. fold (run (step st (chunk_data c)) (map chunk_data chunks)).
    assert (Hstep : step st (chunk_data c) = receive (fst c) (snd c) st).
    { unfold chunk_data. cbn [step]. rewrite Hl. reflexivity. }
    rewrite Hstep.
    destruct (IH (receive (fst c) (snd c) st) Hl) as (Ht & Hd & new & Hr & Hn & Hall & Hlast).
    cbv zeta in *. rewrite Ht, Hd. cbn [totalBytes downloadedBytes receive].
    split; [reflexivity|]. split.
    { unfold body. cbn [map concat]. rewrite length_app. lia. }
    eexists (_ :: new). split; [|split; [|split]].
    + rewrite Hr. cbn [reported receive]. rewrite <- app_assoc. reflexivity.
    + cbn. rewrite Hn. reflexivity.
    + constructor; [split; reflexivity|exact Hall].
    + rewrite Hd in Hlast. cbn [downloadedBytes receive] in Hlast.
      rewrite last_cons. destruct (last new) as [p|]; [exact Hlast|].
      subst chunks. cbn. lia.
Qed.

(** X4. When the 200 response has no content-length header, or an empty
    one, every progress report of the transfer has total 0 and percent 0,
    however many bytes have arrived. *)
Theorem unknown_length_reports_zero (url destPath : string) (now : Z) (hops : list Hop)
    (location contentLength : option string) (chunks : list Chunk) :
  Forall redirects hops ->
  contentLength = None \/ contentLength = Some "" ->
  let st :=
    downloadFile url destPath now
      (map hop_response hops ++ [Response 200 location contentLength] ++
       map chunk_data chunks) in
  length (reported st) = length chunks /\
  Forall (fun p => total p = zero /\ percent p = zero) (reported st).
Proof.
  intros Hr Hcl. cbv zeta. unfold downloadFile. rewrite !run_app.
  destruct (run_hops https_get hops (start url destPath now) Hr)
    as (_ & _ & _ & _ & _ & _ & H7 & _).
  cbv zeta in H7. set (st1 := run (start url destPath now) (map hop_response hops)) in *.
  assert (Hacc : run st1 [Response 200 location contentLength] = accept contentLength st1).
  { cbn. destruct location as [l|]; [destruct (String.eqb l "")|]; reflexivity. }
  rewrite Hacc.
  destruct (run_chunks_reports chunks (accept contentLength st1) eq_refl)
    as (_ & _ & new & Hrep & Hn & Hall & _).
  cbv zeta in *. rewrite Hrep. cbn [reported accept]. rewrite H7. cbn [reported start app].
  split; [exact Hn|].
  assert (Htotal : totalBytes (accept contentLength st1) = zero).
  { destruct Hcl as [-> | ->]; reflexivity. }
  rewrite Htotal in Hall.
  eapply List.Forall_impl; [|exact Hall]. cbv beta. intros p [H1 H2].
  split; [exact H1|exact H2].
Qed.

End DownloadProgress.

Section DownloadProgressExamples.
Import JS Download Transfer Sample VersionSpec Counters.

Lemma resolved_with_all_bytes_witness :
  let final :=
    downloadFile https_only "https://github.com/a.dmg" "/tmp/a.dmg" 0
      ([ Response 200 None None; Data [Byte.x52; Byte.x65] 10; Data [Byte.x64] 20 ] ++
       [ Finished ]) in
  fileOpen final = false /\
  exists written : list Byte.byte,
    onDisk final = Some written /\
    Z.of_nat (length written) = downloadedBytes final /\
    match last (reported final) with
    | Some p => transferred p = Z.of_nat (length written)
    | None => written = []
    end.
Proof.
  apply (resolved_with_all_bytes https_only "https://github.com/a.dmg" "/tmp/a.dmg" 0
           [ Response 200 None None; Data [Byte.x52; Byte.x65] 10; Data [Byte.x64] 20 ]);
    reflexivity.
Defined.

Lemma unknown_length_reports_zero_witness :
  let st :=
    downloadFile https_only "https://github.com/a.dmg" "/tmp/a.dmg" 0
      (map hop_response [] ++ [Response 200 None None] ++ map chunk_data two_chunks) in
  length (reported st) = length two_chunks /\
  Forall (fun p => total p = zero /\ percent p = zero) (reported st).
Proof.
  apply (unknown_length_reports_zero https_only "https://github.com/a.dmg" "/tmp/a.dmg" 0 []
           None None two_chunks).
  - constructor.
  - left. reflexivity.
Defined.

End DownloadProgressExamples.

Section DownloadComplete.
Import JS Download Transfer Sample VersionSpec.

(** What [https.get] does with an address: given, not modelled. *)
Variable https_get : string -> Outcome unit.

Local Abbreviation makeRequest := (Download.makeRequest https_get).
Local Abbreviation step := (Download.step https_get).
Local Abbreviation run := (Download.run https_get).
Local Abbreviation downloadFile := (Download.downloadFile https_get).

Lemma parseInt10_digits (header : string) (n : Z) :
  segment_number header = Some n -> parseInt10 header = of_Z n.
Proof.
  destruct header as [|c r]; [discriminate|]. unfold segment_number. intros H.
  assert (Hrd := read_digits_all _ 0 0 _ H).
  cbn in H. destruct (decimal_digit c) as [d|] eqn:Hd; [|discriminate].
  destruct (digit_char c d Hd) as (_ & _ & Hws & Hsign & _).
  unfold parseInt10. cbn [trim_start]. rewrite Hws, Hsign, Hrd.
  assert (Hn : (0 + Z.of_nat (String.length (String c r)) =? 0) = false).
  { apply Z.eqb_neq. cbn [String.length]. lia. }
  rewrite Hn. reflexivity.
Qed.

Lemma round_pos_same (p : positive) : round_pos p p = integer 1.
Proof.
  unfold round_pos. rewrite Z.sub_diag.
  assert (Hle : pow2_le 0 (Zpos p) (Zpos p) = true).
  { unfold pow2_le. cbn [Z.leb Z.compare]. apply Z.leb_le. change (2 ^ 0) with 1. lia. }
  rewrite Hle. change (Z.max 0 (-1022)) with 0. change (0 - 52) with (-52).
  change (0 <=? -52) with false. cbv iota.
  rewrite (Z.mul_comm (Zpos p)), Z.div_mul, Z.mod_mul by discriminate.
  change (- -52) with 52.
  assert (Hlt : (2 * 0 <? Zpos p) = true) by (apply Z.ltb_lt; lia).
  rewrite Hlt. vm_compute. reflexivity.
Qed.

Lemma num_div_same (n : Z) : 0 < n -> num_div (integer n) (integer n) = integer 1.
Proof.
  intros Hn. destruct n as [|p|p]; try lia.
  unfold integer at 1 2. cbn [num_div]. unfold is_zero, inject_Z. cbn [Qnum Z.eqb].
  unfold of_Q, Qdiv, Qinv, Qmult. cbn [Qnum Qden].
  rewrite Z.mul_1_r, Pos.mul_1_l.
  cbn [round_double]. apply round_pos_same.
Qed.

(** X5. When the content-length header of the 200 response is a decimal
    number and the body that has arrived has exactly that many bytes
    (more than none, fewer than 2^53), the last progress report says that
    number as transferred and as total, and 100 percent exactly. *)
Theorem complete_body_reports_100 (url destPath : string) (now : Z) (hops : list Hop)
    (location : option string) (header : string) (n : Z) (chunks : list Chunk) :
  Forall redirects hops ->
  segment_number header = Some n ->
  0 < n < 2 ^ 53 ->
  Z.of_nat (length (body chunks)) = n ->
  let st :=
    downloadFile url destPath now
      (map hop_response hops ++ [Response 200 location (Some header)] ++
       map chunk_data chunks) in
  exists p : Progress,
    last (reported st) = Some p /\
    transferred p = n /\ total p = integer n /\ percent p = integer 100.
Proof.
  intros Hr Hh Hn Hlen. cbv zeta. unfold downloadFile. rewrite !run_app.
  destruct (run_hops https_get hops (start url destPath now) Hr)
    as (_ & _ & _ & _ & _ & H6 & H7 & _).
  cbv zeta in H6, H7.
  set (st1 := run (start url destPath now) (map hop_response hops)) in *.
  assert (Hacc : run st1 [Response 200 location (Some header)] = accept (Some header) st1).
  { cbn. destruct location as [l|]; [destruct (String.eqb l "")|]; reflexivity. }
  rewrite Hacc.
  assert (Htotal : totalBytes (accept (Some header) st1) = integer n).
  { cbn. destruct (String.eqb_spec header "") as [->|_]; [discriminate Hh|].
    rewrite (parseInt10_digits _ _ Hh). apply of_Z_exact. lia. }
  destruct (run_chunks_reports https_get chunks (accept (Some header) st1) eq_refl)
    as (_ & Hd & new & Hrep & _ & Hall & Hlast).
  cbv zeta in *. cbn [downloadedBytes accept] in Hd. rewrite H6 in Hd. cbn in Hd.
  rewrite Hlen in Hd. rewrite Hd in Hlast.
  destruct (last new) as [p|] eqn:El.
  - exists p. rewrite Hrep. cbn [reported accept]. rewrite H7. cbn [reported start app].
    split; [exact El|]. split; [exact Hlast|].
    apply last_Some in El as [new' ->].
    apply Forall_app in Hall as [_ Hp]. apply List.Forall_inv in Hp as [Ht Hpc].
    rewrite Htotal in Ht, Hpc. split; [exact Ht|].
    rewrite Hpc, Hlast.
    assert (Hgt : num_gt (integer n) zero = true).
    { unfold num_gt. change zero with (integer 0). rewrite num_lt_integer.
      apply Z.ltb_lt. lia. }
    rewrite Hgt, Z.add_0_l, (of_Z_exact n) by lia. fold (integer n).
    rewrite (num_div_same n) by lia.
    rewrite (integer_of_Z 100) by (vm_compute; split; congruence).
    apply num_mul_integer. vm_compute; split; congruence.
  - subst chunks. cbn in Hlen. lia.
Qed.

End DownloadComplete.

Section DownloadCompleteExamples.
Import JS Download Transfer Sample VersionSpec.

Lemma complete_body_reports_100_witness :
  let st :=
    downloadFile https_only "https://github.com/a.dmg" "/tmp/a.dmg" 0
      (map hop_response [] ++ [Response 200 None (Some "5")] ++ map chunk_data two_chunks) in
  exists p : Progress,
    last (reported st) = Some p /\
    transferred p = 5 /\ total p = integer 5 /\ percent p = integer 100.
Proof.
  apply (complete_body_reports_100 https_only "https://github.com/a.dmg" "/tmp/a.dmg" 0 []
           None "5" 5 two_chunks).
  - constructor.
  - reflexivity.
  - split; [lia|reflexivity].
  - reflexivity.
Defined.

End DownloadCompleteExamples.

(** ** The fallback release source: outcomes *)

Section FetchMore.
Import JS GitHub Transfer.

Variable JSON_parse : string -> Outcome jsval.

Lemma on_end_promise_settled (st : State) :
  promise st <> Pending -> promise (on_end JSON_parse st) = promise st.
Proof.
  intros Hp. unfold on_end.
  destruct (statusCode st =? 200); [|destruct (statusCode st =? 404)]; cbn;
    destruct (promise st); cbn; congruence.
Qed.

Lemma fetch_step_settled (st : State) (ev : Event) :
  promise st <> Pending -> promise (step JSON_parse st ev) = promise st.
Proof.
  intros Hp. destruct ev as [code|chunk| |message|message|]; cbn.
  - reflexivity.
  - destruct (responded st); reflexivity.
  - destruct (responded st); [apply on_end_promise_settled, Hp|reflexivity].
  - destruct (responded st); [|reflexivity]. cbn. destruct (promise st); cbn; congruence.
  - destruct (promise st); cbn; congruence.
  - destruct (timer st); [|reflexivity]. cbn. destruct (promise st); cbn; congruence.
Qed.

Lemma fetch_run_settled (events : list Event) (st : State) :
  promise st <> Pending -> promise (run JSON_parse st events) = promise st.
Proof.
  revert st. induction events as [|ev events IH]; intros st Hp; [reflexivity|].
  cbn [run fold_left]. fold (run JSON_parse (step JSON_parse st ev) events).
  rewrite IH; rewrite fetch_step_settled by exact Hp; [reflexivity|exact Hp].
Qed.

Lemma fetch_step_aborted (st : State) (ev : Event) :
  (timer st = None -> aborted st = true) ->
  (aborted (step JSON_parse st ev) = true <-> aborted st = true \/ ev = TimerFired) /\
  (timer (step JSON_parse st ev) = None -> aborted (step JSON_parse st ev) = true).
Proof.
  intros Ht.
  destruct ev as [code|chunk| |message|message|]; cbn [step];
    try (destruct (responded st));
    try (unfold on_end; destruct (statusCode st =? 200);
         [|destruct (statusCode st =? 404)]);
    try (destruct (timer st) eqn:E);
    cbn [aborted timer];
    (split; [split; [intros H; auto|intros [H|H]; [auto|try discriminate H; auto]]
            |auto]).
Qed.

Lemma fetch_aborted (events : list Event) (st : State) :
  (timer st = None -> aborted st = true) ->
  (aborted (run JSON_parse st events) = true <->
   aborted st = true \/ In TimerFired events).
Proof.
  revert st. induction events as [|ev events IH]; intros st Ht.
  - cbn. split; [auto|intros [H|[]]; exact H].
  - cbn [run fold_left]. fold (run JSON_parse (step JSON_parse st ev) events).
    destruct (fetch_step_aborted st ev Ht) as [Ha Ht'].
    rewrite (IH _ Ht'), Ha. cbn [In]. split.
    + intros [[H|H]|H]; auto.
    + intros [H|[H|H]]; auto.
Qed.

(** X6. The first of the response's end, an error and the timer decides:
    once the promise is settled nothing that happens afterwards changes
    it. The timer is never cancelled: the request is aborted exactly when
    the timer has fired, be it after the promise was settled. *)
Theorem fetch_first_outcome_stands :
  (forall events rest : list Event,
      promise (fetchLatestReleaseFromGitHub JSON_parse events) <> Pending ->
      promise (fetchLatestReleaseFromGitHub JSON_parse (events ++ rest)) =
      promise (fetchLatestReleaseFromGitHub JSON_parse events)) /\
  (forall events : list Event,
      aborted (fetchLatestReleaseFromGitHub JSON_parse events) = true <->
      In TimerFired events).
Proof.
  split.
  - intros events rest Hp. unfold fetchLatestReleaseFromGitHub in *.
    rewrite fetch_app. apply fetch_run_settled, Hp.
  - intros events. unfold fetchLatestReleaseFromGitHub.
    rewrite fetch_aborted by discriminate. cbn. split; [intros [H|H]|]; auto.
    discriminate H.
Qed.

Lemma resolved_only_after_200 (events : list Event) (st : State) (info : jsval) :
  promise st = Pending ->
  promise (run JSON_parse st events) = Resolved info ->
  In Ended events /\ (statusCode st = 200 \/ In (Response 200) events).
Proof.
  revert st. induction events as [|ev events IH]; intros st Hp Hr.
  - cbn in Hr. congruence.
  - cbn [run fold_left] in Hr. fold (run JSON_parse (step JSON_parse st ev) events) in Hr.
    destruct (promise (step JSON_parse st ev)) as [|info'|message] eqn:Hs.
    + destruct (IH _ Hs Hr) as [He H200]. split; [right; exact He|].
      destruct ev as [code|chunk| |message|message|]; cbn in H200.
      * destruct H200 as [->|H]; [right; left; reflexivity|right; right; exact H].
      * destruct (responded st); cbn in H200;
          (destruct H200 as [H|H]; [left; exact H|right; right; exact H]).
      * destruct (responded st); [unfold on_end in H200;
          destruct (statusCode st =? 200); [|destruct (statusCode st =? 404)]|];
          cbn in H200; (destruct H200 as [H|H]; [left; exact H|right; right; exact H]).
      * destruct (responded st); cbn in H200;
          (destruct H200 as [H|H]; [left; exact H|right; right; exact H]).
      * destruct H200 as [H|H]; [left; exact H|right; right; exact H].
      * destruct (timer st); cbn in H200;
          (destruct H200 as [H|H]; [left; exact H|right; right; exact H]).
    + destruct ev as [code|chunk| |message|message|]; cbn in Hs.
      * congruence.
      * destruct (responded st); cbn in Hs; congruence.
      * split; [left; reflexivity|left].
        destruct (responded st); [|congruence]. unfold on_end in Hs.
        destruct (Z.eqb_spec (statusCode st) 200) as [H|_]; [exact H|].
        destruct (statusCode st =? 404); cbn in Hs; rewrite Hp in Hs; discriminate Hs.
      * destruct (responded st); cbn in Hs; rewrite Hp in Hs; discriminate Hs.
      * rewrite Hp in Hs. discriminate Hs.
      * destruct (timer st); cbn in Hs; rewrite Hp in Hs; discriminate Hs.
    + rewrite fetch_run_settled in Hr by (rewrite Hs; discriminate). congruence.
Qed.

(** X7. The fetch never resolves on anything but a 200 response that has
    ended: if the promise is resolved, a response with status 200 and the
    end of a response are among the events. *)
Theorem fetch_resolves_only_on_200 (events : list Event) (info : jsval) :
  promise (fetchLatestReleaseFromGitHub JSON_parse events) = Resolved info ->
  In (Response 200) events /\ In Ended events.
Proof.
  intros H. destruct (resolved_only_after_200 events start info eq_refl H) as [He [H0|H200]].
  - discriminate H0.
  - split; assumption.
Qed.

(** X8. What a 200 response resolves with when the release is not as
    expected: without a tag name (absent or null) the release name is the
    version; the body, absent or empty, gives empty release notes; and a
    release that is [null], or whose tag name is neither text nor absent,
    rejects the promise instead. *)
Theorem fetch_unexpected_releases (chunks : list string) :
  (forall fields : list (string * jsval),
      JSON_parse (joined chunks) = Returns (VObj fields) ->
      field "tag_name" fields = VUndefined \/ field "tag_name" fields = VNull ->
      exists notes : jsval,
        promise (fetchLatestReleaseFromGitHub JSON_parse
                   (Response 200 :: map Data chunks ++ [Ended])) =
        Resolved (VObj [ ("version", field "name" fields);
                         ("releaseDate", field "published_at" fields);
                         ("releaseNotes", notes);
                         ("releaseName", field "name" fields) ]) /\
        (field "body" fields = VUndefined \/ field "body" fields = VStr "" ->
         notes = VStr "")) /\
  (JSON_parse (joined chunks) = Returns VNull ->
   exists message : string,
     promise (fetchLatestReleaseFromGitHub JSON_parse
                (Response 200 :: map Data chunks ++ [Ended])) = Rejected message) /\
  (forall (fields : list (string * jsval)) (tag : jsval),
      JSON_parse (joined chunks) = Returns (VObj fields) ->
      field "tag_name" fields = tag ->
      (forall s : string, tag <> VStr s) -> tag <> VUndefined -> tag <> VNull ->
      exists message : string,
        promise (fetchLatestReleaseFromGitHub JSON_parse
                   (Response 200 :: map Data chunks ++ [Ended])) = Rejected message).
Proof.
  split; [|split].
  - intros fields Hparse Htag. rewrite complete_response.
    unfold on_end. cbn [statusCode data promise Z.eqb Pos.eqb settle].
    rewrite Hparse. unfold release_info. cbn [property].
    exists (or_else (field "body" fields) (VStr "")). split.
    + destruct Htag as [-> | ->]; reflexivity.
    + intros [-> | ->]; reflexivity.
  - intros Hparse. rewrite complete_response.
    unfold on_end. cbn [statusCode data promise Z.eqb Pos.eqb settle].
    rewrite Hparse. eexists. reflexivity.
  - intros fields tag Hparse Htag Hs Hu Hn. rewrite complete_response.
    unfold on_end. cbn [statusCode data promise Z.eqb Pos.eqb settle].
    rewrite Hparse. unfold release_info. cbn [property]. rewrite Htag.
    destruct tag; try congruence; try (eexists; reflexivity).
Qed.

End FetchMore.

Section FetchMoreExamples.
Import JS GitHub Transfer.

(** An answer of 404, then the timer 15 s later. *)
Lemma fetch_first_outcome_stands_witness :
  promise (fetchLatestReleaseFromGitHub (fun _ => Returns VNull)
             ([Response 404; Ended] ++ [TimerFired])) =
  Rejected "No releases found".
Proof.
  rewrite (proj1 (fetch_first_outcome_stands (fun _ => Returns VNull))
             [Response 404; Ended] [TimerFired]).
  - reflexivity.
  - discriminate.
Defined.

(** A draft release: no tag yet, a name, no body. *)
Lemma fetch_unexpected_releases_witness :
  promise (fetchLatestReleaseFromGitHub
             (fun _ => Returns (VObj [ ("name", VStr "Draft");
                                       ("published_at", VNull) ]))
             (Response 200 :: map Data [ "{ ... }" ] ++ [Ended])) =
  Resolved (VObj [ ("version", VStr "Draft"); ("releaseDate", VNull);
                   ("releaseNotes", VStr ""); ("releaseName", VStr "Draft") ]).
Proof.
  destruct (proj1 (fetch_unexpected_releases
                     (fun _ => Returns (VObj [ ("name", VStr "Draft");
                                               ("published_at", VNull) ]))
                     [ "{ ... }" ])
                  [ ("name", VStr "Draft"); ("published_at", VNull) ]
                  eq_refl (or_introl eq_refl)) as [notes [Hp Hn]].
  rewrite Hp, (Hn (or_introl eq_refl)). reflexivity.
Defined.

(** A release that arrived in one chunk. *)
Lemma fetch_resolves_only_on_200_witness :
  In (Response 200)
     [Response 200; Data "{ ... }"; Ended] /\
  In Ended [Response 200; Data "{ ... }"; Ended].
Proof.
  apply (fetch_resolves_only_on_200
           (fun _ => Returns (VObj [ ("tag_name", VStr "v1.4.2") ]))
           [Response 200; Data "{ ... }"; Ended]
           (VObj [ ("version", VStr "1.4.2"); ("releaseDate", VUndefined);
                   ("releaseNotes", VStr ""); ("releaseName", VUndefined) ])).
  reflexivity.
Defined.

End FetchMoreExamples.

(** ** Version strings that are not dotted numbers *)

Section VersionMore.
Import JS Version VersionSpec VersionOrder VersionText.

Lemma split_concat_free (sep : ascii) (a b : string) :
  split sep a = [a] -> split sep b = [b] -> split sep (a +:+ b) = [a +:+ b].
Proof.
  intros Ha Hb. induction a as [|c a IH]; [exact Hb|].
  cbn [split] in Ha. simpl.
  destruct (Ascii.eqb c sep); [discriminate Ha|].
  destruct (split_nonempty sep a) as [seg [segs E]]. rewrite E in Ha, IH.
  injection Ha as Hseg Hsegs. subst seg segs. rewrite (IH eq_refl). reflexivity.
Qed.

Lemma split_dotted (s : string) (segments : list string) :
  Forall dot_free (s :: segments) -> split "." (dotted (s :: segments)) = s :: segments.
Proof.
  revert s. induction segments as [|s' segments IH]; intros s H.
  - apply List.Forall_inv in H. exact H.
  - change (dotted (s :: s' :: segments)) with (s +:+ String "." (dotted (s' :: segments))).
    rewrite split_app.
    rewrite (List.Forall_inv H : split "." s = [s]).
    rewrite (IH s' (List.Forall_inv_tail H)). reflexivity.
Qed.

Lemma keys_dotted (segments : list string) (i : nat) :
  Forall dot_free segments -> keys (dotted segments) i = count_at segments i.
Proof.
  intros H. unfold keys, key, count_at. destruct segments as [|s segments].
  - cbn [dotted split map]. destruct i; reflexivity.
  - rewrite (split_dotted _ _ H), list_lookup_fmap.
    destruct ((s :: segments) !! i); reflexivity.
Qed.

Lemma count_at_alike (ls ls' : list string) (i : nat) :
  Forall2 (fun a b => counts_as a = counts_as b) ls ls' ->
  count_at ls i = count_at ls' i.
Proof.
  intros H. revert i. induction H as [|a b ls ls' Hab _ IH]; intros i; [reflexivity|].
  destruct i as [|i]; [exact Hab|]. exact (IH i).
Qed.

(** X9. The comparison sees a segment only through the number it counts
    as: two versions whose segments count alike, one by one, compare
    alike with every other pair that does. The empty segment and any
    segment that is no number count as zero, like the segment 0. *)
Theorem segments_count_through_their_numbers (ls ls' cs cs' : list string) :
  Forall dot_free ls -> Forall dot_free ls' ->
  Forall dot_free cs -> Forall dot_free cs' ->
  Forall2 (fun a b => counts_as a = counts_as b) ls ls' ->
  Forall2 (fun a b => counts_as a = counts_as b) cs cs' ->
  isNewerVersion (dotted ls) (dotted cs) = isNewerVersion (dotted ls') (dotted cs') /\
  counts_as "" = counts_as "0" /\
  (forall segment : string, Number segment = NaN -> counts_as segment = counts_as "0").
Proof.
  intros Hl Hl' Hc Hc' Hls Hcs. split; [|split].
  - apply isNewerVersion_ext; intros i; rewrite !keys_dotted by assumption;
      apply count_at_alike; assumption.
  - reflexivity.
  - intros segment H. unfold counts_as. rewrite H. reflexivity.
Qed.

(** 1.beta.4 against 1.2 compares as 1.0.4 against 1.2.0 does. *)
Lemma segments_count_through_their_numbers_witness :
  isNewerVersion (dotted ["1"; "beta"; "4"]) (dotted ["1"; "2"; ""]) =
  isNewerVersion (dotted ["1"; "0"; "4"]) (dotted ["1"; "2"; "0"]).
Proof.
  apply (segments_count_through_their_numbers
           ["1"; "beta"; "4"] ["1"; "0"; "4"] ["1"; "2"; ""] ["1"; "2"; "0"]);
    repeat constructor.
Defined.

Lemma trim_end_suffixed (s rest : string) (acc v : Z) :
  number_of_digits s acc = Some v ->
  exists rest', trim_end (s +:+ String "-" rest) = s +:+ String "-" rest'.
Proof.
  revert acc. induction s as [|c s IH]; intros acc H.
  - change ("" +:+ String "-" rest) with (String "-" rest).
    cbn [trim_end]. change (is_white_space "-") with false.
    destruct (trim_end rest); eexists; reflexivity.
  - cbn in H. destruct (decimal_digit c) as [d|]; [|discriminate].
    destruct (IH _ H) as [rest' E]. exists rest'.
    change (String c s +:+ String "-" rest) with (String c (s +:+ String "-" rest)).
    cbn [trim_end]. rewrite E. destruct s; reflexivity.
Qed.

Lemma read_digits_suffixed (s rest : string) (acc n v : Z) :
  number_of_digits s acc = Some v ->
  read_digits 10 (s +:+ String "-" rest) acc n =
  (v, n + Z.of_nat (String.length s), String "-" rest).
Proof.
  revert acc n. induction s as [|c s IH]; intros acc n H.
  - cbn in H. injection H as ->. cbn [String.length Z.of_nat]. rewrite Z.add_0_r.
    reflexivity.
  - cbn in H. destruct (decimal_digit c) as [d|] eqn:Hd; [|discriminate].
    destruct (digit_char c d Hd) as [Hv _].
    change (String c s +:+ String "-" rest) with (String c (s +:+ String "-" rest)).
    cbn [read_digits]. rewrite Hv.
    rewrite (Z.mul_comm acc 10), (IH _ _ H). f_equal. f_equal.
    cbn [String.length]. lia.
Qed.

Lemma read_non_decimal_suffixed (s rest : string) (v : Z) :
  segment_number s = Some v -> read_non_decimal (s +:+ String "-" rest) = None.
Proof.
  destruct s as [|c [|c2 s]]; [discriminate| |].
  - intros _. simpl. destruct c as [[] [] [] [] [] [] [] []]; reflexivity.
  - simpl. destruct (decimal_digit c) as [d|]; [|discriminate].
    destruct (decimal_digit c2) as [d2|] eqn:Hd2; [|discriminate].
    destruct (digit_char c2 d2 Hd2) as [_ [_ [_ [_ [_ [Hx [Ho [Hb _]]]]]]]].
    intros _. rewrite Hx, Ho, Hb.
    destruct c as [[] [] [] [] [] [] [] []]; reflexivity.
Qed.

(** Digits followed by a hyphen and anything at all are no number. *)
Lemma Number_suffixed (s rest : string) (v : Z) :
  segment_number s = Some v -> Number (s +:+ String "-" rest) = NaN.
Proof.
  intros H. assert (Hs := H). destruct s as [|c s]; [discriminate|].
  unfold segment_number in H.
  destruct (trim_end_suffixed _ rest _ _ H) as [rest' Hte].
  assert (Hnd := read_non_decimal_suffixed _ rest' _ Hs).
  assert (Hrd := read_digits_suffixed _ rest' 0 0 _ H).
  cbn in H. destruct (decimal_digit c) as [d|] eqn:Hd; [|discriminate].
  destruct (digit_char c d Hd) as [_ [_ [Hws [Hsign [Hinf _]]]]].
  unfold Number, trim.
  assert (Hts : trim_start (String c s +:+ String "-" rest) =
                String c s +:+ String "-" rest)
    by (simpl; rewrite Hws; reflexivity).
  rewrite Hts, Hte, Hnd.
  change (String c s +:+ String "-" rest') with (String c (s +:+ String "-" rest')) in *.
  rewrite Hsign, Hinf.
  unfold read_unsigned_decimal. rewrite Hrd.
  assert (Hn : (0 + Z.of_nat (String.length (String c s)) + 0 =? 0) = false).
  { apply Z.eqb_neq. cbn [String.length]. lia. }
  rewrite Hn. reflexivity.
Qed.

Lemma dot_free_digits (s : string) (v : Z) :
  segment_number s = Some v -> dot_free s.
Proof.
  destruct s; [discriminate|]. intros H. exact (split_digits _ _ _ H).
Qed.

(** X10. A pre-release suffix wipes out the segment it is attached to: a
    last segment made of digits, a hyphen and anything without a dot
    counts as zero, so 1.2.4-beta compares like 1.2.0, on either side of
    the comparison. *)
Theorem prerelease_suffix_counts_as_zero
    (segments : list string) (digits suffix other : string) (v : Z) :
  Forall dot_free segments ->
  segment_number digits = Some v ->
  dot_free suffix ->
  isNewerVersion (dotted (segments ++ [digits +:+ String "-" suffix])) other =
  isNewerVersion (dotted (segments ++ ["0"])) other /\
  isNewerVersion other (dotted (segments ++ [digits +:+ String "-" suffix])) =
  isNewerVersion other (dotted (segments ++ ["0"])).
Proof.
  intros Hsegs Hd Hsuffix.
  assert (Hfree : dot_free (digits +:+ String "-" suffix)).
  { apply split_concat_free; [exact (dot_free_digits _ _ Hd)|].
    unfold dot_free in Hsuffix. cbn. rewrite Hsuffix. reflexivity. }
  assert (Hkeys : forall i, keys (dotted (segments ++ [digits +:+ String "-" suffix])) i =
                            keys (dotted (segments ++ ["0"])) i).
  { intros i. rewrite !keys_dotted.
    - apply count_at_alike. apply Forall2_app.
      + clear. induction segments; constructor; [reflexivity|assumption].
      + constructor; [|constructor]. unfold counts_as.
        rewrite (Number_suffixed _ _ _ Hd). reflexivity.
    - apply Forall_app. split; [exact Hsegs|]. constructor; [reflexivity|constructor].
    - apply Forall_app. split; [exact Hsegs|]. constructor; [exact Hfree|constructor]. }
  split; apply isNewerVersion_ext; intros i; auto.
Qed.

(** 1.2.4-beta is not newer than 1.2.3. *)
Lemma prerelease_suffix_counts_as_zero_witness :
  isNewerVersion (dotted (["1"; "2"] ++ ["4" +:+ String "-" "beta"])) "1.2.3" = false.
Proof.
  rewrite (proj1 (prerelease_suffix_counts_as_zero ["1"; "2"] "4" "beta" "1.2.3" 4
                    ltac:(repeat constructor) eq_refl eq_refl)).
  reflexivity.
Defined.

(** A segment that starts with the letter v, in either case, is no number. *)
Lemma Number_v (c : ascii) (rest : string) :
  c = "v"%char \/ c = "V"%char -> Number (String c rest) = NaN.
Proof.
  intros Hc. unfold Number, trim.
  assert (Hts : trim_start (String c rest) = String c rest)
    by (destruct Hc as [-> | ->]; reflexivity).
  assert (Hte : exists rest', trim_end (String c rest) = String c rest').
  { cbn [trim_end]. destruct (trim_end rest); destruct Hc as [-> | ->];
      eexists; reflexivity. }
  destruct Hte as [rest' Hte]. rewrite Hts, Hte.
  destruct Hc as [-> | ->]; reflexivity.
Qed.

(** X11. A tag whose leading letter v was not removed is never newer: a
    version that starts with v or V has a first segment that counts as
    zero, and loses against any current version whose first segment is a
    positive number. *)
Theorem unstripped_version_is_never_newer
    (c : ascii) (rest current first : string) (others : list string) (n : Z) :
  c = "v"%char \/ c = "V"%char ->
  split "." current = first :: others ->
  segment_number first = Some n ->
  0 < n < 2 ^ 53 ->
  isNewerVersion (String c rest) current = false.
Proof.
  intros Hc Hsplit Hfirst Hn.
  apply isNewerVersion_false_iff. intros [k [Hties Hlt]].
  assert (H0 : num_lt (keys (String c rest) 0) (keys current 0) = true).
  { unfold keys, key. rewrite Hsplit.
    assert (Hs : exists seg segs, split "." (String c rest) = String c seg :: segs).
    { cbn [split].
      assert (Hdot : Ascii.eqb c "." = false) by (destruct Hc as [-> | ->]; reflexivity).
      rewrite Hdot. destruct (split_nonempty "." rest) as [seg [segs ->]]. eauto. }
    destruct Hs as [seg [segs ->]]. cbn [map lookup list_lookup].
    rewrite (Number_v c seg Hc), (Number_segment _ _ Hfirst) by lia.
    rewrite or_zero_integer. cbn [or_zero truthy_num].
    change zero with (integer 0). rewrite num_lt_integer. apply Z.ltb_lt. lia. }
  destruct k as [|k].
  - rewrite (num_lt_asym _ _ H0) in Hlt. discriminate Hlt.
  - destruct (Hties 0%nat ltac:(lia)) as [Ht _]. congruence.
Qed.

(** The tag V2.0.0 against the installed 1.4.2. *)
Lemma unstripped_version_is_never_newer_witness :
  isNewerVersion (String "V" "2.0.0") "1.4.2" = false.
Proof.
  apply (unstripped_version_is_never_newer "V" "2.0.0" "1.4.2" "1" ["4"; "2"] 1).
  - right; reflexivity.
  - reflexivity.
  - reflexivity.
  - lia.
Defined.

End VersionMore.

(** ** The main process, one step at a time *)

Section Evolution.
Import JS Updater Scheduler Ipc.

Variable P : Effect -> Prop.
Variable app : App.

Hypothesis P_log : forall (level : Level) (args : list jsval), P (Log level args).
Hypothesis P_external : forall url : string, P (OpenExternal url).
Hypothesis P_path : forall path : string, P (OpenPath path).
Hypothesis P_box : forall message : string, P (ShowMessageBox message).
Hypothesis P_network :
  isDev app = false ->
  P CheckForUpdates /\ P DownloadUpdate /\
  forall url destPath : string, P (DownloadFile url destPath).

Lemma evolves_refl (st : State) : evolves P st st.
Proof.
  unfold evolves, grows. do 6 (split; [reflexivity|]). split; [auto|].
  exists []. rewrite app_nil_r. split; [reflexivity|constructor].
Qed.

Lemma evolves_emit (e : Effect) (st st0 : State) :
  P e -> evolves P st st0 -> evolves P st (emit e st0).
Proof.
  intros He (H1 & H2 & H3 & H4 & H5 & H6 & Hw & new & Hnew & HP).
  unfold evolves, grows. cbn [store timers nextTimer autoCheckTimer
    initialCheckTimeout isFirstStart effects emit].
  do 6 (split; [assumption|]). split; [exact Hw|].
  exists (new ++ [e])%list. rewrite Hnew, app_assoc. split; [reflexivity|].
  apply Forall_app. split; [exact HP|constructor; [exact He|constructor]].
Qed.

Lemma evolves_send (channel : string) (payload : jsval) (st st0 : State) :
  (window_open st = true -> P (Send channel payload)) ->
  evolves P st st0 -> evolves P st (sendToRenderer channel payload st0).
Proof.
  intros He H. unfold sendToRenderer.
  destruct (mainWindow st0) as [[[|]]|] eqn:E; cbn [negb isDestroyed]; try exact H.
  apply evolves_emit; [|exact H]. apply He.
  destruct H as (_ & _ & _ & _ & _ & _ & Hw & _). apply Hw.
  unfold window_open. rewrite E. reflexivity.
Qed.

Lemma evolves_same (st st0 st' : State) :
  store st' = store st0 -> timers st' = timers st0 -> nextTimer st' = nextTimer st0 ->
  autoCheckTimer st' = autoCheckTimer st0 ->
  initialCheckTimeout st' = initialCheckTimeout st0 ->
  isFirstStart st' = isFirstStart st0 ->
  (window_open st' = true -> window_open st0 = true) ->
  effects st' = effects st0 ->
  evolves P st st0 -> evolves P st st'.
Proof.
  intros E1 E2 E3 E4 E5 E6 Ew Ee (H1 & H2 & H3 & H4 & H5 & H6 & Hw & Hnew).
  unfold evolves, grows. rewrite E1, E2, E3, E4, E5, E6, Ee.
  do 6 (split; [assumption|]). split; [auto|exact Hnew].
Qed.

Lemma evolves_latest (v : option UpdateInfo) (st st0 : State) :
  evolves P st st0 -> evolves P st (set_latestUpdateInfo v st0).
Proof. apply evolves_same; auto. Qed.

Lemma evolves_dmg (v : option string) (st st0 : State) :
  evolves P st st0 -> evolves P st (set_downloadedDmgPath v st0).
Proof. apply evolves_same; auto. Qed.

Lemma evolves_destroy (st st0 : State) :
  evolves P st st0 -> evolves P st (destroy_window st0).
Proof.
  apply evolves_same; auto. unfold window_open, destroy_window. cbn.
  destruct (mainWindow st0); discriminate.
Qed.

Lemma evolves_reports (reports : list Download.Progress) (st st0 : State) :
  (window_open st = true -> forall payload : jsval, P (Send "download-progress" payload)) ->
  evolves P st st0 ->
  evolves P st
    (fold_left (fun st progress =>
                  sendToRenderer "download-progress" (progress_payload progress) st)
               reports st0).
Proof.
  intros He. revert st0. induction reports as [|p reports IH]; intros st0 H; [exact H|].
  cbn [fold_left]. apply IH. apply evolves_send; [|exact H].
  intros Hw. apply He, Hw.
Qed.

Lemma evolves_silent (check : Outcome (option UpdateCheckResult)) (st st0 : State) :
  (window_open st = true ->
   forall payload : jsval, P (Send "update-available-silent" payload)) ->
  evolves P st st0 -> evolves P st (silentCheckForUpdates app check st0).
Proof.
  intros He H. unfold silentCheckForUpdates.
  destruct (isDev app) eqn:Hdev; [exact H|].
  destruct (P_network eq_refl) as (Hc & _).
  destruct check as [[result|]|error].
  - destruct (updateInfo result) as [info|]; [|apply evolves_emit; assumption].
    destruct (negb (String.eqb (version info) (getVersion app))).
    + apply evolves_send; [intros Hw; apply He, Hw|].
      apply evolves_emit; [apply P_log|]. apply evolves_emit; assumption.
    + apply evolves_emit; assumption.
  - apply evolves_emit; assumption.
  - apply evolves_emit; [apply P_log|]. apply evolves_emit; assumption.
Qed.

Ltac send_ok Hsend :=
  let Hw := fresh "Hw" in
  intros Hw; try intros ?;
  first [ exact (Hsend Hw Preload.onCheckingForUpdate _)
        | exact (Hsend Hw Preload.onUpdateAvailable _)
        | exact (Hsend Hw Preload.onUpdateNotAvailable _)
        | exact (Hsend Hw Preload.onDownloadProgress _)
        | exact (Hsend Hw Preload.onUpdateDownloaded _)
        | exact (Hsend Hw Preload.onUpdateError _)
        | exact (Hsend Hw Preload.onUpdateAvailableSilent _) ].

Ltac evolve Hsend :=
  repeat first
    [ apply evolves_refl
    | apply evolves_emit; [solve [auto]|]
    | apply evolves_send; [send_ok Hsend|]
    | apply evolves_reports; [send_ok Hsend|]
    | apply evolves_silent; [send_ok Hsend|]
    | apply evolves_latest
    | apply evolves_dmg
    | apply evolves_destroy ].

Section Handlers.

Variable st : State.
Hypothesis P_send :
  window_open st = true ->
  forall (s : Preload.Subscription) (payload : jsval),
    P (Send (Preload.listens_on s) payload).

Lemma handle_check_for_updates_shape (w : World) :
  (isDev app = false /\ evolves P st (snd (handle_check_for_updates app w st))) \/
  (isDev app = true /\
   exists st1 : State,
     evolves P st st1 /\
     snd (handle_check_for_updates app w st) =
     snd (setTimeout (DevModeNotice (getVersion app)) (of_Z 500) st1)).
Proof.
  unfold handle_check_for_updates. destruct (isDev app) eqn:Hdev.
  - right. split; [reflexivity|]. eexists. split; cycle 1; [reflexivity|].
    evolve P_send.
  - left. split; [reflexivity|]. destruct (P_network eq_refl) as (Pc & Pd & Pf).
    destruct (check_answer w) as [result|message]; cbn [snd]; evolve P_send.
Qed.

Lemma handle_download_update_shape (w : World) (reply : jsval) (st' : State) :
  handle_download_update app w st = Some (reply, st') -> evolves P st st'.
Proof.
  unfold handle_download_update, download_failed. destruct (isDev app) eqn:Hdev.
  - destruct (open_answer w) as [[]|message]; intros [= _ <-]; evolve P_send.
  - destruct (P_network eq_refl) as (Pc & Pd & Pf).
    destruct (if String.eqb (platform app) "darwin" then latestUpdateInfo st else None)
      as [info|].
    + destruct (Download.promise _) as [|[]|message]; [discriminate| |].
      * intros [= _ <-]; evolve P_send.
      * destruct (open_answer w) as [[]|e]; intros [= _ <-]; evolve P_send.
    + destruct (download_answer w) as [[]|message]; intros [= _ <-]; evolve P_send.
Qed.

Lemma handle_install_update_shape (w : World) :
  evolves P st (snd (handle_install_update app w st)) \/
  exists (st1 : State) (cb : Callback) (d : jsnum),
    evolves P st st1 /\ plain cb /\
    snd (handle_install_update app w st) = snd (setTimeout cb d st1).
Proof.
  unfold handle_install_update. destruct (isDev app) eqn:Hdev.
  - left. cbn [snd]. evolve P_send.
  - right.
    destruct (if String.eqb (platform app) "darwin"
              then match downloadedDmgPath st with
                   | Some path => if String.eqb path "" then None else Some path
                   | None => None
                   end
              else None) as [dmg|].
    + eexists _, QuitForManualUpdate, _. split; cycle 1.
      { split; [split; discriminate|reflexivity]. }
      destruct (String.eqb (openPath_answer w) ""); evolve P_send.
    + eexists _, CallQuitAndInstall, _. split; cycle 1.
      { split; [split; discriminate|reflexivity]. }
      evolve P_send.
Qed.

Lemma handle_open_release_page_shape (w : World) :
  evolves P st (snd (handle_open_release_page w st)).
Proof.
  unfold handle_open_release_page.
  destruct (open_answer w) as [[]|message]; cbn [snd]; evolve P_send.
Qed.

Lemma checkForUpdates_shape (w : World) : evolves P st (checkForUpdates app w st).
Proof.
  unfold checkForUpdates. destruct (isDev app) eqn:Hdev; [evolve P_send|].
  destruct (P_network eq_refl) as (Pc & Pd & Pf).
  destruct (check_answer w) as [result|message]; evolve P_send.
Qed.

Lemma on_updater_event_shape (ev : UpdaterEvent) :
  (forall isSilent isForceRunAfter : bool, P (QuitAndInstall isSilent isForceRunAfter)) ->
  evolves P st (on_updater_event ev st).
Proof.
  intros P_install. destruct ev; cbn [on_updater_event]; try (evolve P_send).
  destruct (mainWindow _); [|evolve P_send].
  destruct (response =? 0); evolve P_send.
Qed.

Lemma run_callback_shape (cb : Callback) (check : Outcome (option UpdateCheckResult))
    (quitAndInstall : Outcome unit) :
  P Quit ->
  (forall isSilent isForceRunAfter : bool, P (QuitAndInstall isSilent isForceRunAfter)) ->
  (cb <> InitialCheck /\ evolves P st (run_callback app cb check quitAndInstall st)) \/
  (cb = InitialCheck /\
   exists st2 : State,
     evolves P st st2 /\
     run_callback app cb check quitAndInstall st = set_initialCheckTimeout None st2).
Proof.
  intros P_quit P_install. destruct cb; cbn [run_callback].
  - left. split; [discriminate|]. evolve P_send.
  - right. split; [reflexivity|]. eexists. split; [|reflexivity]. evolve P_send.
  - left. split; [discriminate|]. evolve P_send.
  - left. split; [discriminate|]. evolve P_send.
  - left. split; [discriminate|]. destruct quitAndInstall as [[]|e]; evolve P_send.
Qed.

End Handlers.

Lemma pending_In (id : nat) (st : State) (t : Timer) :
  pending id st = Some t -> In t (timers st) /\ timerId t = id.
Proof.
  unfold pending. intros H. apply find_some in H. destruct H as [Hin Hid].
  split; [exact Hin|]. apply Nat.eqb_eq, Hid.
Qed.

(** What a step does to the state, whatever the step is. *)
Lemma perform_shape (a : Action) (st st' : State) :
  (window_open st = true ->
   forall (s : Preload.Subscription) (payload : jsval),
     P (Send (Preload.listens_on s) payload)) ->
  ((forall (channel : string) (arg : jsval) (w : World), a <> Invoke channel arg w) ->
   P Quit /\
   forall isSilent isForceRunAfter : bool, P (QuitAndInstall isSilent isForceRunAfter)) ->
  perform app a st = Some st' ->
  evolves P st st' \/
  (exists (st1 : State) (cb : Callback) (d : jsnum),
      evolves P st st1 /\ plain cb /\ st' = snd (setTimeout cb d st1)) \/
  (exists (arg : jsval) (w : World) (settings : Settings),
      a = Invoke "set-auto-update-settings" arg w /\
      st' = startAutoCheck app (write_settings settings st)) \/
  (exists (id : nat) (check : Outcome (option UpdateCheckResult))
          (quitAndInstall : Outcome unit) (t : Timer) (st1 : State),
      a = TimerFires id check quitAndInstall /\
      In t (timers st) /\ timerId t = id /\
      st1 = (if repeats t then st else clearTimer (timerId t) st) /\
      ((callback t <> InitialCheck /\ evolves P st1 st') \/
       (callback t = InitialCheck /\
        exists st2 : State,
          evolves P st1 st2 /\ st' = set_initialCheckTimeout None st2))).
Proof.
  intros P_send P_quits H. destruct a as [channel arg w|id check q|ev|w|]; cbn [perform] in H.
  - clear P_quits. unfold invoke in H.
    destruct (String.eqb channel "check-for-updates").
    { injection H as <-.
      destruct (handle_check_for_updates_shape st P_send w) as [[_ He]|[_ [st1 [He ->]]]];
        [left; exact He|right; left; eexists _, _, _; split; [exact He|]].
      split; cycle 1; [reflexivity|split; discriminate]. }
    destruct (String.eqb channel "download-update").
    { destruct (handle_download_update app w st) as [[reply st0]|] eqn:E; [|discriminate].
      injection H as <-. left. exact (handle_download_update_shape st P_send w _ _ E). }
    destruct (String.eqb channel "install-update").
    { injection H as <-.
      destruct (handle_install_update_shape st P_send w) as [He|(st1 & cb & d & He & Hp & ->)];
        [left; exact He|right; left; eexists _, _, _; split; [exact He|]].
      split; [exact Hp|reflexivity]. }
    destruct (String.eqb channel "get-app-version").
    { injection H as <-. left. apply evolves_refl. }
    destruct (String.eqb channel "open-release-page").
    { injection H as <-. left. apply handle_open_release_page_shape. }
    destruct (String.eqb channel "get-auto-update-settings").
    { injection H as <-. left. apply evolves_refl. }
    destruct (String.eqb channel "set-auto-update-settings") eqn:E.
    { apply String.eqb_eq in E. subst channel.
      destruct (settings_of arg) as [settings|message].
      - rewrite handle_set_unfold in H. injection H as <-.
        right. right. left. exists arg, w, settings. split; reflexivity.
      - injection H as <-. left. apply evolves_refl. }
    injection H as <-. left. apply evolves_refl.
  - destruct (P_quits ltac:(discriminate)) as [P_quit P_install].
    destruct (pending id st) as [t|] eqn:E; [|discriminate]. injection H as <-.
    destruct (pending_In _ _ _ E) as [Hin Hid].
    right. right. right. exists id, check, q, t, (if repeats t then st else clearTimer (timerId t) st).
    split; [reflexivity|]. split; [exact Hin|]. split; [exact Hid|]. split; [reflexivity|].
    unfold fire. apply run_callback_shape; [|assumption|assumption].
    destruct (repeats t); exact P_send.
  - destruct (P_quits ltac:(discriminate)) as [P_quit P_install].
    injection H as <-. left. apply on_updater_event_shape; assumption.
  - injection H as <-. left. apply checkForUpdates_shape.
  - injection H as <-. left. apply evolves_destroy, evolves_refl.
Qed.

End Evolution.

(** ** The main process, over its whole life *)

Section MainProcess.
Import JS Updater Scheduler Ipc.

(** The state [startAutoCheck] works on once it has done its two
    cancellations, with what [cancelled_state] says of it. *)
Ltac cancelled a st st0 :=
  unfold startAutoCheck; cbv zeta;
  let H := fresh "H" in
  pose proof (cancelled_state st) as H; cbv zeta in H;
  match goal with
  | |- context [getAutoCheckSettings ?s] => set (st0 := s) in *
  end;
  destruct H
    as (Hstore & Htimers & Hnext & Hfirst & Hauto & Hinit & Heff & Hwin & Hsettings);
  clearbody st0; unfold will_arm, isDev; rewrite <- ?Hsettings;
  destruct (truthy (enabled (getAutoCheckSettings st0))), (isPackaged a);
  cbn [negb orb andb].

Lemma startAutoCheck_rest (app : App) (st : State) :
  nextTimer (startAutoCheck app st) =
    (nextTimer st +
     (if will_arm app st then (if isFirstStart st then 2 else 1) else 0))%nat /\
  mainWindow (startAutoCheck app st) = mainWindow st /\
  exists args : list jsval,
    effects (startAutoCheck app st) = (effects st ++ [Log Info args])%list.
Proof.
  cancelled app st st0; rewrite <- ?Hfirst, <- ?Hnext, <- ?Heff, <- ?Hwin;
    try (cbn [nextTimer emit mainWindow effects];
         split; [lia|split; [reflexivity|eexists; reflexivity]]).
  cbn. destruct (isFirstStart st0); cbn;
    (split; [lia|split; [reflexivity|eexists; reflexivity]]).
Qed.

Lemma write_settings_window (settings : Settings) (st : State) :
  mainWindow (write_settings settings st) = mainWindow st.
Proof.
  unfold write_settings. destruct (enabled settings), (interval settings); reflexivity.
Qed.

Lemma sends_app (es es' : list Effect) : sends (es ++ es') = (sends es ++ sends es')%list.
Proof.
  induction es as [|e es IH]; [reflexivity|].
  destruct e; cbn; rewrite ?IH; reflexivity.
Qed.

Lemma sends_In (es : list Effect) (channel : string) (payload : jsval) :
  In (channel, payload) (sends es) <-> In (Send channel payload) es.
Proof.
  induction es as [|e es IH]; [reflexivity|].
  destruct e; cbn; rewrite IH; split; intros H;
    try (right; exact H); try (destruct H as [H|H]; [discriminate H|exact H]).
  - destruct H as [H|H]; [left; congruence|right; exact H].
  - destruct H as [H|H]; [left; congruence|right; exact H].
Qed.

Section Growth.

Variable P : Effect -> Prop.
Variable app : App.

Hypothesis P_log : forall (level : Level) (args : list jsval), P (Log level args).
Hypothesis P_external : forall url : string, P (OpenExternal url).
Hypothesis P_path : forall path : string, P (OpenPath path).
Hypothesis P_box : forall message : string, P (ShowMessageBox message).
Hypothesis P_network :
  isDev app = false ->
  P CheckForUpdates /\ P DownloadUpdate /\
  forall url destPath : string, P (DownloadFile url destPath).

Lemma grows_refl (st : State) : grows P st st.
Proof.
  split; [auto|]. exists []. rewrite app_nil_r. split; [reflexivity|constructor].
Qed.

Lemma grows_trans (st1 st2 st3 : State) :
  grows P st1 st2 -> grows P st2 st3 -> grows P st1 st3.
Proof.
  intros [Hw1 (new1 & He1 & HP1)] [Hw2 (new2 & He2 & HP2)]. split; [auto|].
  exists (new1 ++ new2)%list. rewrite He2, He1, app_assoc. split; [reflexivity|].
  apply Forall_app. split; assumption.
Qed.

Lemma grows_same (st st0 st' : State) :
  mainWindow st' = mainWindow st0 -> effects st' = effects st0 ->
  grows P st st0 -> grows P st st'.
Proof.
  intros Hw He [Hw0 Hnew]. unfold grows, window_open in *. rewrite Hw, He.
  split; assumption.
Qed.

Lemma evolves_grows (st st' : State) : evolves P st st' -> grows P st st'.
Proof. intros H. apply H. Qed.

(** A step only adds calls, and never reopens the window. *)
Lemma perform_grows (a : Action) (st st' : State) :
  (window_open st = true ->
   forall (s : Preload.Subscription) (payload : jsval),
     P (Send (Preload.listens_on s) payload)) ->
  ((forall (channel : string) (arg : jsval) (w : World), a <> Invoke channel arg w) ->
   P Quit /\
   forall isSilent isForceRunAfter : bool, P (QuitAndInstall isSilent isForceRunAfter)) ->
  perform app a st = Some st' -> grows P st st'.
Proof.
  intros Hs Hq H.
  destruct (perform_shape P app P_log P_external P_path P_box P_network a st st' Hs Hq H)
    as [He | [(st1 & cb & d & He & _ & ->)
           | [(arg & w & settings & _ & ->)
             | (id & check & q & t & st1 & _ & _ & _ & -> & [[_ He] | [_ (st2 & He & ->)]])]]].
  - apply evolves_grows, He.
  - apply (grows_same st st1); [reflexivity|reflexivity|apply evolves_grows, He].
  - destruct (startAutoCheck_rest app (write_settings settings st)) as (_ & Hw & args & He).
    destruct (write_settings_frame settings st) as (_ & _ & _ & _ & _ & He').
    split.
    + unfold window_open. rewrite Hw, write_settings_window. auto.
    + exists [Log Info args]. rewrite He, He'. split; [reflexivity|].
      constructor; [apply P_log|constructor].
  - apply (grows_trans st (if repeats t then st else clearTimer (timerId t) st));
      [|apply evolves_grows, He].
    destruct (repeats t); [apply grows_refl|].
    apply (grows_same st st); [reflexivity|reflexivity|apply grows_refl].
  - apply (grows_trans st (if repeats t then st else clearTimer (timerId t) st)).
    + destruct (repeats t); [apply grows_refl|].
      apply (grows_same st st); [reflexivity|reflexivity|apply grows_refl].
    + apply (grows_same _ st2); [reflexivity|reflexivity|apply evolves_grows, He].
Qed.

Hypothesis P_quit : P Quit.
Hypothesis P_install :
  forall isSilent isForceRunAfter : bool, P (QuitAndInstall isSilent isForceRunAfter).

Lemma perform_all_grows (actions : list Action) (st st' : State) :
  (window_open st = true ->
   forall (s : Preload.Subscription) (payload : jsval),
     P (Send (Preload.listens_on s) payload)) ->
  perform_all app actions st = Some st' -> grows P st st'.
Proof.
  revert st. induction actions as [|a actions IH]; intros st Hs H; cbn [perform_all] in H.
  - injection H as <-. apply grows_refl.
  - destruct (perform app a st) as [st1|] eqn:E; [|discriminate].
    assert (H1 : grows P st st1).
    { apply (perform_grows a); [exact Hs|intros _; split; assumption|exact E]. }
    apply (grows_trans st st1); [exact H1|]. apply IH; [|exact H].
    intros Hw. apply Hs, H1, Hw.
Qed.

Hypothesis P_send :
  forall (s : Preload.Subscription) (payload : jsval),
    P (Send (Preload.listens_on s) payload).

(** Every call made by the time a state is reached satisfies [P]. *)
Lemma reachable_effects (st : State) : reachable app st -> Forall P (effects st).
Proof.
  intros (persisted & win & actions & H).
  apply perform_all_grows in H; [|intros _; exact P_send].
  destruct H as [_ (new & -> & HP)]. apply Forall_app. split; [|exact HP].
  unfold initUpdater.
  destruct (startAutoCheck_rest app (initial persisted win)) as (_ & _ & args & ->).
  cbn. constructor; [apply P_log|constructor].
Qed.

End Growth.

(** *** The scheduler's timers *)

Lemma NoDup_map_filter {A B : Type} (f : A -> B) (p : A -> bool) (l : list A) :
  NoDup (map f l) -> NoDup (map f (List.filter p l)).
Proof.
  induction l as [|x l IH]; cbn; intros H; [constructor|].
  inversion H as [|? ? Hx Hl]; subst.
  destruct (p x); cbn; [constructor|]; auto.
  intros Hin. apply Hx. apply list_elem_of_In. apply list_elem_of_In in Hin.
  apply in_map_iff in Hin. destruct Hin as [y [Hy Hin]].
  apply in_map_iff. exists y. split; [exact Hy|]. apply filter_In in Hin. apply Hin.
Qed.

Lemma NoDup_snoc {A : Type} (l : list A) (x : A) :
  NoDup l -> ~ In x l -> NoDup (l ++ [x]).
Proof.
  intros Hl Hx. apply NoDup_app. split; [exact Hl|]. split.
  - intros y Hy Hin. apply list_elem_of_In in Hy, Hin.
    destruct Hin as [->|[]]. exact (Hx Hy).
  - apply NoDup_singleton.
Qed.

Lemma consistent_same (st st' : State) :
  timers st' = timers st -> nextTimer st' = nextTimer st ->
  autoCheckTimer st' = autoCheckTimer st ->
  initialCheckTimeout st' = initialCheckTimeout st ->
  consistent st -> consistent st'.
Proof. unfold consistent. intros -> -> -> ->. auto. Qed.

(** A timer joins the event loop under the next handle: as a timer the
    scheduler knows nothing of, as the recurring check or as the initial
    check, the scheduler keeping the handle in the last two cases. *)
Lemma consistent_add (st st' : State) (t : Timer) :
  consistent st ->
  timers st' = (timers st ++ [t])%list ->
  timerId t = nextTimer st ->
  nextTimer st' = S (nextTimer st) ->
  (plain (callback t) /\ repeats t = false /\
   autoCheckTimer st' = autoCheckTimer st /\
   initialCheckTimeout st' = initialCheckTimeout st) \/
  (callback t = BackgroundCheck /\ repeats t = true /\
   autoCheckTimer st = None /\ autoCheckTimer st' = Some (nextTimer st) /\
   initialCheckTimeout st' = initialCheckTimeout st) \/
  (callback t = InitialCheck /\ repeats t = false /\
   initialCheckTimeout st = None /\ initialCheckTimeout st' = Some (nextTimer st) /\
   autoCheckTimer st' = autoCheckTimer st) ->
  consistent st'.
Proof.
  intros (H1 & H2 & H3 & H4 & H5 & H8 & H9) Ht Hid Hn Hcase.
  assert (Hfresh : forall t' : Timer, In t' (timers st) -> timerId t' <> nextTimer st).
  { intros t' Hin. specialize (H2 t' Hin). lia. }
  assert (Hauto : autoCheckTimer st <> Some (nextTimer st)).
  { intros H. destruct (H8 _ H) as [t' [Hin Hid']]. exact (Hfresh t' Hin Hid'). }
  assert (Hinit : initialCheckTimeout st <> Some (nextTimer st)).
  { intros H. destruct (H9 _ H) as [t' [Hin Hid']]. exact (Hfresh t' Hin Hid'). }
  unfold consistent. rewrite Ht, Hn. split; [|split; [|split; [|split; [|split; [|split]]]]].
  - rewrite map_app. apply NoDup_snoc; [exact H1|]. cbn [map]. rewrite Hid.
    intros Hin. apply in_map_iff in Hin. destruct Hin as [t' [Hid' Hin]].
    exact (Hfresh t' Hin Hid').
  - intros t' Hin. apply in_app_or in Hin. destruct Hin as [Hin|[<-|[]]].
    + specialize (H2 t' Hin). lia.
    + lia.
  - intros t' Hin. apply in_app_or in Hin. destruct Hin as [Hin|[<-|[]]].
    + destruct Hcase as [(_ & _ & -> & _)|[(_ & _ & Hnone & -> & _)|(_ & _ & _ & _ & ->)]];
        try apply (H3 t' Hin).
      split.
      * intros Hcb. apply (H3 t' Hin) in Hcb. congruence.
      * intros [= Heq]. exfalso. exact (Hfresh t' Hin (eq_sym Heq)).
    + rewrite Hid.
      destruct Hcase as [([Hb _] & _ & -> & _)|[(-> & _ & _ & -> & _)|(-> & _ & _ & _ & ->)]].
      * split; [contradiction|intros H; contradiction].
      * split; reflexivity.
      * split; [discriminate|intros H; contradiction].
  - intros t' Hin. apply in_app_or in Hin. destruct Hin as [Hin|[<-|[]]].
    + destruct Hcase as [(_ & _ & _ & ->)|[(_ & _ & _ & _ & ->)|(_ & _ & Hnone & -> & _)]];
        try apply (H4 t' Hin).
      split.
      * intros Hcb. apply (H4 t' Hin) in Hcb. congruence.
      * intros [= Heq]. exfalso. exact (Hfresh t' Hin (eq_sym Heq)).
    + rewrite Hid.
      destruct Hcase as [([_ Hi] & _ & _ & ->)|[(-> & _ & _ & _ & ->)|(-> & _ & _ & -> & _)]].
      * split; [contradiction|intros H; contradiction].
      * split; [discriminate|intros H; contradiction].
      * split; reflexivity.
  - intros t' Hin. apply in_app_or in Hin. destruct Hin as [Hin|[<-|[]]].
    + apply (H5 t' Hin).
    + destruct Hcase as [([Hb _] & -> & _)|[(-> & -> & _)|(-> & -> & _)]].
      * split; [discriminate|contradiction].
      * split; reflexivity.
      * split; discriminate.
  - intros id Hh.
    destruct Hcase as [(_ & _ & E & _)|[(_ & _ & _ & E & _)|(_ & _ & _ & _ & E)]];
      rewrite E in Hh.
    + destruct (H8 _ Hh) as [t' [Hin Hid']]. exists t'. split; [|exact Hid'].
      apply in_or_app. left. exact Hin.
    + injection Hh as <-. exists t. split; [|exact Hid].
      apply in_or_app. right. left. reflexivity.
    + destruct (H8 _ Hh) as [t' [Hin Hid']]. exists t'. split; [|exact Hid'].
      apply in_or_app. left. exact Hin.
  - intros id Hh.
    destruct Hcase as [(_ & _ & _ & E)|[(_ & _ & _ & _ & E)|(_ & _ & _ & E & _)]];
      rewrite E in Hh.
    + destruct (H9 _ Hh) as [t' [Hin Hid']]. exists t'. split; [|exact Hid'].
      apply in_or_app. left. exact Hin.
    + destruct (H9 _ Hh) as [t' [Hin Hid']]. exists t'. split; [|exact Hid'].
      apply in_or_app. left. exact Hin.
    + injection Hh as <-. exists t. split; [|exact Hid].
      apply in_or_app. right. left. reflexivity.
Qed.

(** Timers leave the event loop: the scheduler keeps a handle if its timer
    stays and forgets it if its timer leaves. *)
Lemma consistent_filter (st st' : State) (p : Timer -> bool) :
  consistent st ->
  timers st' = List.filter p (timers st) ->
  nextTimer st' = nextTimer st ->
  (autoCheckTimer st' = autoCheckTimer st /\
   forall t : Timer, In t (timers st) -> callback t = BackgroundCheck -> p t = true) \/
  (autoCheckTimer st' = None /\
   forall t : Timer, In t (timers st) -> callback t = BackgroundCheck -> p t = false) ->
  (initialCheckTimeout st' = initialCheckTimeout st /\
   forall t : Timer, In t (timers st) -> callback t = InitialCheck -> p t = true) \/
  (initialCheckTimeout st' = None /\
   forall t : Timer, In t (timers st) -> callback t = InitialCheck -> p t = false) ->
  consistent st'.
Proof.
  intros (H1 & H2 & H3 & H4 & H5 & H8 & H9) Ht Hn HA HB.
  unfold consistent. rewrite Ht, Hn. split; [|split; [|split; [|split; [|split; [|split]]]]].
  - apply NoDup_map_filter, H1.
  - intros t Hin. apply filter_In in Hin. apply H2, Hin.
  - intros t Hin. apply filter_In in Hin. destruct Hin as [Hin Hp].
    destruct HA as [[-> _]|[-> Hgone]]; [apply (H3 t Hin)|].
    split; [|discriminate]. intros Hcb. rewrite (Hgone t Hin Hcb) in Hp. discriminate Hp.
  - intros t Hin. apply filter_In in Hin. destruct Hin as [Hin Hp].
    destruct HB as [[-> _]|[-> Hgone]]; [apply (H4 t Hin)|].
    split; [|discriminate]. intros Hcb. rewrite (Hgone t Hin Hcb) in Hp. discriminate Hp.
  - intros t Hin. apply filter_In in Hin. apply H5, Hin.
  - intros id Hh. destruct HA as [[E Hstay]|[E _]]; rewrite E in Hh; [|discriminate].
    destruct (H8 _ Hh) as [t [Hin Hid]]. exists t. split; [|exact Hid].
    apply filter_In. split; [exact Hin|]. apply (Hstay t Hin).
    apply (H3 t Hin). rewrite Hid. exact Hh.
  - intros id Hh. destruct HB as [[E Hstay]|[E _]]; rewrite E in Hh; [|discriminate].
    destruct (H9 _ Hh) as [t [Hin Hid]]. exists t. split; [|exact Hid].
    apply filter_In. split; [exact Hin|]. apply (Hstay t Hin).
    apply (H4 t Hin). rewrite Hid. exact Hh.
Qed.

Lemma consistent_startAutoCheck (app : App) (st : State) :
  consistent st -> consistent (startAutoCheck app st).
Proof.
  intros Hc.
  set (q1 := fun t : Timer => negb (has_handle (autoCheckTimer st) t)).
  set (q2 := fun t : Timer => negb (has_handle (initialCheckTimeout st) t)).
  set (stA := set_autoCheckTimer None (with_timers (List.filter q1) st)).
  set (stB := set_initialCheckTimeout None (with_timers (List.filter q2) stA)).
  assert (HA : consistent stA).
  { assert (Hc' := Hc). destruct Hc' as (H1 & H2 & H3 & H4 & H5 & H8 & H9).
    apply (consistent_filter st stA q1); [exact Hc|reflexivity|reflexivity|right|left].
    - split; [reflexivity|]. intros t Hin Hcb. apply (H3 t Hin) in Hcb.
      unfold q1. rewrite Hcb. cbn. rewrite Nat.eqb_refl. reflexivity.
    - split; [reflexivity|]. intros t Hin Hcb. unfold q1.
      destruct (autoCheckTimer st) as [h|] eqn:E; [|reflexivity]. cbn.
      destruct (Nat.eqb_spec (timerId t) h) as [Heq|_]; [|reflexivity].
      subst h.
      assert (Hb : callback t = BackgroundCheck) by (apply (H3 t Hin); reflexivity).
      congruence. }
  assert (HB : consistent stB).
  { assert (HA' := HA). destruct HA' as (H1 & H2 & H3 & H4 & H5 & H8 & H9).
    apply (consistent_filter stA stB q2); [exact HA|reflexivity|reflexivity|left|right].
    - split; [reflexivity|]. intros t Hin Hcb. apply (H3 t Hin) in Hcb. discriminate Hcb.
    - split; [reflexivity|]. intros t Hin Hcb. apply (H4 t Hin) in Hcb.
      unfold q2. change (initialCheckTimeout stA) with (initialCheckTimeout st) in Hcb.
      rewrite Hcb. cbn. rewrite Nat.eqb_refl. reflexivity. }
  assert (Htimers := startAutoCheck_timers app st).
  destruct (startAutoCheck_handles app st) as [Hauto Hinit].
  destruct (startAutoCheck_rest app st) as [Hnext _].
  destruct (will_arm app st).
  - set (stC := set_autoCheckTimer (Some (nextTimer st))
                  (snd (setInterval BackgroundCheck (interval_ms st) stB))).
    assert (HC : consistent stC).
    { apply (consistent_add stB stC (recurring (nextTimer st) st));
        [exact HB|reflexivity|reflexivity|reflexivity|right; left].
      repeat split; reflexivity. }
    destruct (isFirstStart st).
    + set (stD := set_initialCheckTimeout (Some (S (nextTimer st)))
                    (snd (setTimeout InitialCheck (integer 10000) stC))).
      assert (HD : consistent stD).
      { apply (consistent_add stC stD (one_shot (S (nextTimer st))));
          [exact HC|reflexivity|reflexivity|reflexivity|right; right].
        repeat split; reflexivity. }
      apply (consistent_same stD); [| |exact Hauto|exact Hinit|exact HD].
      * rewrite Htimers. cbn. rewrite <- app_assoc. reflexivity.
      * rewrite Hnext. cbn. lia.
    + apply (consistent_same stC); [| |exact Hauto|exact Hinit|exact HC].
      * rewrite Htimers. reflexivity.
      * rewrite Hnext. cbn. lia.
  - apply (consistent_same stB); [| |exact Hauto|exact Hinit|exact HB].
    + rewrite Htimers, app_nil_r. reflexivity.
    + rewrite Hnext. cbn. lia.
Qed.

Lemma consistent_initial (persisted : gmap string jsval) (win : Window) :
  consistent (initial persisted win).
Proof.
  unfold consistent. cbn. split; [constructor|].
  repeat split; try contradiction; try discriminate.
Qed.

(** Every step keeps the timers and the handles consistent. *)
Lemma perform_consistent (app : App) (a : Action) (st st' : State) :
  consistent st -> perform app a st = Some st' -> consistent st'.
Proof.
  intros Hc H.
  destruct (perform_shape (fun _ => True) app) with (a := a) (st := st) (st' := st')
    as [He | [(st1 & cb & d & He & Hp & ->)
           | [(arg & w & settings & _ & ->)
             | (id & check & q & t & st1 & _ & Hin & Hid & -> & Hcase)]]];
    auto.
  - destruct He as (_ & E2 & E3 & E4 & E5 & _). apply (consistent_same st); assumption.
  - destruct He as (_ & E2 & E3 & E4 & E5 & _).
    assert (H1 : consistent st1) by (apply (consistent_same st); assumption).
    apply (consistent_add st1 _ {| timerId := nextTimer st1; repeats := false;
                                   delay := timer_delay d; callback := cb |});
      [exact H1|reflexivity|reflexivity|reflexivity|left].
    repeat split; try reflexivity; apply Hp.
  - apply consistent_startAutoCheck.
    destruct (write_settings_frame settings st) as (E2 & E3 & _ & E4 & E5 & _).
    apply (consistent_same st); assumption.
  - assert (Hc' := Hc). destruct Hc' as (H1 & H2 & H3 & H4 & H5 & H8 & H9).
    assert (Hclear : repeats t = false ->
                     consistent (if is_initial t
                                 then set_initialCheckTimeout None (clearTimer (timerId t) st)
                                 else clearTimer (timerId t) st)).
    { intros Hrep.
      assert (Hnb : callback t <> BackgroundCheck).
      { intros Hcb. apply (H5 t Hin) in Hcb. congruence. }
      assert (Hauto : forall t' : Timer,
                 In t' (timers st) -> callback t' = BackgroundCheck ->
                 negb (Nat.eqb (timerId t') (timerId t)) = true).
      { intros t' Hin' Hcb'. destruct (Nat.eqb_spec (timerId t') (timerId t)) as [Heq|_];
          [|reflexivity].
        apply (H3 t' Hin') in Hcb'. rewrite Heq in Hcb'. apply (H3 t Hin) in Hcb'.
        contradiction. }
      unfold is_initial. destruct (callback t) eqn:Hcb; try contradiction.
      - apply (consistent_filter st _ (fun t' => negb (Nat.eqb (timerId t') (timerId t))));
          [exact Hc|reflexivity|reflexivity|left|right].
        + split; [reflexivity|exact Hauto].
        + split; [reflexivity|]. intros t' Hin' Hcb'.
          apply (H4 t' Hin') in Hcb'. assert (Hi : callback t = InitialCheck) by exact Hcb.
          apply (H4 t Hin) in Hi. rewrite Hi in Hcb'. injection Hcb' as ->.
          rewrite Nat.eqb_refl. reflexivity.
      - apply (consistent_filter st _ (fun t' => negb (Nat.eqb (timerId t') (timerId t))));
          [exact Hc|reflexivity|reflexivity|left|left].
        + split; [reflexivity|exact Hauto].
        + split; [reflexivity|]. intros t' Hin' Hcb'.
          destruct (Nat.eqb_spec (timerId t') (timerId t)) as [Heq|_]; [|reflexivity].
          apply (H4 t' Hin') in Hcb'. rewrite Heq in Hcb'. apply (H4 t Hin) in Hcb'.
          congruence.
      - apply (consistent_filter st _ (fun t' => negb (Nat.eqb (timerId t') (timerId t))));
          [exact Hc|reflexivity|reflexivity|left|left].
        + split; [reflexivity|exact Hauto].
        + split; [reflexivity|]. intros t' Hin' Hcb'.
          destruct (Nat.eqb_spec (timerId t') (timerId t)) as [Heq|_]; [|reflexivity].
          apply (H4 t' Hin') in Hcb'. rewrite Heq in Hcb'. apply (H4 t Hin) in Hcb'.
          congruence.
      - apply (consistent_filter st _ (fun t' => negb (Nat.eqb (timerId t') (timerId t))));
          [exact Hc|reflexivity|reflexivity|left|left].
        + split; [reflexivity|exact Hauto].
        + split; [reflexivity|]. intros t' Hin' Hcb'.
          destruct (Nat.eqb_spec (timerId t') (timerId t)) as [Heq|_]; [|reflexivity].
          apply (H4 t' Hin') in Hcb'. rewrite Heq in Hcb'. apply (H4 t Hin) in Hcb'.
          congruence. }
    destruct Hcase as [[Hni He]|[Hi (st2 & He & ->)]].
    + destruct He as (_ & E2 & E3 & E4 & E5 & _).
      apply (consistent_same (if repeats t then st else clearTimer (timerId t) st));
        try assumption.
      destruct (repeats t); [exact Hc|]. specialize (Hclear eq_refl).
      unfold is_initial in Hclear.
      destruct (callback t); try exact Hclear. contradiction.
    + destruct He as (_ & E2 & E3 & E4 & E5 & _).
      assert (Hrep : repeats t = false).
      { destruct (repeats t) eqn:E; [|reflexivity]. apply (H5 t Hin) in E. congruence. }
      specialize (Hclear Hrep). unfold is_initial in Hclear.
      rewrite Hi in Hclear. rewrite Hrep in E2, E3, E4.
      apply (consistent_same (set_initialCheckTimeout None (clearTimer (timerId t) st)));
        try assumption; reflexivity.
Qed.

Lemma reachable_consistent (app : App) (st : State) : reachable app st -> consistent st.
Proof.
  intros (persisted & win & actions & H).
  assert (H0 : consistent (initUpdater app persisted win))
    by apply consistent_startAutoCheck, consistent_initial.
  revert H H0. generalize (initUpdater app persisted win).
  induction actions as [|a actions IH]; intros st0 H H0; cbn [perform_all] in H.
  - injection H as <-. exact H0.
  - destruct (perform app a st0) as [st1|] eqn:E; [|discriminate].
    apply (IH st1 H). exact (perform_consistent app a st0 st1 H0 E).
Qed.

Lemma at_most_one (l : list Timer) (p : Timer -> bool) (id : nat) :
  NoDup (map timerId l) ->
  (forall t : Timer, In t l -> p t = true -> timerId t = id) ->
  (length (List.filter p l) <= 1)%nat.
Proof.
  induction l as [|x l IH]; cbn [map List.filter]; intros Hnd Hid; [cbn; lia|].
  inversion Hnd as [|? ? Hx Hl]; subst.
  destruct (p x) eqn:Hpx.
  - assert (Hnone : List.filter p l = []).
    { destruct (List.filter p l) as [|t rest] eqn:E; [reflexivity|]. exfalso.
      assert (Hin : In t (List.filter p l)) by (rewrite E; left; reflexivity).
      apply filter_In in Hin. destruct Hin as [Hin Hpt].
      apply Hx. apply list_elem_of_In, in_map_iff. exists t. split; [|exact Hin].
      rewrite (Hid t (or_intror Hin) Hpt), (Hid x (or_introl eq_refl) Hpx). reflexivity. }
    rewrite Hnone. cbn. lia.
  - apply IH; [exact Hl|]. intros t Hin. apply Hid. right. exact Hin.
Qed.

(** X12. The scheduler's timers never pile up: however the settings are
    changed and whatever else happens, at most one recurring check and at
    most one initial check are pending; the module holds a handle exactly
    when that timer is pending, under that handle; and the recurring
    check is the only timer that repeats. *)
Theorem scheduler_timers_never_pile_up (app : App) (st : State) :
  reachable app st ->
  (length (List.filter is_background (timers st)) <= 1)%nat /\
  (length (List.filter is_initial (timers st)) <= 1)%nat /\
  (forall id : nat,
      autoCheckTimer st = Some id <->
      exists t : Timer,
        In t (timers st) /\ timerId t = id /\ callback t = BackgroundCheck) /\
  (forall id : nat,
      initialCheckTimeout st = Some id <->
      exists t : Timer,
        In t (timers st) /\ timerId t = id /\ callback t = InitialCheck) /\
  (forall t : Timer,
      In t (timers st) -> (repeats t = true <-> callback t = BackgroundCheck)).
Proof.
  intros Hr. destruct (reachable_consistent app st Hr) as (H1 & H2 & H3 & H4 & H5 & H8 & H9).
  split; [|split; [|split; [|split]]].
  - destruct (autoCheckTimer st) as [h|] eqn:E.
    + apply (at_most_one _ _ h); [exact H1|]. intros t Hin Hp.
      unfold is_background in Hp. destruct (callback t) eqn:Hcb; try discriminate Hp.
      assert (Hh : Some h = Some (timerId t)) by (apply (H3 t Hin); exact Hcb).
      congruence.
    + apply (at_most_one _ _ 0%nat); [exact H1|]. intros t Hin Hp.
      unfold is_background in Hp. destruct (callback t) eqn:Hcb; try discriminate Hp.
      assert (Hh : None = Some (timerId t)) by (apply (H3 t Hin); exact Hcb).
      discriminate Hh.
  - destruct (initialCheckTimeout st) as [h|] eqn:E.
    + apply (at_most_one _ _ h); [exact H1|]. intros t Hin Hp.
      unfold is_initial in Hp. destruct (callback t) eqn:Hcb; try discriminate Hp.
      assert (Hh : Some h = Some (timerId t)) by (apply (H4 t Hin); exact Hcb).
      congruence.
    + apply (at_most_one _ _ 0%nat); [exact H1|]. intros t Hin Hp.
      unfold is_initial in Hp. destruct (callback t) eqn:Hcb; try discriminate Hp.
      assert (Hh : None = Some (timerId t)) by (apply (H4 t Hin); exact Hcb).
      discriminate Hh.
  - intros id. split.
    + intros Hh. destruct (H8 id Hh) as [t [Hin Hid]]. exists t.
      split; [exact Hin|]. split; [exact Hid|]. apply (H3 t Hin). rewrite Hid. exact Hh.
    + intros [t (Hin & Hid & Hcb)]. rewrite <- Hid. apply (H3 t Hin). exact Hcb.
  - intros id. split.
    + intros Hh. destruct (H9 id Hh) as [t [Hin Hid]]. exists t.
      split; [exact Hin|]. split; [exact Hid|]. apply (H4 t Hin). rewrite Hid. exact Hh.
    + intros [t (Hin & Hid & Hcb)]. rewrite <- Hid. apply (H4 t Hin). exact Hcb.
  - exact H5.
Qed.

(** A settings change made right after start-up: 6 hours instead of 24. *)
Lemma scheduler_timers_never_pile_up_witness :
  let st := snd (handle_set_auto_update_settings Sample.packaged
                   {| enabled := VUndefined; interval := VNum (integer 6) |}
                   (initUpdater Sample.packaged ∅ Sample.open_window)) in
  (length (List.filter is_background (timers st)) <= 1)%nat /\
  (length (List.filter is_initial (timers st)) <= 1)%nat.
Proof.
  cbv zeta.
  assert (Hr : reachable Sample.packaged
                 (snd (handle_set_auto_update_settings Sample.packaged
                         {| enabled := VUndefined; interval := VNum (integer 6) |}
                         (initUpdater Sample.packaged ∅ Sample.open_window)))).
  { exists ∅, Sample.open_window,
      [Invoke "set-auto-update-settings" (VObj [("interval", VNum (integer 6))])
         Sample.quiet].
    reflexivity. }
  destruct (scheduler_timers_never_pile_up _ _ Hr) as (Hb & Hi & _).
  split; assumption.
Defined.

(** *** An unpackaged application *)

Lemma will_arm_dev (app : App) (st : State) : isDev app = true -> will_arm app st = false.
Proof.
  unfold isDev, will_arm. destruct (isPackaged app); [discriminate|].
  intros _. apply andb_false_r.
Qed.

Lemma perform_offline (app : App) (a : Action) (st st' : State) :
  isDev app = true ->
  (forall t : Timer, In t (timers st) -> plain (callback t)) /\
  autoCheckTimer st = None /\ initialCheckTimeout st = None ->
  perform app a st = Some st' ->
  (forall t : Timer, In t (timers st') -> plain (callback t)) /\
  autoCheckTimer st' = None /\ initialCheckTimeout st' = None.
Proof.
  intros Hdev (Hplain & Hauto & Hinit) H.
  destruct (perform_shape (fun _ => True) app) with (a := a) (st := st) (st' := st')
    as [He | [(st1 & cb & d & He & Hp & ->)
           | [(arg & w & settings & _ & ->)
             | (id & check & q & t & st1 & _ & Hin & Hid & -> & Hcase)]]];
    auto.
  - destruct He as (_ & E2 & _ & E4 & E5 & _). rewrite E2, E4, E5. auto.
  - destruct He as (_ & E2 & _ & E4 & E5 & _). cbn. rewrite E2, E4, E5.
    split; [|auto]. intros t Hin. apply in_app_or in Hin.
    destruct Hin as [Hin|[<-|[]]]; [apply Hplain, Hin|exact Hp].
  - destruct (startAutoCheck_handles app (write_settings settings st)) as [-> ->].
    rewrite startAutoCheck_timers, (will_arm_dev app _ Hdev), app_nil_r.
    split; [|auto]. intros t Hin. apply after_cancel_incl in Hin.
    destruct (write_settings_frame settings st) as (E & _). rewrite E in Hin.
    apply Hplain, Hin.
  - assert (H1 : forall t' : Timer,
               In t' (timers (if repeats t then st else clearTimer (timerId t) st)) ->
               plain (callback t')).
    { intros t' Hin'. apply Hplain. destruct (repeats t); [exact Hin'|].
      cbn in Hin'. apply filter_In in Hin'. apply Hin'. }
    assert (H2 : autoCheckTimer (if repeats t then st else clearTimer (timerId t) st) = None)
      by (destruct (repeats t); exact Hauto).
    assert (H3 : initialCheckTimeout (if repeats t then st else clearTimer (timerId t) st)
                 = None)
      by (destruct (repeats t); exact Hinit).
    destruct Hcase as [[_ He]|[_ (st2 & He & ->)]];
      destruct He as (_ & E2 & _ & E4 & E5 & _).
    + rewrite E2, E4, E5. auto.
    + cbn. rewrite E2, E4. auto.
Qed.

(** X13. An unpackaged application stays off the network for good: in no
    state it can reach has the updater been asked to check or to
    download, or a file been fetched; no check is waiting in the event
    loop, and the scheduler holds no handle. *)
Theorem dev_mode_stays_offline (app : App) (st : State) :
  isDev app = true ->
  reachable app st ->
  Forall (fun e : Effect => contacts_network e = false) (effects st) /\
  (forall t : Timer, In t (timers st) -> plain (callback t)) /\
  autoCheckTimer st = None /\ initialCheckTimeout st = None.
Proof.
  intros Hdev Hr. split.
  - apply (reachable_effects (fun e => contacts_network e = false) app);
      try (intros; reflexivity); [|exact Hr].
    intros Hnot. congruence.
  - destruct Hr as (persisted & win & actions & H).
    assert (H0 : (forall t : Timer,
                     In t (timers (initUpdater app persisted win)) ->
                     plain (callback t)) /\
                 autoCheckTimer (initUpdater app persisted win) = None /\
                 initialCheckTimeout (initUpdater app persisted win) = None).
    { unfold initUpdater.
      destruct (startAutoCheck_handles app (initial persisted win)) as [-> ->].
      rewrite startAutoCheck_timers, (will_arm_dev app _ Hdev).
      split; [|auto]. intros t Hin. cbn in Hin. contradiction. }
    revert H H0. generalize (initUpdater app persisted win).
    induction actions as [|a actions IH]; intros st0 H H0; cbn [perform_all] in H.
    + injection H as <-. exact H0.
    + destruct (perform app a st0) as [st1|] eqn:E; [|discriminate].
      apply (IH st1 H). exact (perform_offline app a st0 st1 Hdev H0 E).
Qed.

(** The unpackaged build after a manual check and the notice that follows
    it. *)
Lemma dev_mode_stays_offline_witness :
  Forall (fun e : Effect => contacts_network e = false)
    (effects (fire Sample.unpackaged
                {| timerId := 0; repeats := false; delay := integer 500;
                   callback := DevModeNotice "1.2.0" |}
                (Returns None) (Returns tt)
                (snd (handle_check_for_updates Sample.unpackaged Sample.quiet
                        (initUpdater Sample.unpackaged ∅ Sample.open_window))))).
Proof.
  apply (dev_mode_stays_offline Sample.unpackaged); [reflexivity|].
  exists ∅, Sample.open_window,
    [Invoke "check-for-updates" VUndefined Sample.quiet;
     TimerFires 0 (Returns None) (Returns tt)].
  vm_compute. reflexivity.
Defined.

(** *** What reaches the renderer *)

(** X14. Nothing is sent to a window that has been closed: from a state
    whose window is gone or destroyed, whatever happens, the window stays
    closed and the messages sent are those sent before. *)
Theorem closed_window_gets_no_message (app : App) (actions : list Action)
    (st st' : State) :
  window_open st = false ->
  perform_all app actions st = Some st' ->
  window_open st' = false /\ sends (effects st') = sends (effects st).
Proof.
  intros Hclosed H.
  apply (perform_all_grows
           (fun e => forall (channel : string) (payload : jsval), e <> Send channel payload)
           app) in H; try (intros; discriminate).
  - destruct H as [Hw (new & -> & HP)]. split.
    + destruct (window_open st'); [|reflexivity]. rewrite <- Hclosed. symmetry. auto.
    + rewrite sends_app. rewrite <- (app_nil_r (sends (effects st))) at 2. f_equal.
      induction HP as [|e new He _ IH]; [reflexivity|].
      destruct e; cbn; try exact IH. exfalso. exact (He _ _ eq_refl).
  - intros _. repeat split; intros; discriminate.
  - rewrite Hclosed. discriminate.
Qed.

(** The window is closed, then the updater reports an update. *)
Lemma closed_window_gets_no_message_witness :
  sends (effects (on_updater_event (UpdateAvailable Sample.older_release)
                    (destroy_window (initial ∅ Sample.open_window)))) = [].
Proof.
  apply (closed_window_gets_no_message Sample.packaged
           [UpdaterEmits (UpdateAvailable Sample.older_release)]
           (destroy_window (initial ∅ Sample.open_window))); reflexivity.
Defined.

(** X15. Every message the main process sends has a listener: in any state
    the process can reach, each message sent so far went out on a channel
    the preload script subscribes the renderer to. *)
Theorem every_message_has_a_listener (app : App) (st : State)
    (channel : string) (payload : jsval) :
  reachable app st ->
  In (channel, payload) (sends (effects st)) ->
  exists s : Preload.Subscription, Preload.listens_on s = channel.
Proof.
  intros Hr Hin. apply sends_In in Hin.
  assert (HP : Forall (fun e => match e with
                                | Send c _ => exists s, Preload.listens_on s = c
                                | _ => True
                                end) (effects st)).
  { apply (reachable_effects _ app); try (intros; exact I); try exact Hr;
      try (intros _; split; [exact I|split; [exact I|intros; exact I]]).
    intros s p. exists s. reflexivity. }
  rewrite List.Forall_forall in HP. exact (HP _ Hin).
Qed.

(** The first message of a manual check. *)
Lemma every_message_has_a_listener_witness :
  exists s : Preload.Subscription, Preload.listens_on s = "checking-for-update".
Proof.
  apply (every_message_has_a_listener Sample.packaged
           (snd (handle_check_for_updates Sample.packaged Sample.quiet
                   (initUpdater Sample.packaged ∅ Sample.open_window)))
           "checking-for-update" VNull).
  - exists ∅, Sample.open_window, [Invoke "check-for-updates" VUndefined Sample.quiet].
    reflexivity.
  - vm_compute. left. reflexivity.
Defined.

(** *** What a single step leaves alone *)

(** X16. No handler quits the application by itself: whatever the renderer
    invokes, the calls made before the handler answers include neither
    [app.quit()] nor [quitAndInstall]; those are left to timers and to the
    restart dialog. *)
Theorem handlers_never_quit_at_once (app : App) (channel : string) (arg : jsval)
    (w : World) (st st' : State) :
  perform app (Invoke channel arg w) st = Some st' ->
  exists new : list Effect,
    effects st' = (effects st ++ new)%list /\
    Forall (fun e : Effect =>
              e <> Quit /\
              forall isSilent isForceRunAfter : bool,
                e <> QuitAndInstall isSilent isForceRunAfter) new.
Proof.
  intros H.
  apply (perform_grows
           (fun e => e <> Quit /\
                     forall isSilent isForceRunAfter : bool,
                       e <> QuitAndInstall isSilent isForceRunAfter) app) in H;
    try (intros; split; intros; discriminate).
  - apply H.
  - intros _. repeat split; intros; discriminate.
  - intros Hnot. exfalso. exact (Hnot channel arg w eq_refl).
Qed.

(** On macOS with a disk image downloaded, 'install-update' opens the
    image and sets a timer; it does not quit. *)
Lemma handlers_never_quit_at_once_witness :
  exists new : list Effect,
    effects (snd (handle_install_update Sample.packaged Sample.quiet
                    (set_downloadedDmgPath (Some "/Users/me/Downloads/Redmine-1.3.0-arm64.dmg")
                       (initial ∅ Sample.open_window)))) =
    (effects (set_downloadedDmgPath (Some "/Users/me/Downloads/Redmine-1.3.0-arm64.dmg")
                (initial ∅ Sample.open_window)) ++ new)%list /\
    Forall (fun e : Effect =>
              e <> Quit /\
              forall isSilent isForceRunAfter : bool,
                e <> QuitAndInstall isSilent isForceRunAfter) new.
Proof.
  apply (handlers_never_quit_at_once Sample.packaged "install-update" VUndefined
           Sample.quiet).
  reflexivity.
Defined.

(** X17. The store is written by the settings handler and by nothing
    else: any other step, be it another handler, a timer, an event of the
    updater or the window closing, leaves every key as it was. *)
Theorem only_the_settings_handler_writes_the_store (app : App) (a : Action)
    (st st' : State) :
  (forall (arg : jsval) (w : World), a <> Invoke "set-auto-update-settings" arg w) ->
  perform app a st = Some st' ->
  store st' = store st.
Proof.
  intros Hnot H.
  destruct (perform_shape (fun _ => True) app) with (a := a) (st := st) (st' := st')
    as [He | [(st1 & cb & d & He & Hp & ->)
           | [(arg & w & settings & Ha & _)
             | (id & check & q & t & st1 & _ & Hin & Hid & -> & Hcase)]]];
    auto.
  - apply He.
  - cbn. apply He.
  - exfalso. exact (Hnot arg w Ha).
  - destruct Hcase as [[_ He]|[_ (st2 & He & ->)]];
      destruct He as (E1 & _); cbn; rewrite E1; destruct (repeats t); reflexivity.
Qed.

(** The recurring check fires on a packaged build. *)
Lemma only_the_settings_handler_writes_the_store_witness :
  store (fire Sample.packaged
           {| timerId := 0; repeats := true; delay := integer 86400000;
              callback := BackgroundCheck |}
           (Returns None) (Returns tt)
           (initUpdater Sample.packaged ∅ Sample.open_window)) =
  store (initUpdater Sample.packaged ∅ Sample.open_window).
Proof.
  apply (only_the_settings_handler_writes_the_store Sample.packaged
           (TimerFires 0 (Returns None) (Returns tt))).
  - discriminate.
  - reflexivity.
Defined.

(** *** The two sides of the bridge *)

(** X18. The preload script and the main process agree on the channels
    invoked: every method the preload script exposes invokes a channel
    that has a handler, and a channel that no method invokes has none. *)
Theorem preload_methods_have_handlers (app : App) (w : World) (arg : jsval) (st : State) :
  (forall m : Preload.Method,
      invoke app w (Preload.channel m) arg st <>
      Some (no_handler (Preload.channel m), st)) /\
  (forall channel : string,
      (forall m : Preload.Method, Preload.channel m <> channel) ->
      invoke app w channel arg st = Some (no_handler channel, st)).
Proof.
  split.
  - intros m. unfold invoke.
    destruct m; cbn [Preload.channel];
      repeat match goal with
             | |- context [String.eqb ?a ?b] =>
                 let v := eval vm_compute in (String.eqb a b) in
                 change (String.eqb a b) with v; cbv iota
             end;
      try discriminate.
    + destruct (handle_download_update app w st) as [[answer st']|]; discriminate.
    + destruct arg; cbn [settings_of]; discriminate.
  - intros channel Hnone. unfold invoke.
    destruct (String.eqb_spec channel "check-for-updates") as [->|_];
      [exfalso; exact (Hnone Preload.checkForUpdates eq_refl)|].
    destruct (String.eqb_spec channel "download-update") as [->|_];
      [exfalso; exact (Hnone Preload.downloadUpdate eq_refl)|].
    destruct (String.eqb_spec channel "install-update") as [->|_];
      [exfalso; exact (Hnone Preload.installUpdate eq_refl)|].
    destruct (String.eqb_spec channel "get-app-version") as [->|_];
      [exfalso; exact (Hnone Preload.getAppVersion eq_refl)|].
    destruct (String.eqb_spec channel "open-release-page") as [->|_];
      [exfalso; exact (Hnone Preload.openReleasePage eq_refl)|].
    destruct (String.eqb_spec channel "get-auto-update-settings") as [->|_];
      [exfalso; exact (Hnone Preload.getAutoUpdateSettings eq_refl)|].
    destruct (String.eqb_spec channel "set-auto-update-settings") as [->|_];
      [exfalso; exact (Hnone Preload.setAutoUpdateSettings eq_refl)|].
    reflexivity.
Qed.

(** A channel of some other module has no handler here. *)
Lemma preload_methods_have_handlers_witness :
  invoke Sample.packaged Sample.quiet "get-issues" VUndefined
    (initial ∅ Sample.open_window) =
  Some (no_handler "get-issues", initial ∅ Sample.open_window).
Proof.
  apply (proj2 (preload_methods_have_handlers Sample.packaged Sample.quiet VUndefined
                  (initial ∅ Sample.open_window)) "get-issues").
  intros m. destruct m; discriminate.
Defined.

(** *** From the update's announcement to its installation *)

Lemma sendToRenderer_vars (channel : string) (payload : jsval) (st : State) :
  latestUpdateInfo (sendToRenderer channel payload st) = latestUpdateInfo st /\
  downloadedDmgPath (sendToRenderer channel payload st) = downloadedDmgPath st /\
  window_open (sendToRenderer channel payload st) = window_open st.
Proof.
  unfold sendToRenderer, window_open.
  destruct (mainWindow st) as [[[]]|] eqn:E; cbn; rewrite ?E; repeat split; reflexivity.
Qed.

Lemma reports_vars (reports : list Download.Progress) (st : State) :
  let st' := fold_left
               (fun st progress =>
                  sendToRenderer "download-progress" (progress_payload progress) st)
               reports st in
  downloadedDmgPath st' = downloadedDmgPath st /\ window_open st' = window_open st /\
  forall e : Effect, In e (effects st) -> In e (effects st').
Proof.
  cbv zeta. revert st. induction reports as [|p reports IH]; intros st; [auto|].
  cbn [fold_left].
  destruct (IH (sendToRenderer "download-progress" (progress_payload p) st))
    as (-> & -> & Hin).
  destruct (sendToRenderer_vars "download-progress" (progress_payload p) st)
    as (_ & -> & ->).
  repeat split. intros e He. apply Hin. rewrite sendToRenderer_effects.
  apply in_or_app. left. exact He.
Qed.

Lemma sent_when_open (channel : string) (payload : jsval) (st : State) :
  window_open st = true ->
  In (Send channel payload) (effects (sendToRenderer channel payload st)).
Proof.
  intros Hw. rewrite sendToRenderer_effects, Hw. apply in_or_app. right. left. reflexivity.
Qed.

Lemma still_there (e : Effect) (channel : string) (payload : jsval) (st : State) :
  In e (effects st) -> In e (effects (sendToRenderer channel payload st)).
Proof.
  intros H. rewrite sendToRenderer_effects. apply in_or_app. left. exact H.
Qed.



(** X20. How 'download-update' fails in a packaged application. When the
    updater's own download fails, the handler answers
    [{success: false, error}] with the error's message and reports it to
    an open window. When the download of the disk image on macOS fails,
    no image is recorded as downloaded and the page of the latest
    release, https://github.com/jheroy/Redmine-desktop/releases/latest,
    is opened instead: if that works, the answer is
    [{success: false, error}] with the download's error; if the page
    cannot be opened either, the answer and the report carry the error of
    opening the page, and the download's error is only logged. *)
Theorem download_update_failures (app : App) (w : World) (st : State) (message : string) :
  isDev app = false ->
  ((platform app <> "darwin" \/ latestUpdateInfo st = None) ->
   download_answer w = Throws message ->
   exists st' : State,
     handle_download_update app w st =
     Some (VObj [ ("success", VBool false); ("error", VStr message) ], st') /\
     In DownloadUpdate (effects st') /\
     downloadedDmgPath st' = downloadedDmgPath st /\
     (window_open st = true ->
      In (Send "update-error" (VObj [ ("message", VStr message) ])) (effects st'))) /\
  (forall info : UpdateInfo,
      platform app = "darwin" ->
      latestUpdateInfo st = Some info ->
      let name := "Redmine-" +:+ version info +:+ "-arm64.dmg" in
      let url := "https://github.com/jheroy/Redmine-desktop/releases/download/v"
                 +:+ version info +:+ "/" +:+ name in
      let path := path_join app (downloads app) name in
      Download.promise (Download.downloadFile (get_answer w) url path (now w) (network w)) =
      Rejected message ->
      exists (reply : jsval) (st' : State),
        handle_download_update app w st = Some (reply, st') /\
        In (OpenExternal "https://github.com/jheroy/Redmine-desktop/releases/latest")
           (effects st') /\
        In (Log Error [VStr "Failed to download DMG:"; VStr message]) (effects st') /\
        downloadedDmgPath st' = downloadedDmgPath st /\
        match open_answer w with
        | Returns _ =>
            reply = VObj [ ("success", VBool false); ("error", VStr message) ] /\
            (window_open st = true ->
             In (Send "update-error"
                   (VObj [ ("message", VStr ("下载失败，已打开下载页面: " +:+ message)) ]))
                (effects st'))
        | Throws e =>
            reply = VObj [ ("success", VBool false); ("error", VStr e) ] /\
            (window_open st = true ->
             In (Send "update-error" (VObj [ ("message", VStr e) ])) (effects st'))
        end).
Proof.
  intros Hdev. split.
  - intros Hupd Hanswer. unfold handle_download_update, download_failed. rewrite Hdev.
    assert (Hnone : (if String.eqb (platform app) "darwin"
                     then latestUpdateInfo st else None) = None).
    { destruct Hupd as [Hp| ->].
      - apply String.eqb_neq in Hp. rewrite Hp. reflexivity.
      - destruct (String.eqb (platform app) "darwin"); reflexivity. }
    rewrite Hnone, Hanswer. eexists. split; [reflexivity|]. split; [|split].
    + apply still_there. cbn [effects emit].
      apply in_or_app. left. apply in_or_app. right. left. reflexivity.
    + rewrite (proj1 (proj2 (sendToRenderer_vars _ _ _))). reflexivity.
    + intros Hw. apply sent_when_open. exact Hw.
  - intros info Hplat Hlatest. cbv zeta. intros Hfailed.
    unfold handle_download_update, download_failed. rewrite Hdev, Hplat, Hlatest.
    cbn [String.eqb Ascii.eqb Bool.eqb andb]. rewrite Hfailed.
    match goal with |- context [fold_left ?f ?l ?s] => set (st0 := fold_left f l s) in * end.
    assert (H0 : downloadedDmgPath st0 = downloadedDmgPath st /\
                 window_open st0 = window_open st).
    { unfold st0.
      match goal with
      | |- context [fold_left ?f ?l ?s] => destruct (reports_vars l s) as (-> & -> & _)
      end.
      split.
      - cbn [downloadedDmgPath emit].
        rewrite (proj1 (proj2 (sendToRenderer_vars _ _ _))). reflexivity.
      - match goal with
        | |- context [sendToRenderer ?c ?p ?s] =>
            exact (proj2 (proj2 (sendToRenderer_vars c p s)))
        end. }
    destruct H0 as [Hdmg Hopen]. clearbody st0.
    destruct (open_answer w) as [[]|e]; eexists _, _; (split; [reflexivity|]).
    + split; [|split; [|split; [|split; [reflexivity|]]]].
      * apply still_there. cbn [effects emit]. apply in_or_app. right. left. reflexivity.
      * apply still_there. cbn [effects emit].
        apply in_or_app. left. apply in_or_app. right. left. reflexivity.
      * rewrite (proj1 (proj2 (sendToRenderer_vars _ _ _))). exact Hdmg.
      * intros Hw. apply sent_when_open. rewrite <- Hopen in Hw. exact Hw.
    + split; [|split; [|split; [|split; [reflexivity|]]]].
      * apply still_there. cbn [effects emit].
        apply in_or_app. left. apply in_or_app. right. left. reflexivity.
      * apply still_there. cbn [effects emit].
        apply in_or_app. left. apply in_or_app. left. apply in_or_app. right. left.
        reflexivity.
      * rewrite (proj1 (proj2 (sendToRenderer_vars _ _ _))). exact Hdmg.
      * intros Hw. apply sent_when_open. rewrite <- Hopen in Hw. exact Hw.
Qed.

(** No network and no browser: the error that reaches the renderer is the
    one of opening the page. *)
Lemma download_update_failures_witness :
  exists st' : State,
    handle_download_update Sample.packaged Sample.no_network
      (set_latestUpdateInfo (Some Sample.newer_release) (initial ∅ Sample.open_window)) =
    Some (VObj [ ("success", VBool false);
                 ("error", VStr "No application to open the URL") ], st') /\
    In (OpenExternal "https://github.com/jheroy/Redmine-desktop/releases/latest")
       (effects st').
Proof.
  destruct (proj2 (download_update_failures Sample.packaged Sample.no_network
                     (set_latestUpdateInfo (Some Sample.newer_release)
                        (initial ∅ Sample.open_window))
                     "getaddrinfo ENOTFOUND github.com" eq_refl)
                  Sample.newer_release eq_refl eq_refl)
    as (reply & st' & Hreply & Hpage & _ & _ & Hanswer).
  - vm_compute. reflexivity.
  - cbn in Hanswer. destruct Hanswer as [-> _]. exists st'. split; [exact Hreply|exact Hpage].
Defined.

(** *** Answers *)

(** X21. The four handlers that report success never let the renderer's
    call fail: when the call settles it is with an answer, and the answer
    is as the renderer's declarations say, an object whose [success] is
    [true] and that has no [error], or whose [success] is [false] and
    whose [error] is a text; so it is when the updater, the download or
    the opening of a page fails. *)
Theorem answers_are_as_declared (app : App) (w : World) (arg : jsval) (st st' : State)
    (m : Preload.Method) (reply : Reply) :
  m = Preload.checkForUpdates \/ m = Preload.downloadUpdate \/
  m = Preload.installUpdate \/ m = Preload.openReleasePage ->
  invoke app w (Preload.channel m) arg st = Some (reply, st') ->
  exists v : jsval, reply = Answer v /\ declared_answer v.
Proof.
  intros Hm H. unfold invoke in H.
  destruct Hm as [-> | [-> | [-> | ->]]]; cbn [Preload.channel] in H;
    repeat match type of H with
           | context [String.eqb ?a ?b] =>
               let v := eval vm_compute in (String.eqb a b) in
               change (String.eqb a b) with v in H; cbv iota in H
           end.
  - injection H as <- _. eexists. split; [reflexivity|].
    unfold handle_check_for_updates. destruct (isDev app); [left; split; reflexivity|].
    destruct (check_answer w) as [result|message];
      [left; split; reflexivity|right; split; [reflexivity|eexists; reflexivity]].
  - destruct (handle_download_update app w st) as [[answer st0]|] eqn:E; [|discriminate].
    injection H as <- _. eexists. split; [reflexivity|].
    unfold handle_download_update, download_failed in E.
    destruct (isDev app).
    + destruct (open_answer w) as [[]|message]; injection E as <- _;
        right; (split; [reflexivity|eexists; reflexivity]).
    + destruct (if String.eqb (platform app) "darwin" then latestUpdateInfo st else None)
        as [info|].
      * destruct (Download.promise _) as [|[]|message]; [discriminate| |].
        -- injection E as <- _. left. split; reflexivity.
        -- destruct (open_answer w) as [[]|e]; injection E as <- _;
             right; (split; [reflexivity|eexists; reflexivity]).
      * destruct (download_answer w) as [[]|message]; injection E as <- _;
          [left; split; reflexivity|right; split; [reflexivity|eexists; reflexivity]].
  - injection H as <- _. eexists. split; [reflexivity|].
    unfold handle_install_update. destruct (isDev app);
      [right; split; [reflexivity|eexists; reflexivity]|].
    destruct (if String.eqb (platform app) "darwin"
              then match downloadedDmgPath st with
                   | Some path => if String.eqb path "" then None else Some path
                   | None => None
                   end
              else None); left; split; reflexivity.
  - injection H as <- _. eexists. split; [reflexivity|].
    unfold handle_open_release_page.
    destruct (open_answer w) as [[]|message];
      [left; split; reflexivity|right; split; [reflexivity|eexists; reflexivity]].
Qed.

(** Without a network a manual check still answers, with the error. *)
Lemma answers_are_as_declared_witness :
  exists v : jsval,
    Answer (fst (handle_check_for_updates Sample.packaged Sample.no_network
                   (initial ∅ Sample.open_window))) = Answer v /\
    declared_answer v.
Proof.
  apply (answers_are_as_declared Sample.packaged Sample.no_network VUndefined
           (initial ∅ Sample.open_window)
           (snd (handle_check_for_updates Sample.packaged Sample.no_network
                   (initial ∅ Sample.open_window)))
           Preload.checkForUpdates).
  - left. reflexivity.
  - reflexivity.
Defined.

End MainProcess.


(** ** What the module remembers of an update *)

Section Memory.
Import JS Updater Scheduler Ipc.

Lemma keeps_refl (st : State) : keeps st st.
Proof. split; reflexivity. Qed.

Lemma keeps_same (st st0 st' : State) :
  latestUpdateInfo st' = latestUpdateInfo st0 ->
  downloadedDmgPath st' = downloadedDmgPath st0 ->
  keeps st st0 -> keeps st st'.
Proof. intros E1 E2 [H1 H2]. split; congruence. Qed.

Lemma keeps_emit (e : Effect) (st st0 : State) : keeps st st0 -> keeps st (emit e st0).
Proof. apply keeps_same; reflexivity. Qed.

Lemma keeps_send (channel : string) (payload : jsval) (st st0 : State) :
  keeps st st0 -> keeps st (sendToRenderer channel payload st0).
Proof.
  destruct (sendToRenderer_vars channel payload st0) as (E1 & E2 & _).
  apply keeps_same; assumption.
Qed.

Lemma keeps_reports (reports : list Download.Progress) (st st0 : State) :
  keeps st st0 ->
  keeps st
    (fold_left (fun st progress =>
                  sendToRenderer "download-progress" (progress_payload progress) st)
               reports st0).
Proof.
  revert st0. induction reports as [|p reports IH]; intros st0 H; [exact H|].
  cbn [fold_left]. apply IH, keeps_send, H.
Qed.

Lemma keeps_silent (app : App) (check : Outcome (option UpdateCheckResult))
    (st st0 : State) :
  keeps st st0 -> keeps st (silentCheckForUpdates app check st0).
Proof.
  intros H. unfold silentCheckForUpdates. destruct (isDev app); [exact H|].
  destruct check as [[result|]|error]; repeat first [apply keeps_emit | exact H].
  destruct (updateInfo result) as [info|]; [|apply keeps_emit, H].
  destruct (negb (String.eqb (version info) (getVersion app)));
    repeat first [apply keeps_send | apply keeps_emit | exact H].
Qed.

Lemma keeps_startAutoCheck (app : App) (st : State) : keeps st (startAutoCheck app st).
Proof.
  unfold startAutoCheck.
  destruct (autoCheckTimer st) as [h1|];
    cbn [initialCheckTimeout set_autoCheckTimer clearTimer with_timers];
    destruct (initialCheckTimeout st) as [h2|];
    match goal with
    | |- context [if ?c then _ else _] => destruct c
    end;
    try (split; reflexivity);
    cbn [setInterval setTimeout setTimer isFirstStart set_autoCheckTimer emit
         set_initialCheckTimeout clearTimer with_timers];
    destruct (isFirstStart st); split; reflexivity.
Qed.

Ltac keep :=
  repeat first
    [ apply keeps_refl
    | apply keeps_emit
    | apply keeps_send
    | apply keeps_reports
    | apply keeps_silent ].

(** What a step does to the release and the disk image remembered: the
    release changes when the updater announces one, the image when a
    download of the remembered release's image is done. *)
Lemma perform_keeps (app : App) (a : Action) (st st' : State) :
  perform app a st = Some st' ->
  latestUpdateInfo st' = announced [a] (latestUpdateInfo st) /\
  (downloadedDmgPath st' = downloadedDmgPath st \/
   exists info : UpdateInfo,
     latestUpdateInfo st = Some info /\
     downloadedDmgPath st' = Some (image_path app info) /\
     exists url : string, In (DownloadFile url (image_path app info)) (effects st')).
Proof.
  intros H. destruct a as [channel arg w|id check q|ev|w|]; cbn [perform announced] in H |- *.
  - unfold invoke in H.
    destruct (String.eqb channel "check-for-updates").
    { injection H as <-. unfold handle_check_for_updates.
      assert (K : keeps st (snd (
        let st0 := emit (Log Info [VStr "Manual update check triggered, isDev:";
                                   VBool (isDev app)]) st in
        let st1 := sendToRenderer "checking-for-update" VNull st0 in
        if isDev app
        then (VUndefined,
              snd (setTimeout (DevModeNotice (getVersion app)) (of_Z 500)
                     (emit (Log Info [VStr "Dev mode: skipping API call, showing dev mode notice"])
                        st1)))
        else match check_answer w with
             | Returns _ => (VUndefined, emit CheckForUpdates st1)
             | Throws message =>
                 (VUndefined,
                  sendToRenderer "update-error" (VObj [ ("message", VStr message) ])
                    (emit (Log Error [VStr "Failed to check for updates:"; VStr message])
                       (emit CheckForUpdates st1)))
             end))).
      { cbv zeta. destruct (isDev app).
        - cbn [snd]. apply (keeps_same _ (emit (Log Info
            [VStr "Dev mode: skipping API call, showing dev mode notice"])
            (sendToRenderer "checking-for-update" VNull
               (emit (Log Info [VStr "Manual update check triggered, isDev:"; VBool true])
                  st)))); [reflexivity|reflexivity|keep].
        - destruct (check_answer w); cbn [snd]; keep. }
      cbv zeta in K. destruct (isDev app); [|destruct (check_answer w)];
        cbn [snd setTimeout setTimer] in K |- *; destruct K as [K1 K2];
        (split; [exact K1|left; exact K2]). }
    destruct (String.eqb channel "download-update").
    { destruct (handle_download_update app w st) as [[reply st0]|] eqn:E; [|discriminate].
      injection H as <-. unfold handle_download_update, download_failed in E.
      destruct (isDev app).
      - assert (K : keeps st st0).
        { destruct (open_answer w) as [[]|message]; injection E as _ <-; keep. }
        destruct K as [K1 K2]. split; [exact K1|left; exact K2].
      - destruct (String.eqb (platform app) "darwin").
        + destruct (latestUpdateInfo st) as [info|] eqn:Hinfo.
          * match type of E with
            | context [fold_left ?f ?l ?s] => set (st1 := fold_left f l s) in *
            end.
            assert (K1 : keeps st st1) by (unfold st1; keep).
            assert (Hfile : exists url : string,
                       In (DownloadFile url (image_path app info)) (effects st1)).
            { eexists. unfold st1. apply reports_vars. cbn [effects emit].
              apply in_or_app. right. left. reflexivity. }
            clearbody st1.
            destruct (Download.promise _) as [|[]|message]; [discriminate| |].
            -- injection E as _ <-. split.
               ++ rewrite (proj1 (sendToRenderer_vars _ _ _)).
                  cbn [latestUpdateInfo set_downloadedDmgPath emit].
                  rewrite (proj1 K1). exact Hinfo.
               ++ right. exists info. split; [reflexivity|]. split.
                  ** rewrite (proj1 (proj2 (sendToRenderer_vars _ _ _))). reflexivity.
                  ** destruct Hfile as [url Hfile]. exists url. apply still_there.
                     cbn [effects emit set_downloadedDmgPath].
                     apply in_or_app. left. exact Hfile.
            -- assert (K : keeps st st0).
               { destruct (open_answer w) as [[]|e]; injection E as _ <-;
                   repeat first [apply keeps_send | apply keeps_emit | exact K1]. }
               destruct K as [K2 K3]. split; [congruence|left; exact K3].
          * assert (K : keeps st st0).
            { destruct (download_answer w) as [[]|message]; injection E as _ <-; keep. }
            destruct K as [K1 K2]. split; [congruence|left; exact K2].
        + assert (K : keeps st st0).
          { destruct (download_answer w) as [[]|message]; injection E as _ <-; keep. }
          destruct K as [K1 K2]. split; [exact K1|left; exact K2]. }
    destruct (String.eqb channel "install-update").
    { injection H as <-. unfold handle_install_update.
      destruct (isDev app).
      - cbn [snd]. destruct (sendToRenderer_vars "update-error"
                    (VObj [("message", VStr "开发模式下无法安装更新")]) st) as (-> & -> & _).
        split; [reflexivity|left; reflexivity].
      - destruct (if String.eqb (platform app) "darwin"
                  then match downloadedDmgPath st with
                       | Some path => if String.eqb path "" then None else Some path
                       | None => None
                       end
                  else None) as [dmg|]; cbn [snd setTimeout setTimer];
          [destruct (String.eqb (openPath_answer w) "")|];
          (split; [reflexivity|left; reflexivity]). }
    destruct (String.eqb channel "get-app-version").
    { injection H as <-. split; [reflexivity|left; reflexivity]. }
    destruct (String.eqb channel "open-release-page").
    { injection H as <-. unfold handle_open_release_page.
      destruct (open_answer w); (split; [reflexivity|left; reflexivity]). }
    destruct (String.eqb channel "get-auto-update-settings").
    { injection H as <-. split; [reflexivity|left; reflexivity]. }
    destruct (String.eqb channel "set-auto-update-settings").
    { destruct (settings_of arg) as [settings|message].
      - rewrite handle_set_unfold in H. injection H as <-.
        destruct (keeps_startAutoCheck app (write_settings settings st)) as [-> ->].
        unfold write_settings.
        destruct (enabled settings), (interval settings);
          (split; [reflexivity|left; reflexivity]).
      - injection H as <-. split; [reflexivity|left; reflexivity]. }
    injection H as <-. split; [reflexivity|left; reflexivity].
  - destruct (pending id st) as [t|]; [|discriminate]. injection H as <-.
    assert (K : keeps st (fire app t check q st)).
    { unfold fire.
      assert (K0 : keeps st (if repeats t then st else clearTimer (timerId t) st))
        by (destruct (repeats t); split; reflexivity).
      revert K0. generalize (if repeats t then st else clearTimer (timerId t) st).
      intros st0 K0. destruct (callback t); cbn [run_callback].
      - apply keeps_silent, keeps_emit, K0.
      - apply (keeps_same _ (silentCheckForUpdates app check
                               (emit (Log Info [VStr "Initial auto check for updates..."])
                                  st0))); [reflexivity|reflexivity|].
        apply keeps_silent, keeps_emit, K0.
      - apply keeps_send, K0.
      - apply keeps_emit, keeps_emit, K0.
      - destruct q as [[]|e]; repeat apply keeps_emit; exact K0. }
    destruct K as [K1 K2]. split; [exact K1|left; exact K2].
  - injection H as <-. destruct ev; cbn [on_updater_event];
      try (match goal with
           | |- latestUpdateInfo ?s = _ /\ _ =>
               assert (K : keeps st s) by keep; destruct K as [K1 K2];
               split; [exact K1|left; exact K2]
           end).
    + split.
      * rewrite (proj1 (sendToRenderer_vars _ _ _)). reflexivity.
      * left. rewrite (proj1 (proj2 (sendToRenderer_vars _ _ _))). reflexivity.
    + match goal with
      | |- context [sendToRenderer ?c ?p ?s] => set (st1 := sendToRenderer c p s)
      end.
      assert (K : keeps st st1) by (unfold st1; keep). destruct K as [K1 K2].
      destruct (mainWindow st1); [destruct (response =? 0)|];
        cbn [latestUpdateInfo downloadedDmgPath emit];
        (split; [exact K1|left; exact K2]).
  - injection H as <-. unfold checkForUpdates.
    destruct (isDev app); [|destruct (check_answer w)];
      (split; [reflexivity|left; reflexivity]).
  - injection H as <-. split; [reflexivity|left; reflexivity].
Qed.

(** X23. The release remembered for the macOS download is the one the
    updater announced last: an 'update-available' event replaces it, and
    nothing else changes or clears it; so no later event, not even
    'update-not-available' or an error, makes the module forget a release
    it was told of. *)
Theorem announced_release_is_kept (app : App) (actions : list Action) (st st' : State) :
  perform_all app actions st = Some st' ->
  latestUpdateInfo st' = announced actions (latestUpdateInfo st) /\
  (latestUpdateInfo st <> None -> latestUpdateInfo st' <> None).
Proof.
  intros H.
  assert (H1 : latestUpdateInfo st' = announced actions (latestUpdateInfo st)).
  { revert st H. induction actions as [|a actions IH]; intros st H; cbn [perform_all] in H.
    - injection H as <-. reflexivity.
    - destruct (perform app a st) as [st1|] eqn:E; [|discriminate].
      rewrite (IH st1 H). destruct (perform_keeps app a st st1 E) as [-> _].
      destruct a as [| |[]| |]; reflexivity. }
  split; [exact H1|]. rewrite H1. generalize (latestUpdateInfo st). clear.
  induction actions as [|a actions IH]; intros known Hk; [exact Hk|].
  destruct a as [| |[]| |]; cbn [announced]; try (apply IH; exact Hk).
  apply IH. discriminate.
Qed.

(** A release is announced, then the updater reports that there is none. *)
Lemma announced_release_is_kept_witness :
  latestUpdateInfo
    (on_updater_event (UpdateNotAvailable Sample.older_release)
       (on_updater_event (UpdateAvailable Sample.newer_release)
          (initial ∅ Sample.open_window))) =
  Some Sample.newer_release.
Proof.
  apply (proj1 (announced_release_is_kept Sample.packaged
                  [UpdaterEmits (UpdateAvailable Sample.newer_release);
                   UpdaterEmits (UpdateNotAvailable Sample.older_release)]
                  (initial ∅ Sample.open_window) _ eq_refl)).
Defined.

(** X24. The disk image 'install-update' would open was downloaded by this
    process: in any reachable state, a remembered image path is the path
    of the image of some release, and [downloadFile] has been called
    with that path. *)
Theorem remembered_image_was_downloaded (app : App) (st : State) (path : string) :
  reachable app st ->
  downloadedDmgPath st = Some path ->
  exists (info : UpdateInfo) (url : string),
    path = image_path app info /\ In (DownloadFile url path) (effects st).
Proof.
  intros (persisted & win & actions & H).
  assert (H0 : forall p : string,
             downloadedDmgPath (initUpdater app persisted win) = Some p ->
             exists (info : UpdateInfo) (url : string),
               p = image_path app info /\
               In (DownloadFile url p) (effects (initUpdater app persisted win))).
  { intros p Hp. unfold initUpdater in Hp.
    rewrite (proj2 (keeps_startAutoCheck app (initial persisted win))) in Hp.
    discriminate Hp. }
  revert H H0 path. generalize (initUpdater app persisted win).
  induction actions as [|a actions IH]; intros st0 H H0; cbn [perform_all] in H.
  - injection H as <-. exact H0.
  - destruct (perform app a st0) as [st1|] eqn:E; [|discriminate].
    apply (IH st1 H). intros p Hp.
    destruct (perform_keeps app a st0 st1 E) as [_ [Hsame|(info & _ & Hd & url & Hin)]].
    + rewrite Hsame in Hp. destruct (H0 p Hp) as (info & url & Hpath & Hin).
      exists info, url. split; [exact Hpath|].
      assert (G : grows (fun _ => True) st0 st1).
      { apply (perform_grows (fun _ => True) app) with (a := a); auto. }
      destruct G as [_ (new & -> & _)]. apply in_or_app. left. exact Hin.
    + rewrite Hd in Hp. injection Hp as <-. exists info, url. split; [reflexivity|exact Hin].
Qed.

(** The image of release 1.3.0 after its download. *)
Lemma remembered_image_was_downloaded_witness :
  exists (info : UpdateInfo) (url : string),
    "/Users/me/Downloads/Redmine-1.3.0-arm64.dmg" = image_path Sample.packaged info /\
    In (DownloadFile url "/Users/me/Downloads/Redmine-1.3.0-arm64.dmg")
       (effects
          (match handle_download_update Sample.packaged Sample.good_network
                   (on_updater_event (UpdateAvailable Sample.newer_release)
                      (initUpdater Sample.packaged ∅ Sample.open_window)) with
           | Some (_, st) => st
           | None => initial ∅ Sample.open_window
           end)).
Proof.
  apply (remembered_image_was_downloaded Sample.packaged).
  - exists ∅, Sample.open_window,
      [UpdaterEmits (UpdateAvailable Sample.newer_release);
       Invoke "download-update" VUndefined Sample.good_network].
    vm_compute. reflexivity.
  - vm_compute. reflexivity.
Defined.

End Memory.


(** ** The scheduler and the store *)

Section StoreAndScheduler.
Import JS Updater Scheduler Ipc.








End StoreAndScheduler.

(** ** Progress reports are numbers *)

Section ReportFacts.
Import JS Download.

(** What [https.get] does with an address: given, not modelled. *)
Variable https_get : string -> Outcome unit.

Local Abbreviation makeRequest := (Download.makeRequest https_get).
Local Abbreviation step := (Download.step https_get).
Local Abbreviation run := (Download.run https_get).
Local Abbreviation downloadFile := (Download.downloadFile https_get).

Lemma round_pos_not_NaN (p q : positive) : round_pos p q <> NaN.
Proof.
  unfold round_pos. cbv zeta.
  repeat match goal with
         | |- (if ?c then _ else _) <> _ => destruct c
         end; discriminate.
Qed.

Lemma round_double_not_NaN (n : Z) (d : positive) : round_double n d <> NaN.
Proof.
  destruct n as [|p|p]; cbn [round_double]; [discriminate|apply round_pos_not_NaN|].
  pose proof (round_pos_not_NaN p d) as H. destruct (round_pos p d); [contradiction| |];
    discriminate.
Qed.

Lemma positive_not_zero (y : Q) : num_lt zero (Fin y) = true -> is_zero y = false.
Proof.
  unfold num_lt, zero, is_zero. destruct (Qcompare (0 # 1) y) eqn:E; try discriminate.
  intros _. apply Z.eqb_neq. rewrite <- Qlt_alt in E. unfold Qlt in E. cbn in E. lia.
Qed.

Lemma div_not_NaN (x : Q) (b : jsnum) :
  num_lt zero b = true -> num_div (Fin x) b <> NaN.
Proof.
  destruct b as [|s|y]; cbn [num_div]; [discriminate|discriminate|].
  intros H. rewrite (positive_not_zero y H). apply round_double_not_NaN.
Qed.

Lemma times_100_not_NaN (r : jsnum) : r <> NaN -> num_mul r (of_Z 100) <> NaN.
Proof.
  intros H. rewrite (integer_of_Z 100) by (vm_compute; split; congruence).
  destruct r as [|s|x]; [contradiction|discriminate|]. apply round_double_not_NaN.
Qed.

Lemma report_is_a_number (chunk : list Byte.byte) (now : Z) (st : State) :
  0 <= downloadedBytes st ->
  let p := {| percent :=
                if num_gt (totalBytes st) zero
                then num_mul (num_div
                                (of_Z (downloadedBytes st + Z.of_nat (length chunk)))
                                (totalBytes st)) (of_Z 100)
                else zero;
              bytesPerSecond :=
                if num_gt (num_div (of_Z (now - startTime st)) (of_Z 1000)) zero
                then num_div (of_Z (downloadedBytes st + Z.of_nat (length chunk)))
                       (num_div (of_Z (now - startTime st)) (of_Z 1000))
                else zero;
              transferred := downloadedBytes st + Z.of_nat (length chunk);
              total := totalBytes st |} in
  transferred p < 2 ^ 53 -> percent p <> NaN /\ bytesPerSecond p <> NaN.
Proof.
  intros Hpos. cbv zeta. cbn [transferred percent bytesPerSecond]. intros Hlt.
  rewrite (integer_of_Z (downloadedBytes st + Z.of_nat (length chunk))) by lia.
  unfold num_gt, integer. split.
  - destruct (num_lt zero (totalBytes st)) eqn:E; [|discriminate].
    apply times_100_not_NaN, div_not_NaN, E.
  - destruct (num_lt zero (num_div (of_Z (now - startTime st)) (of_Z 1000))) eqn:E;
      [|discriminate].
    apply div_not_NaN, E.
Qed.

Lemma step_reports (st : State) (ev : Event) :
  0 <= downloadedBytes st /\
  Forall (fun p => transferred p < 2 ^ 53 -> percent p <> NaN /\ bytesPerSecond p <> NaN)
         (reported st) ->
  0 <= downloadedBytes (step st ev) /\
  Forall (fun p => transferred p < 2 ^ 53 -> percent p <> NaN /\ bytesPerSecond p <> NaN)
         (reported (step st ev)).
Proof.
  intros [Hpos Hall].
  destruct ev as [code location contentLength|chunk t| |message|message|message];
    cbn [step].
  - destruct (if (code =? 301) || (code =? 302)
              then match location with
                   | Some l => if String.eqb l "" then None else Some l
                   | None => None
                   end
              else None) as [l|];
      [unfold Download.makeRequest; destruct (https_get l)|destruct (negb (code =? 200))];
      split; assumption.
  - destruct (responseListeners st); [|split; assumption].
    cbn [receive downloadedBytes reported]. split; [lia|].
    apply Forall_app. split; [exact Hall|]. constructor; [|constructor].
    apply report_is_a_number, Hpos.
  - destruct (responseListeners st && fileListeners st && fileOpen st); split; assumption.
  - destruct (fileListeners st); split; assumption.
  - split; assumption.
  - split; assumption.
Qed.

(** X22. Whatever the server sends and however the clock runs, no progress
    report carries a percentage or a speed that is not a number, as long
    as the count of bytes stays below 2^53: the code divides by the length
    and by the elapsed time only after testing that they are positive, so
    a length header that is missing, zero or no number, and a chunk that
    arrives in the very millisecond the download started, lead to no
    division by zero. *)
Theorem progress_is_never_NaN (url destPath : string) (now : Z) (events : list Event) :
  Forall (fun p => transferred p < 2 ^ 53 -> percent p <> NaN /\ bytesPerSecond p <> NaN)
         (reported (downloadFile url destPath now events)).
Proof.
  unfold downloadFile.
  assert (H : 0 <= downloadedBytes (start url destPath now) /\
              Forall (fun p => transferred p < 2 ^ 53 ->
                               percent p <> NaN /\ bytesPerSecond p <> NaN)
                     (reported (start url destPath now))).
  { split; [reflexivity|constructor]. }
  revert H. generalize (start url destPath now).
  induction events as [|ev events IH]; intros st H; [apply H|].
  cbn [run fold_left]. apply (IH (step st ev)). apply step_reports, H.
Qed.

End ReportFacts.
